(** * oneShare: metadata store and orphan clean-up

    A shallow embedding of [server/sqlite_metadata_manager.py] and
    [server/metadata_cleanup_manager.py], with the path check of
    [server/utils.py] and the dictionary of [server/share_manager.py].

    - Python [str] values are byte strings (their UTF-8 encoding), which is
      how SQLite stores and compares [TEXT] under its default [BINARY]
      collation.
    - Python [int] values and SQLite [INTEGER] columns are [Z]; the 64-bit
      range of an [INTEGER] column is checked where a value is bound.
    - A table is the list of its rows in the order in which a [SELECT]
      without [ORDER BY] yields them. SQL leaves that order open (SQLite
      scans the index on [file_path] for [SELECT id, file_path]); [DELETE]
      and [UPDATE] keep the relative order of the rows, and nothing proved
      below depends on where [INSERT], modelled as appending, puts a row.
    - [datetime.now()] readings are inputs of the functions that take them.
    - The metadata manager is modelled over a database that can be opened;
      the clean-up manager, whose code handles exceptions, takes the
      operations that raise as an input ([faults]). *)

From Stdlib Require Import ZArith String Ascii.
From stdpp Require Import base tactics option list strings sorting.

Local Open Scope Z_scope.

(** ** Paths: [os.path] and [pathlib.PurePosixPath] *)

Module PosixPath.

Definition sep : ascii := "/"%char.

(** [s.split('/')] *)
Fixpoint split (s : string) : list string :=
  match s with
  | EmptyString => [EmptyString]
  | String c s' =>
      if decide (c = sep) then EmptyString :: split s'
      else match split s' with
           | x :: xs => String c x :: xs
           | [] => [String c EmptyString]
           end
  end.

(** ['/'.join(xs)] *)
Fixpoint join (xs : list string) : string :=
  match xs with
  | [] => EmptyString
  | x :: xs' =>
      match xs' with
      | [] => x
      | _ :: _ => x +:+ String sep (join xs')
      end
  end.

(** [s.rstrip('/')] *)
Fixpoint rstrip (s : string) : string :=
  match s with
  | EmptyString => EmptyString
  | String c s' =>
      match rstrip s' with
      | EmptyString => if decide (c = sep) then EmptyString else String c EmptyString
      | r => String c r
      end
  end.

(** [s == '/' * len(s)] *)
Fixpoint all_sep (s : string) : bool :=
  match s with
  | EmptyString => true
  | String c s' => bool_decide (c = sep) && all_sep s'
  end.

(** [(p[:i], p[i:])] for [i = p.rfind('/') + 1] *)
Fixpoint head_tail (p : string) : string * string :=
  match p with
  | EmptyString => (EmptyString, EmptyString)
  | String c p' =>
      let '(h, t) := head_tail p' in
      if decide (c = sep) then (String c h, t)
      else match h with
           | EmptyString => (EmptyString, String c t)
           | _ => (String c h, t)
           end
  end.

(** [os.path.dirname(p)] *)
Definition dirname (p : string) : string :=
  let head := fst (head_tail p) in
  if bool_decide (head ≠ EmptyString) && negb (all_sep head)
  then rstrip head else head.

(** [os.path.basename(p)] *)
Definition basename (p : string) : string := snd (head_tail p).

(** A parsed [PurePosixPath]: the root (["" ], ["/"] or ["//"]) and the
    components after it. *)
Record pure_path := PurePath { root : string; tail : list string }.

(** [splitroot]: a path that starts with exactly two slashes keeps both
    as its root; any other number of leading slashes is one. *)
Definition splitroot (p : string) : string * string :=
  match p with
  | String c1 r1 =>
      if decide (c1 = sep) then
        match r1 with
        | String c2 r2 =>
            if decide (c2 = sep) then
              match r2 with
              | String c3 _ =>
                  if decide (c3 = sep) then ("/", r1) else ("//", r2)
              | EmptyString => ("//", r2)
              end
            else ("/", r1)
        | EmptyString => ("/", r1)
        end
      else (EmptyString, p)
  | EmptyString => (EmptyString, p)
  end.

(** A component is kept when it is neither empty nor ["."]. *)
Definition kept (x : string) : Prop := x ≠ EmptyString ∧ x ≠ ".".

#[global] Instance kept_dec x : Decision (kept x).
Proof. unfold kept. apply _. Defined.

(** [PurePosixPath(p)] *)
Definition parse (p : string) : pure_path :=
  let '(rt, rel) := splitroot p in
  {| root := rt; tail := filter kept (split rel) |}.

(** [str(path)] *)
Definition render (pp : pure_path) : string :=
  match root pp +:+ join (tail pp) with
  | EmptyString => "."
  | s => s
  end.

(** [path.parent] *)
Definition parent (pp : pure_path) : pure_path :=
  match tail pp with
  | [] => pp
  | _ :: _ => {| root := root pp; tail := removelast (tail pp) |}
  end.

(** [str(Path(p).parent)] *)
Definition path_parent (p : string) : string := render (parent (parse p)).

(** [str(Path(p))] *)
Definition normal (p : string) : string := render (parse p).

(** [Path(p).name] *)
Definition name (p : string) : string := List.last (tail (parse p)) EmptyString.

(** [str(Path(a) / b)]: an absolute [b] replaces [a]. *)
Definition joinpath (a b : string) : string :=
  let pb := parse b in
  match root pb with
  | EmptyString =>
      let pa := parse a in
      render {| root := root pa; tail := tail pa ++ tail pb |}
  | _ => render pb
  end.

End PosixPath.


(** ** Python values *)

(** The exceptions the modelled statements raise. *)
Inductive exn : Type :=
| IntegrityError      (* sqlite3: a UNIQUE constraint failed *)
| OverflowError       (* sqlite3: Python int too large for an INTEGER column *)
| OperationalError    (* sqlite3: the database cannot be opened or a table is missing *)
| OSError.            (* the filesystem refuses an operation *)

(** A call either returns a value or raises. *)
Inductive outcome (A : Type) : Type :=
| Ok (a : A)
| Raise (e : exn).

Arguments Ok {A} a.
Arguments Raise {A} e.

Definition is_raise {A} (o : outcome A) : bool :=
  match o with Ok _ => false | Raise _ => true end.

(** [int(b)] and [bool(z)] *)
Definition int_of_bool (b : bool) : Z := if b then 1 else 0.
Definition bool_of_int (z : Z) : bool := bool_decide (z ≠ 0).

(** The values SQLite accepts for an [INTEGER] parameter. *)
Definition int64 (z : Z) : Prop := - 2 ^ 63 ≤ z < 2 ^ 63.

#[global] Instance int64_dec z : Decision (int64 z).
Proof. unfold int64. apply _. Defined.

(** [needle in haystack] on strings *)
Fixpoint str_in (needle haystack : string) : bool :=
  String.prefix needle haystack ||
  match haystack with
  | EmptyString => false
  | String _ rest => str_in needle rest
  end.

(** [s.endswith(suffix)] *)
Fixpoint endswith (s suffix : string) : bool :=
  bool_decide (s = suffix) ||
  match s with
  | EmptyString => false
  | String _ rest => endswith rest suffix
  end.

(** [lst[:n]] *)
Definition slice_to {A} (n : Z) (l : list A) : list A :=
  if decide (0 ≤ n) then take (Z.to_nat n) l
  else take (Z.to_nat (Z.of_nat (length l) + n)) l.

(** ** The data classes *)

Module FileMetadata.

Record t := mk {
  filename : string;
  size : Z;
  upload_time : string;
  last_modified : string;
  is_public : bool;
  content_type : string;
  created_by : option string;
  tags : list string;
  description : string;
  notes : string;
  original_url : option string;
  locked : bool
}.

(** [metadata.last_modified = value] *)
Definition set_last_modified (value : string) (m : t) : t :=
  mk (filename m) (size m) (upload_time m) value (is_public m)
     (content_type m) (created_by m) (tags m) (description m) (notes m)
     (original_url m) (locked m).

End FileMetadata.

Module CleanupConfig.

Record t := mk {
  enabled : bool;
  grace_period : Z;
  batch_size : Z;
  scan_interval : Z;
  max_orphans_per_run : Z;
  backup_before_cleanup : bool;
  exclude_patterns : list string
}.

(** [CleanupConfig()] *)
Definition default : t :=
  mk true 300 100 3600 1000 true
     [".tmp"; ".lock"; ".temp"; "~"; "metadata_backup_"; ".bak"].

End CleanupConfig.

(** One entry of [orphan_metadata]. *)
Record orphan := Orphan {
  o_id : Z;
  o_file_path : string;
  o_full_path : string
}.

(** The messages [check_consistency] collects, by the handler that made
    them. *)
Inductive check_error : Type :=
| ErrCheckFile (file_path : string) (e : exn)
| ErrCheckMetadata (file_path : string) (e : exn)
| ErrConsistency (e : exn).

(** The dictionary [check_consistency] returns. *)
Record consistency := Consistency {
  c_files_checked : Z;
  c_orphan_metadata : list orphan;
  c_missing_metadata : list string;
  c_errors : list check_error
}.

Record backup_info := BackupInfo {
  backup_file : string;
  backup_count : Z
}.

(** [CleanupResult.details]: each key of the dictionary is present or not. *)
Record details := Details {
  d_errors : option (list check_error);
  d_backup : option backup_info;
  d_dry_run : option bool;
  d_would_clean : option Z;
  d_orphan_files : option (list string);
  d_cleanup_error : option exn
}.

Module CleanupResult.

(** [duration] is the difference of the two clock readings and is left
    out. *)
Record t := mk {
  cleanup_type : string;
  files_checked : Z;
  orphans_found : Z;
  orphans_cleaned : Z;
  errors : Z;
  start_time : string;
  end_time : string;
  details : details
}.

End CleanupResult.

(** ** The database and the storage root *)

(** A row of [file_metadata]. *)
Record file_row := FileRow {
  fm_id : Z;
  fm_filename : string;
  fm_file_path : string;
  fm_size : Z;
  fm_upload_time : string;
  fm_last_modified : string;
  fm_is_public : Z;
  fm_content_type : string;
  fm_created_by : option string;
  fm_description : string;
  fm_notes : string;
  fm_original_url : option string;
  fm_locked : Z;
  fm_created_at : string;
  fm_updated_at : string
}.

(** A row of [file_tags]; its own [id] is never read and is left out. *)
Record tag_row := TagRow {
  ft_file_id : Z;
  ft_tag : string;
  ft_created_at : string
}.

(** A row of [directory_metadata]; [is_public] may be NULL. *)
Record dir_row := DirRow {
  dm_directory_path : string;
  dm_is_public : option Z;
  dm_locked : Z;
  dm_description : string;
  dm_created_by : option string;
  dm_created_at : string;
  dm_updated_at : string
}.

(** The database file. [file_metadata_seq] is the [sqlite_sequence] entry
    that [AUTOINCREMENT] keeps for [file_metadata]; [cleanup_log] is [None]
    until [_init_cleanup_tables] has created the table. Foreign keys are
    not enforced (the connections never set [PRAGMA foreign_keys]). *)
Record store := Store {
  file_metadata : list file_row;
  file_metadata_seq : Z;
  file_tags : list tag_row;
  directory_metadata : list dir_row;
  cleanup_log : option (list CleanupResult.t)
}.

(** An entry below the storage root. *)
Record fs_entry := FsEntry {
  e_path : string;
  e_is_file : bool
}.

(** What exists on disk, keyed by the path relative to the storage root as
    [pathlib] prints it; ["."] is the storage root itself. *)
Definition filesystem := list fs_entry.

(** [(storage_root / file_path).exists()] *)
Definition fs_exists (fs : filesystem) (file_path : string) : bool :=
  bool_decide (PosixPath.normal file_path ∈ e_path <$> fs).

(** The constraints of the schema, and what the two managers maintain on
    top of them: a tag row never refers to an id that has not been handed
    out yet. *)
Record wf_store (s : store) : Prop := WfStore {
  wf_seq : 0 ≤ file_metadata_seq s;
  wf_ids : ∀ r, r ∈ file_metadata s → 0 < fm_id r ≤ file_metadata_seq s;
  wf_ids_unique : NoDup (fm_id <$> file_metadata s);
  wf_paths_unique : NoDup (fm_file_path <$> file_metadata s);
  wf_tags_unique : NoDup ((λ r, (ft_file_id r, ft_tag r)) <$> file_tags s);
  wf_tags_ids : ∀ r, r ∈ file_tags s → ft_file_id r ≤ file_metadata_seq s;
  wf_dirs_unique : NoDup (dm_directory_path <$> directory_metadata s)
}.

#[global] Instance outcome_ret : MRet outcome := @Ok.
#[global] Instance outcome_bind : MBind outcome :=
  λ A B k o, match o with Ok a => k a | Raise e => Raise e end.

(** ** [SQLiteMetadataManager] *)

(** [if file_id:] holds for an id that is neither [None] nor [0]. *)
Definition truthy_id (file_id : option Z) : option Z :=
  match file_id with
  | Some z => if decide (z = 0) then None else Some z
  | None => None
  end.

(** [_get_file_id]: the id of the first row the [SELECT] yields. *)
Definition _get_file_id (s : store) (file_path : string) : option Z :=
  fm_id <$> head (filter (λ r, fm_file_path r = file_path) (file_metadata s)).

(** [INSERT INTO file_tags (file_id, tag, created_at)]: refused when the
    pair is already there ([UNIQUE(file_id, tag)]). *)
Definition insert_tag (file_id : Z) (created_at tag : string)
    (tbl : list tag_row) : outcome (list tag_row) :=
  if decide ((file_id, tag) ∈ (λ r, (ft_file_id r, ft_tag r)) <$> tbl)
  then Raise IntegrityError
  else Ok (tbl ++ [TagRow file_id tag created_at]).

(** [for tag in metadata.tags: INSERT ...] *)
Fixpoint insert_tags (file_id : Z) (created_at : string) (tags : list string)
    (tbl : list tag_row) : outcome (list tag_row) :=
  match tags with
  | [] => Ok tbl
  | tag :: rest =>
      tbl' ← insert_tag file_id created_at tag tbl;
      insert_tags file_id created_at rest tbl'
  end.

(** The [SET] clause of the [UPDATE]: every column but [id], [file_path]
    and [created_at]. *)
Definition updated_row (m : FileMetadata.t) (now : string) (r : file_row) : file_row :=
  FileRow (fm_id r) (FileMetadata.filename m) (fm_file_path r)
    (FileMetadata.size m) (FileMetadata.upload_time m)
    (FileMetadata.last_modified m) (int_of_bool (FileMetadata.is_public m))
    (FileMetadata.content_type m) (FileMetadata.created_by m)
    (FileMetadata.description m) (FileMetadata.notes m)
    (FileMetadata.original_url m) (int_of_bool (FileMetadata.locked m))
    (fm_created_at r) now.

(** The [VALUES] of the [INSERT]. *)
Definition inserted_row (file_id : Z) (file_path : string)
    (m : FileMetadata.t) (now : string) : file_row :=
  FileRow file_id (FileMetadata.filename m) file_path
    (FileMetadata.size m) (FileMetadata.upload_time m)
    (FileMetadata.last_modified m) (int_of_bool (FileMetadata.is_public m))
    (FileMetadata.content_type m) (FileMetadata.created_by m)
    (FileMetadata.description m) (FileMetadata.notes m)
    (FileMetadata.original_url m) (int_of_bool (FileMetadata.locked m))
    now now.

(** [cursor.lastrowid] of an insert into an [AUTOINCREMENT] table: one more
    than the largest id the table has ever held. *)
Definition next_rowid (s : store) : Z :=
  1 + foldr Z.max (file_metadata_seq s) (fm_id <$> file_metadata s).

(** [save_metadata]. [now] is the reading of [datetime.now()]. The first
    component is the caller's record after [metadata.last_modified = now];
    the second is the database after [commit], or the exception that left
    the transaction uncommitted (the database is then as it was). *)
Definition save_metadata (now : string) (s : store) (file_path : string)
    (metadata : FileMetadata.t) : FileMetadata.t * outcome store :=
  let metadata := FileMetadata.set_last_modified now metadata in
  (metadata,
   if decide (int64 (FileMetadata.size metadata)) then
     match truthy_id (_get_file_id s file_path) with
     | Some file_id =>
         let rows :=
           (λ r, if decide (fm_id r = file_id)
                 then updated_row metadata now r else r) <$> file_metadata s in
         let others := filter (λ r, ft_file_id r ≠ file_id) (file_tags s) in
         tbl ← insert_tags file_id now (FileMetadata.tags metadata) others;
         Ok (Store rows (file_metadata_seq s) tbl
               (directory_metadata s) (cleanup_log s))
     | None =>
         if decide (file_path ∈ fm_file_path <$> file_metadata s)
         then Raise IntegrityError
         else
           let file_id := next_rowid s in
           let rows := file_metadata s ++
                       [inserted_row file_id file_path metadata now] in
           tbl ← insert_tags file_id now (FileMetadata.tags metadata)
                   (file_tags s);
           Ok (Store rows file_id tbl (directory_metadata s) (cleanup_log s))
     end
   else Raise OverflowError).

(** [SELECT tag FROM file_tags WHERE file_id = ? ORDER BY tag] *)
Definition select_tags (s : store) (file_id : Z) : list string :=
  merge_sort String.le
    (ft_tag <$> filter (λ r, ft_file_id r = file_id) (file_tags s)).

(** [load_metadata] *)
Definition load_metadata (s : store) (file_path : string) : option FileMetadata.t :=
  row ← head (filter (λ r, fm_file_path r = file_path) (file_metadata s));
  let tags :=
    match truthy_id (_get_file_id s file_path) with
    | Some file_id => select_tags s file_id
    | None => []
    end in
  Some (FileMetadata.mk (fm_filename row) (fm_size row) (fm_upload_time row)
          (fm_last_modified row) (bool_of_int (fm_is_public row))
          (fm_content_type row) (fm_created_by row) tags
          (fm_description row) (fm_notes row) (fm_original_url row)
          (bool_of_int (fm_locked row))).

(** [SELECT is_public FROM directory_metadata WHERE directory_path = ?],
    then [row[0]] when [row and row[0] is not None]. *)
Definition select_is_public (s : store) (directory_path : string) : option Z :=
  row ← head (filter (λ r, dm_directory_path r = directory_path)
                (directory_metadata s));
  dm_is_public row.

(** [get_directory_permission], with the depth of the recursion bounded by
    [fuel]: [None] when the bound is reached, [Some r] when the call
    returns [r]. *)
Fixpoint get_directory_permission_fuel (fuel : nat) (s : store)
    (directory_path : string) : option (option bool) :=
  match fuel with
  | O => None
  | S fuel' =>
      if decide (directory_path = "" ∨ directory_path = ".") then Some None
      else
        match select_is_public s directory_path with
        | Some v => Some (Some (bool_of_int v))
        | None =>
            let parent_dir := PosixPath.path_parent directory_path in
            if decide (parent_dir ≠ directory_path)
            then get_directory_permission_fuel fuel' s parent_dir
            else Some None
        end
  end.

(** The depth a call on [directory_path] never exceeds (see
    [get_directory_permission_terminates]). *)
Definition depth_bound (directory_path : string) : nat :=
  S (String.length directory_path).

(** [get_directory_permission] *)
Definition get_directory_permission (s : store) (directory_path : string) : option bool :=
  default None
    (get_directory_permission_fuel (depth_bound directory_path) s directory_path).

(** [content_type or "application/octet-stream"] *)
Definition content_type_or_default (content_type : option string) : string :=
  match content_type with
  | Some EmptyString | None => "application/octet-stream"
  | Some c => c
  end.

(** [create_metadata]. [now_create] and [now_save] are the clock readings
    of [create_metadata] and of the [save_metadata] it calls; the record
    returned is the one [save_metadata] stamped. *)
Definition create_metadata (now_create now_save : string) (s : store)
    (file_path : string) (file_size : Z) (is_public : bool)
    (content_type created_by : option string) (tags : option (list string))
    (description notes : string) (locked : bool)
    : FileMetadata.t * outcome store :=
  let filename := PosixPath.basename file_path in
  let inherited_permission :=
    get_directory_permission s (PosixPath.dirname file_path) in
  let is_public :=
    match inherited_permission with
    | Some b => b
    | None => is_public
    end in
  let metadata :=
    FileMetadata.mk filename file_size now_create now_create is_public
      (content_type_or_default content_type) created_by (default [] tags)
      description notes None locked in
  save_metadata now_save s file_path metadata.

(** ** [MetadataCleanupManager] *)

(** The manager object: what [__init__] and [update_config] keep on it. *)
Record manager := Manager {
  storage_root : string;
  config : CleanupConfig.t;
  _running : bool
}.

(** Which of the operations on the database and the filesystem raise
    during one call. The code has a handler around each of them; which
    handler sees an exception is decided here, by the environment. *)
Record faults := Faults {
  (** [aiosqlite.connect] or the first statement on the connection *)
  db_unavailable : bool;
  (** [full_path.exists()] for the row with this [file_path] *)
  exists_raises : string → bool;
  (** [load_metadata] for this scanned file *)
  load_raises : string → bool;
  (** [open(backup_file, 'w')] or [json.dump] *)
  backup_write_fails : bool;
  (** [DELETE FROM file_tags WHERE file_id = ?] for this id *)
  delete_tags_raises : Z → bool;
  (** [DELETE FROM file_metadata WHERE id = ?] for this id *)
  delete_row_raises : Z → bool;
  (** [db.commit()] in [_delete_orphan_metadata] *)
  commit_raises : bool;
  (** the [INSERT INTO cleanup_log] *)
  log_insert_raises : bool
}.

(** The clock readings of one [cleanup_orphan_metadata] call; [t_backup]
    is the [strftime('%Y%m%d_%H%M%S')] stamp in the backup's name. *)
Record clock := Clock {
  t_start : string;
  t_backup : string;
  t_end : string
}.

(** [_should_exclude_file] *)
Fixpoint should_exclude (patterns : list string) (file_path : string) : bool :=
  match patterns with
  | [] => false
  | pattern :: rest =>
      if str_in pattern file_path then true else should_exclude rest file_path
  end.

Definition _should_exclude_file (self : manager) (file_path : string) : bool :=
  should_exclude (CleanupConfig.exclude_patterns (config self)) file_path.

(** An entry [storage_root.rglob("*")] yields: below the root, so neither
    the root itself nor a key that leads out of it. *)
Definition below_root (p : string) : Prop :=
  PosixPath.root (PosixPath.parse p) = "" ∧
  PosixPath.tail (PosixPath.parse p) ≠ [] ∧
  ".." ∉ PosixPath.tail (PosixPath.parse p).

#[global] Instance below_root_dec p : Decision (below_root p).
Proof. unfold below_root. apply _. Defined.

(** [_scan_filesystem], each item as [str(item.relative_to(storage_root))] *)
Definition _scan_filesystem (self : manager) (fs : filesystem) : list string :=
  e_path <$>
  filter (λ item,
            below_root (e_path item) ∧
            e_is_file item = true ∧
            endswith (PosixPath.name (e_path item)) ".meta" = false ∧
            PosixPath.name (e_path item) ≠ "metadata.db" ∧
            _should_exclude_file self (e_path item) = false) fs.

(** The body of the first loop of [check_consistency], for one row. *)
Definition check_row (self : manager) (flt : faults) (fs : filesystem)
    (result : consistency) (row : file_row) : consistency :=
  let file_id := fm_id row in
  let file_path := fm_file_path row in
  let full_path := PosixPath.joinpath (storage_root self) file_path in
  let checked := c_files_checked result + 1 in
  if exists_raises flt file_path then
    Consistency checked (c_orphan_metadata result) (c_missing_metadata result)
      (c_errors result ++ [ErrCheckFile file_path OSError])
  else if negb (fs_exists fs file_path) && negb (_should_exclude_file self file_path) then
    Consistency checked
      (c_orphan_metadata result ++ [Orphan file_id file_path full_path])
      (c_missing_metadata result) (c_errors result)
  else
    Consistency checked (c_orphan_metadata result) (c_missing_metadata result)
      (c_errors result).

(** The body of the second loop, for one file found on disk. *)
Definition check_file (flt : faults) (s : store)
    (result : consistency) (relative_path : string) : consistency :=
  if load_raises flt relative_path then
    Consistency (c_files_checked result) (c_orphan_metadata result)
      (c_missing_metadata result)
      (c_errors result ++ [ErrCheckMetadata relative_path OperationalError])
  else
    match load_metadata s relative_path with
    | None =>
        Consistency (c_files_checked result) (c_orphan_metadata result)
          (c_missing_metadata result ++ [relative_path]) (c_errors result)
    | Some _ => result
    end.

(** [check_consistency] *)
Definition check_consistency (self : manager) (flt : faults)
    (s : store) (fs : filesystem) : consistency :=
  let result := Consistency 0 [] [] [] in
  if db_unavailable flt then
    Consistency 0 [] [] [ErrConsistency OperationalError]
  else
    let result := foldl (check_row self flt fs) result (file_metadata s) in
    if fs_exists fs "." then
      foldl (check_file flt s) result (_scan_filesystem self fs)
    else result.

(** The name of the backup file, relative to the storage root. *)
Definition backup_name (clk : clock) : string :=
  "metadata_backup_" +:+ t_backup clk +:+ ".json".

(** What [_backup_orphan_metadata] serialises: the row of each orphan that
    still has one, with its tags. *)
Definition backup_data (s : store) (orphans : list orphan)
    : list (file_row * list string) :=
  omap (λ o,
          row ← head (filter (λ r, fm_id r = o_id o) (file_metadata s));
          Some (row, ft_tag <$> filter (λ r, ft_file_id r = o_id o) (file_tags s)))
       orphans.

(** [_backup_orphan_metadata]: the summary it returns and the storage root
    with the backup file in it. *)
Definition _backup_orphan_metadata (self : manager) (flt : faults) (clk : clock)
    (s : store) (fs : filesystem) (orphans : list orphan)
    : outcome (backup_info * filesystem) :=
  let backup_file := PosixPath.joinpath (storage_root self) (backup_name clk) in
  if db_unavailable flt then Raise OperationalError
  else
    let data := backup_data s orphans in
    if backup_write_fails flt then Raise OSError
    else
      let fs' := if fs_exists fs (backup_name clk) then fs
                 else fs ++ [FsEntry (PosixPath.normal (backup_name clk)) true] in
      Ok (BackupInfo backup_file (Z.of_nat (length data)), fs').

(** The body of the loop of [_delete_orphan_metadata]: the count and the
    two tables inside the open transaction. *)
Definition delete_orphan (flt : faults)
    (acc : Z * list tag_row * list file_row) (o : orphan)
    : Z * list tag_row * list file_row :=
  let '(cleaned_count, tags, rows) := acc in
  let file_id := o_id o in
  if delete_tags_raises flt file_id then acc
  else
    let tags := filter (λ r, ft_file_id r ≠ file_id) tags in
    if delete_row_raises flt file_id then (cleaned_count, tags, rows)
    else (cleaned_count + 1, tags, filter (λ r, fm_id r ≠ file_id) rows).

(** [_delete_orphan_metadata] *)
Definition _delete_orphan_metadata (flt : faults) (s : store)
    (orphans : list orphan) : outcome (Z * store) :=
  if db_unavailable flt then Raise OperationalError
  else
    let '(cleaned_count, tags, rows) :=
      foldl (delete_orphan flt) (0, file_tags s, file_metadata s) orphans in
    if commit_raises flt then Raise OperationalError
    else Ok (cleaned_count,
             Store rows (file_metadata_seq s) tags
               (directory_metadata s) (cleanup_log s)).

(** [_log_cleanup_result] *)
Definition _log_cleanup_result (flt : faults) (s : store)
    (result : CleanupResult.t) : outcome store :=
  if db_unavailable flt then Raise OperationalError
  else
    match cleanup_log s with
    | None => Raise OperationalError
    | Some log =>
        if log_insert_raises flt then Raise OperationalError
        else Ok (Store (file_metadata s) (file_metadata_seq s) (file_tags s)
                   (directory_metadata s) (Some (log ++ [result])))
    end.

(** The [try] block of [cleanup_orphan_metadata]: the counters and details
    as the block or its handler leaves them, and the database and storage
    root afterwards. *)
Definition cleanup_attempt (self : manager) (flt : faults) (clk : clock)
    (dry_run : bool) (max_orphans : Z) (s : store) (fs : filesystem)
    : (Z * Z * Z * Z * details) * (store * filesystem) :=
  let consistency_result := check_consistency self flt s fs in
  let files_checked := c_files_checked consistency_result in
  let orphans_found := Z.of_nat (length (c_orphan_metadata consistency_result)) in
  let errors := Z.of_nat (length (c_errors consistency_result)) in
  let d_errors :=
    match c_errors consistency_result with
    | [] => None
    | es => Some es
    end in
  let orphans_to_clean := slice_to max_orphans (c_orphan_metadata consistency_result) in
  let orphan_files := o_file_path <$> orphans_to_clean in
  match orphans_to_clean with
  | [] =>
      ((files_checked, orphans_found, 0, errors,
        Details d_errors None None None (Some orphan_files) None), (s, fs))
  | _ :: _ =>
      if dry_run then
        ((files_checked, orphans_found, 0, errors,
          Details d_errors None (Some true)
            (Some (Z.of_nat (length orphans_to_clean)))
            (Some orphan_files) None), (s, fs))
      else
        let backup :=
          if CleanupConfig.backup_before_cleanup (config self) then
            '(info, fs') ← _backup_orphan_metadata self flt clk s fs orphans_to_clean;
            Ok (Some info, fs')
          else Ok (None, fs) in
        match backup with
        | Raise e =>
            ((files_checked, orphans_found, 0, errors + 1,
              Details d_errors None None None None (Some e)), (s, fs))
        | Ok (info, fs') =>
            match _delete_orphan_metadata flt s orphans_to_clean with
            | Raise e =>
                ((files_checked, orphans_found, 0, errors + 1,
                  Details d_errors info None None None (Some e)), (s, fs'))
            | Ok (cleaned_count, s') =>
                ((files_checked, orphans_found, cleaned_count, errors,
                  Details d_errors info None None (Some orphan_files) None),
                 (s', fs'))
            end
        end
  end.

(** [cleanup_orphan_metadata]: what the call returns or raises, and the
    database and storage root it leaves. *)
Definition cleanup_orphan_metadata (self : manager) (flt : faults) (clk : clock)
    (dry_run : bool) (max_orphans : option Z) (w : store * filesystem)
    : outcome CleanupResult.t * (store * filesystem) :=
  let cleanup_type := if negb (_running self) then "manual" else "scheduled" in
  let max_orphans :=
    default (CleanupConfig.max_orphans_per_run (config self)) max_orphans in
  let '((files_checked, orphans_found, orphans_cleaned, errors, details), (s, fs)) :=
    cleanup_attempt self flt clk dry_run max_orphans (fst w) (snd w) in
  let result :=
    CleanupResult.mk cleanup_type files_checked orphans_found orphans_cleaned
      errors (t_start clk) (t_end clk) details in
  if dry_run then (Ok result, (s, fs))
  else
    match _log_cleanup_result flt s result with
    | Ok s' => (Ok result, (s', fs))
    | Raise e => (Raise e, (s, fs))
    end.

(** ** Notions the statements below are phrased in *)

(** The directories [get_directory_permission] looks up, in order:
    [directory_path], then [str(Path(...).parent)] of each, stopping
    before the root ([""] or ["."]) and at a path that is its own parent. *)
Fixpoint lookup_chain_fuel (fuel : nat) (directory_path : string) : list string :=
  match fuel with
  | O => []
  | S fuel' =>
      if decide (directory_path = "" ∨ directory_path = ".") then []
      else
        directory_path ::
        (let parent_dir := PosixPath.path_parent directory_path in
         if decide (parent_dir ≠ directory_path)
         then lookup_chain_fuel fuel' parent_dir else [])
  end.

Definition lookup_chain (directory_path : string) : list string :=
  lookup_chain_fuel (depth_bound directory_path) directory_path.

(** A path component: not empty, not ["."], and without a slash. *)
Definition component (x : string) : Prop :=
  PosixPath.kept x ∧ PosixPath.split x = [x].

(** For the components [xs] of a relative path, last one first: the path,
    then the path of each shorter prefix, down to the first component. *)
Fixpoint ancestor_paths_rev (rev_xs : list string) : list string :=
  match rev_xs with
  | [] => []
  | x :: rev_rest =>
      PosixPath.join (reverse (x :: rev_rest)) :: ancestor_paths_rev rev_rest
  end.

Definition ancestor_paths (xs : list string) : list string :=
  ancestor_paths_rev (reverse xs).

(** A directory has no setting of its own: every row for it has a NULL
    [is_public] (or there is none). *)
Definition unset (s : store) (directory_path : string) : Prop :=
  ∀ r, r ∈ directory_metadata s →
       dm_directory_path r = directory_path → dm_is_public r = None.

(** A directory has the setting [v] recorded. *)
Definition set_to (s : store) (directory_path : string) (v : Z) : Prop :=
  ∃ r, r ∈ directory_metadata s ∧
       dm_directory_path r = directory_path ∧ dm_is_public r = Some v.

(** The first setting found along a list of directories. *)
Fixpoint first_setting (s : store) (dirs : list string) : option Z :=
  match dirs with
  | [] => None
  | d :: rest =>
      match select_is_public s d with
      | Some v => Some v
      | None => first_setting s rest
      end
  end.

(** The record [load_metadata] builds from the row and tags that
    [save_metadata now _ _ m] wrote. *)
Definition stored (now : string) (m : FileMetadata.t) : FileMetadata.t :=
  FileMetadata.mk (FileMetadata.filename m) (FileMetadata.size m)
    (FileMetadata.upload_time m) now (FileMetadata.is_public m)
    (FileMetadata.content_type m) (FileMetadata.created_by m)
    (merge_sort String.le (FileMetadata.tags m))
    (FileMetadata.description m) (FileMetadata.notes m)
    (FileMetadata.original_url m) (FileMetadata.locked m).

(** The rows [save_metadata] inserts for the tags of one file. *)
Definition tag_rows (file_id : Z) (created_at : string) (tags : list string) : list tag_row :=
  (λ t, TagRow file_id t created_at) <$> tags.

(** The measure that decreases along the recursion. *)
Definition path_measure (p : string) : nat :=
  if decide (p = ".") then 0%nat else String.length p.

(** The row is one the first loop of [check_consistency] reports. *)
Definition is_orphan (self : manager) (flt : faults) (fs : filesystem)
    (row : file_row) : Prop :=
  exists_raises flt (fm_file_path row) = false ∧
  fs_exists fs (fm_file_path row) = false ∧
  _should_exclude_file self (fm_file_path row) = false.

#[global] Instance is_orphan_dec self flt fs row : Decision (is_orphan self flt fs row).
Proof. unfold is_orphan. apply _. Defined.

(** The entry reported for a row. *)
Definition orphan_of (self : manager) (row : file_row) : orphan :=
  Orphan (fm_id row) (fm_file_path row)
    (PosixPath.joinpath (storage_root self) (fm_file_path row)).

(** The database after the rows and tags of [ids] are deleted. *)
Definition without (ids : list Z) (s : store) : store :=
  Store (filter (λ r, fm_id r ∉ ids) (file_metadata s))
    (file_metadata_seq s)
    (filter (λ r, ft_file_id r ∉ ids) (file_tags s))
    (directory_metadata s) (cleanup_log s).

(** The database after [result] is appended to [cleanup_log]. *)
Definition logged (result : CleanupResult.t) (s : store) : store :=
  Store (file_metadata s) (file_metadata_seq s) (file_tags s)
    (directory_metadata s) ((λ log, log ++ [result]) <$> cleanup_log s).

(** The writes of a clean-up run go through: the database opens, and
    neither the backup file, the deletions, the commit nor the log entry
    raise. *)
Definition writes_succeed (flt : faults) : Prop :=
  db_unavailable flt = false ∧
  backup_write_fails flt = false ∧
  (∀ i, delete_tags_raises flt i = false) ∧
  (∀ i, delete_row_raises flt i = false) ∧
  commit_raises flt = false ∧
  log_insert_raises flt = false.

(** Writing the log entry fails: in the environment, or because the table
    was never created. *)
Definition log_write_fails (flt : faults) (s : store) : bool :=
  db_unavailable flt || bool_decide (cleanup_log s = None) || log_insert_raises flt.

(** ** Sample states *)

(** No operation raises. *)
Definition no_faults : faults :=
  Faults false (λ _, false) (λ _, false) false (λ _, false) (λ _, false) false false.

(** The database cannot be opened; nothing else goes wrong. *)
Definition db_down : faults :=
  Faults true (λ _, false) (λ _, false) false (λ _, false) (λ _, false) false false.

(** The backup file cannot be written; nothing else goes wrong. *)
Definition disk_full : faults :=
  Faults false (λ _, false) (λ _, false) true (λ _, false) (λ _, false) false false.

(** The database after [_init_database] and [initialize]: the tables
    exist and are empty. *)
Definition empty_store : store := Store [] 0 [] [] (Some []).

Definition sample_record : FileMetadata.t :=
  FileMetadata.mk "report.txt" 2048 "2024-05-01T09:30:00" "2024-05-01T09:30:00"
    false "text/plain" None ["draft"; "2024"; "audit"] "" "" None false.

(** The same record with its tags in another order. *)
Definition sample_record_reordered : FileMetadata.t :=
  FileMetadata.mk "report.txt" 2048 "2024-05-01T09:30:00" "2024-05-01T09:30:00"
    false "text/plain" None ["audit"; "draft"; "2024"] "" "" None false.

(** A record whose [last_modified] lies after the clock reading used
    below. *)
Definition future_record : FileMetadata.t :=
  FileMetadata.mk "report.txt" 2048 "2024-05-01T09:30:00" "2031-01-01T00:00:00"
    false "text/plain" None [] "" "" None false.

(** A record that lists one tag twice. *)
Definition repeated_tag_record : FileMetadata.t :=
  FileMetadata.mk "report.txt" 2048 "2024-05-01T09:30:00" "2024-05-01T09:30:00"
    false "text/plain" None ["draft"; "draft"] "" "" None false.

(** A database in which [docs] is public, [docs/private] is not, and
    [docs/reports] has a row that sets nothing. *)
Definition sample_dirs : store :=
  Store [] 0 []
    [DirRow "docs" (Some 1) 0 "" None "2024-01-01T00:00:00" "2024-01-01T00:00:00";
     DirRow "docs/private" (Some 0) 0 "" None "2024-01-01T00:00:00" "2024-01-01T00:00:00";
     DirRow "docs/reports" None 1 "" None "2024-01-01T00:00:00" "2024-01-01T00:00:00"]
    (Some []).

(** The database after [_init_database] alone: [initialize] has not run,
    so [cleanup_log] does not exist. *)
Definition uninitialised_store : store := Store [] 0 [] [] None.

(** A manager with the default configuration, not running on schedule. *)
Definition sample_manager : manager :=
  Manager "storage/files" CleanupConfig.default false.

Definition sample_clock : clock :=
  Clock "2024-06-01T12:00:00" "20240601_120000" "2024-06-01T12:00:02".

(** A storage root that holds the database file and one upload. *)
Definition sample_fs : filesystem :=
  [FsEntry "." false; FsEntry "metadata.db" true; FsEntry "kept.txt" true].

(** A row as [create_metadata] writes it for a private file. *)
Definition sample_row (file_id : Z) (file_path : string) : file_row :=
  FileRow file_id (PosixPath.basename file_path) file_path 1024
    "2024-05-01T09:30:00" "2024-05-01T09:30:00" 0 "application/octet-stream"
    None "" "" None 0 "2024-05-01T09:30:00" "2024-05-01T09:30:00".

(** Four rows over [sample_fs]: one whose file is there, two whose file is
    gone, and one whose file is gone but whose path is excluded. *)
Definition sample_store : store :=
  Store [sample_row 1 "kept.txt"; sample_row 2 "gone.txt";
         sample_row 3 "cache/upload.tmp"; sample_row 4 "old/gone.txt"]
    4 [TagRow 2 "draft" "2024-05-01T09:30:00"] [] (Some []).

(** One row whose file is there and ten whose files are gone. *)
Definition ten_orphans_store : store :=
  Store (sample_row 1 "kept.txt" ::
         zip_with sample_row [2; 3; 4; 5; 6; 7; 8; 9; 10; 11]
           ["lost/a.txt"; "lost/b.txt"; "lost/c.txt"; "lost/d.txt"; "lost/e.txt";
            "lost/f.txt"; "lost/g.txt"; "lost/h.txt"; "lost/i.txt"; "lost/j.txt"])
    11 [] [] (Some []).

(** The clock of a second run, two hours later. *)
Definition later_clock : clock :=
  Clock "2024-06-01T14:00:00" "20240601_140000" "2024-06-01T14:00:01".

(** The [DELETE] on [file_metadata] fails for the row with id 2; nothing
    else goes wrong. *)
Definition row_two_locked : faults :=
  Faults false (λ _, false) (λ _, false) false (λ _, false)
    (λ i, bool_decide (i = 2)) false false.

(** ** [SQLiteMetadataManager]: updating, deleting and moving a record *)

(** One keyword argument of [update_metadata]: a field of [FileMetadata]
    with a value of the field's type, or a keyword that names no field
    (the loop skips it, or sets an attribute that nothing reads). *)
Inductive update : Type :=
| SetFilename (value : string)
| SetSize (value : Z)
| SetUploadTime (value : string)
| SetLastModified (value : string)
| SetIsPublic (value : bool)
| SetContentType (value : string)
| SetCreatedBy (value : option string)
| SetTags (value : list string)
| SetDescription (value : string)
| SetNotes (value : string)
| SetOriginalUrl (value : option string)
| SetLocked (value : bool)
| SetOther (key : string).

(** [setattr(metadata, key, value)] when [hasattr(metadata, key)] *)
Definition apply_update (m : FileMetadata.t) (u : update) : FileMetadata.t :=
  let 'FileMetadata.mk filename size upload_time last_modified is_public
         content_type created_by tags description notes original_url locked := m in
  match u with
  | SetFilename v =>
      FileMetadata.mk v size upload_time last_modified is_public
        content_type created_by tags description notes original_url locked
  | SetSize v =>
      FileMetadata.mk filename v upload_time last_modified is_public
        content_type created_by tags description notes original_url locked
  | SetUploadTime v =>
      FileMetadata.mk filename size v last_modified is_public
        content_type created_by tags description notes original_url locked
  | SetLastModified v =>
      FileMetadata.mk filename size upload_time v is_public
        content_type created_by tags description notes original_url locked
  | SetIsPublic v =>
      FileMetadata.mk filename size upload_time last_modified v
        content_type created_by tags description notes original_url locked
  | SetContentType v =>
      FileMetadata.mk filename size upload_time last_modified is_public
        v created_by tags description notes original_url locked
  | SetCreatedBy v =>
      FileMetadata.mk filename size upload_time last_modified is_public
        content_type v tags description notes original_url locked
  | SetTags v =>
      FileMetadata.mk filename size upload_time last_modified is_public
        content_type created_by v description notes original_url locked
  | SetDescription v =>
      FileMetadata.mk filename size upload_time last_modified is_public
        content_type created_by tags v notes original_url locked
  | SetNotes v =>
      FileMetadata.mk filename size upload_time last_modified is_public
        content_type created_by tags description v original_url locked
  | SetOriginalUrl v =>
      FileMetadata.mk filename size upload_time last_modified is_public
        content_type created_by tags description notes v locked
  | SetLocked v =>
      FileMetadata.mk filename size upload_time last_modified is_public
        content_type created_by tags description notes original_url v
  | SetOther _ => m
  end.

(** [update_metadata]: [None] and the database as it was when the path has
    no record; otherwise the record after the updates, as [save_metadata]
    stamped it, and the database after the save. An exception of
    [save_metadata] is not handled. *)
Definition update_metadata (now : string) (s : store) (file_path : string)
    (updates : list update) : outcome (option FileMetadata.t * store) :=
  match load_metadata s file_path with
  | None => Ok (None, s)
  | Some metadata =>
      let metadata := foldl apply_update metadata updates in
      let '(metadata, saved) := save_metadata now s file_path metadata in
      s' ← saved;
      Ok (Some metadata, s')
  end.

(** [x is not None] *)
Definition is_not_None {A} (x : option A) : bool :=
  match x with Some _ => true | None => false end.

(** [set_file_permission] *)
Definition set_file_permission (now : string) (s : store) (file_path : string)
    (is_public : bool) : outcome (bool * store) :=
  '(metadata, s') ← update_metadata now s file_path [SetIsPublic is_public];
  Ok (is_not_None metadata, s').

(** [get_file_permission] *)
Definition get_file_permission (s : store) (file_path : string) : option bool :=
  FileMetadata.is_public <$> load_metadata s file_path.

(** [set_file_lock] *)
Definition set_file_lock (now : string) (s : store) (file_path : string)
    (locked : bool) : outcome (bool * store) :=
  '(metadata, s') ← update_metadata now s file_path [SetLocked locked];
  Ok (is_not_None metadata, s').

(** [get_file_lock] *)
Definition get_file_lock (s : store) (file_path : string) : option bool :=
  FileMetadata.locked <$> load_metadata s file_path.

(** [is_file_locked] *)
Definition is_file_locked (s : store) (file_path : string) : bool :=
  default false (FileMetadata.locked <$> load_metadata s file_path).

(** [delete_metadata]. [raises] says whether opening the database, the
    [DELETE] or the [commit] raises; the handler then returns [False] and
    nothing was committed. The rows of [file_tags] stay: the statement
    names [file_metadata] only, and the cascade of the schema needs foreign
    keys to be enforced. *)
Definition delete_metadata (raises : bool) (s : store) (file_path : string)
    : bool * store :=
  if raises then (false, s)
  else
    (true,
     Store (filter (λ r, fm_file_path r ≠ file_path) (file_metadata s))
       (file_metadata_seq s) (file_tags s) (directory_metadata s) (cleanup_log s)).

(** The [SET] clause of the [UPDATE] of [move_metadata]. *)
Definition moved_row (new_path : string) (now : string) (r : file_row) : file_row :=
  FileRow (fm_id r) (PosixPath.basename new_path) new_path
    (fm_size r) (fm_upload_time r) (fm_last_modified r) (fm_is_public r)
    (fm_content_type r) (fm_created_by r) (fm_description r) (fm_notes r)
    (fm_original_url r) (fm_locked r) (fm_created_at r) now.

(** [move_metadata]. [raises] is as for [delete_metadata]. Under
    [UNIQUE(file_path)] at most one row matches [old_path]; the [UPDATE]
    is refused when it would give the row a path that another row has,
    and the handler turns the [IntegrityError] into [False]. With no row
    to update, [rowcount] is 0. *)
Definition move_metadata (raises : bool) (now : string) (s : store)
    (old_path new_path : string) : bool * store :=
  if raises then (false, s)
  else
    match filter (λ r, fm_file_path r = old_path) (file_metadata s) with
    | [] => (false, s)
    | _ :: _ =>
        if decide (new_path ≠ old_path ∧ new_path ∈ fm_file_path <$> file_metadata s)
        then (false, s)
        else
          (true,
           Store ((λ r, if decide (fm_file_path r = old_path)
                        then moved_row new_path now r else r) <$> file_metadata s)
             (file_metadata_seq s) (file_tags s) (directory_metadata s)
             (cleanup_log s))
    end.

(** Every [size] in [file_metadata] is a value an [INTEGER] column holds. *)
Definition sizes_int64 (s : store) : Prop :=
  ∀ r, r ∈ file_metadata s → int64 (fm_size r).

(** ** [SQLiteMetadataManager]: directory settings *)

#[global] Instance fs_entry_eq_dec : EqDecision fs_entry.
Proof. solve_decision. Defined.

(** [(storage_root / directory_path).is_dir()]. An entry that is not a
    regular file is a directory: other kinds of entry are not modelled. *)
Definition fs_is_dir (fs : filesystem) (directory_path : string) : bool :=
  bool_decide (FsEntry (PosixPath.normal directory_path) false ∈ fs).

(** The [SET] clause of the [UPDATE] of [set_directory_permission]. *)
Definition with_is_public (is_public : bool) (now : string) (r : dir_row) : dir_row :=
  DirRow (dm_directory_path r) (Some (int_of_bool is_public)) (dm_locked r)
    (dm_description r) (dm_created_by r) (dm_created_at r) now.

(** The [SET] clause of the [UPDATE] of [set_directory_lock]. *)
Definition with_locked (locked : bool) (now : string) (r : dir_row) : dir_row :=
  DirRow (dm_directory_path r) (dm_is_public r) (int_of_bool locked)
    (dm_description r) (dm_created_by r) (dm_created_at r) now.

(** [set_directory_permission(directory_path, is_public,
    apply_to_children=False)]. [raises] says whether an operation inside
    the [try] raises; all of them come before the [commit] returns, so the
    handler returns [False] with nothing written. The [INSERT] names
    [directory_path], [is_public] and the two stamps: [locked] gets its
    default 0, [description] its default, [created_by] is NULL. *)
Definition set_directory_permission_flat (raises : bool) (now : string) (s : store)
    (fs : filesystem) (directory_path : string) (is_public : bool) : bool * store :=
  if decide (directory_path = "" ∨ directory_path = ".") then (false, s)
  else if raises then (false, s)
  else if negb (fs_exists fs directory_path) || negb (fs_is_dir fs directory_path)
  then (false, s)
  else
    let rows :=
      match filter (λ r, dm_directory_path r = directory_path) (directory_metadata s) with
      | _ :: _ =>
          (λ r, if decide (dm_directory_path r = directory_path)
                then with_is_public is_public now r else r) <$> directory_metadata s
      | [] =>
          directory_metadata s ++
          [DirRow directory_path (Some (int_of_bool is_public)) 0 "" None now now]
      end in
    (true,
     Store (file_metadata s) (file_metadata_seq s) (file_tags s) rows (cleanup_log s)).

(** [set_directory_lock(directory_path, locked, apply_to_children=False)].
    The [INSERT] names [directory_path], [locked] and the two stamps:
    [is_public] is NULL. *)
Definition set_directory_lock_flat (raises : bool) (now : string) (s : store)
    (fs : filesystem) (directory_path : string) (locked : bool) : bool * store :=
  if decide (directory_path = "" ∨ directory_path = ".") then (false, s)
  else if raises then (false, s)
  else if negb (fs_exists fs directory_path) || negb (fs_is_dir fs directory_path)
  then (false, s)
  else
    let rows :=
      match filter (λ r, dm_directory_path r = directory_path) (directory_metadata s) with
      | _ :: _ =>
          (λ r, if decide (dm_directory_path r = directory_path)
                then with_locked locked now r else r) <$> directory_metadata s
      | [] =>
          directory_metadata s ++
          [DirRow directory_path None (int_of_bool locked) "" None now now]
      end in
    (true,
     Store (file_metadata s) (file_metadata_seq s) (file_tags s) rows (cleanup_log s)).

(** [get_directory_lock]: the setting of the directory itself; no parent
    is looked up. *)
Definition get_directory_lock (s : store) (directory_path : string) : option bool :=
  if decide (directory_path = "" ∨ directory_path = ".") then None
  else
    match head (filter (λ r, dm_directory_path r = directory_path)
                  (directory_metadata s)) with
    | Some row => Some (bool_of_int (dm_locked row))
    | None => Some false
    end.

(** [is_directory_locked] *)
Definition is_directory_locked (s : store) (directory_path : string) : bool :=
  default false (get_directory_lock s directory_path).

(** [item.name in ['.DS_Store', 'metadata.db'] or
    item.name.endswith('.meta')] *)
Definition skipped_name (name : string) : bool :=
  bool_decide (name ∈ [".DS_Store"; "metadata.db"]) || endswith name ".meta".

(** An entry that [(storage_root / directory_path).rglob("*")] yields, by
    its path relative to the storage root: the components of
    [directory_path], then at least one name. For an absolute
    [directory_path] nothing is yielded: the walk then leaves the storage
    root, and [relative_to] raises for every item (for a storage root that
    is given as a relative path, as the default is). *)
Definition strictly_below (directory_path p : string) : Prop :=
  PosixPath.root (PosixPath.parse directory_path) = "" ∧
  PosixPath.root (PosixPath.parse p) = "" ∧
  PosixPath.tail (PosixPath.parse directory_path) `prefix_of`
    PosixPath.tail (PosixPath.parse p) ∧
  let rest := drop (length (PosixPath.tail (PosixPath.parse directory_path)))
                (PosixPath.tail (PosixPath.parse p)) in
  rest ≠ [] ∧ ".." ∉ rest.

#[global] Instance strictly_below_dec d p : Decision (strictly_below d p).
Proof. unfold strictly_below. apply _. Defined.

(** The items of the walk, each as [str(item.relative_to(storage_root))]. *)
Definition rglob (fs : filesystem) (directory_path : string) : list fs_entry :=
  filter (λ item, strictly_below directory_path (e_path item)) fs.

(** What can go wrong while a walk is at an item, by the path of the item
    relative to the storage root: [walk_raises] says that the iteration
    raises instead of yielding the item ([rglob] cannot read a directory),
    [call_raises] that an operation of the call made for the item raises
    (the database cannot be opened, a statement or the [commit] fails).
    Such an operation comes before the [commit] of the call returns, so
    the call writes nothing. *)
Record walk_faults := WalkFaults {
  walk_raises : string → bool;
  call_raises : string → bool
}.

(** Nothing goes wrong. *)
Definition no_walk_faults : walk_faults := WalkFaults (λ _, false) (λ _, false).

(** The body of the loop of [_apply_permission_to_children], for one item.
    [now_at] gives the clock reading of the call made for an item. The
    flag says that an exception has reached the handler around the loop,
    which ends the walk: one from the iteration, or one that
    [set_file_permission] lets through. What the calls before it
    committed stays. An exception inside the nested
    [set_directory_permission] is handled there: that call returns
    [False], which the loop ignores, and the walk goes on. *)
Definition permission_child (now_at : string → string) (wflt : walk_faults)
    (fs : filesystem) (is_public : bool) (acc : store * bool) (item : fs_entry)
    : store * bool :=
  let '(s, stopped) := acc in
  if stopped then acc
  else if walk_raises wflt (e_path item) then (s, true)
  else if skipped_name (PosixPath.name (e_path item)) then acc
  else if e_is_file item then
    if call_raises wflt (e_path item) then (s, true)
    else
      match set_file_permission (now_at (e_path item)) s (e_path item) is_public with
      | Ok (_, s') => (s', false)
      | Raise _ => (s, true)
      end
  else
    (snd (set_directory_permission_flat (call_raises wflt (e_path item))
            (now_at (e_path item)) s fs (e_path item) is_public), false).

(** [_apply_permission_to_children]: it returns nothing, whatever
    happened. *)
Definition _apply_permission_to_children (now_at : string → string)
    (wflt : walk_faults) (s : store) (fs : filesystem) (directory_path : string)
    (is_public : bool) : store :=
  fst (foldl (permission_child now_at wflt fs is_public) (s, false)
         (rglob fs directory_path)).

(** [set_directory_permission]. [raises] is about the operations of the
    call itself, [wflt] about the walk. *)
Definition set_directory_permission (raises : bool) (now : string)
    (now_at : string → string) (wflt : walk_faults) (s : store) (fs : filesystem)
    (directory_path : string) (is_public apply_to_children : bool) : bool * store :=
  let '(done, s') :=
    set_directory_permission_flat raises now s fs directory_path is_public in
  if done && apply_to_children
  then (true, _apply_permission_to_children now_at wflt s' fs directory_path is_public)
  else (done, s').

(** The body of the loop of [_apply_lock_to_children], in the same way. *)
Definition lock_child (now_at : string → string) (wflt : walk_faults)
    (fs : filesystem) (locked : bool) (acc : store * bool) (item : fs_entry)
    : store * bool :=
  let '(s, stopped) := acc in
  if stopped then acc
  else if walk_raises wflt (e_path item) then (s, true)
  else if skipped_name (PosixPath.name (e_path item)) then acc
  else if e_is_file item then
    if call_raises wflt (e_path item) then (s, true)
    else
      match set_file_lock (now_at (e_path item)) s (e_path item) locked with
      | Ok (_, s') => (s', false)
      | Raise _ => (s, true)
      end
  else
    (snd (set_directory_lock_flat (call_raises wflt (e_path item))
            (now_at (e_path item)) s fs (e_path item) locked), false).

(** [_apply_lock_to_children] *)
Definition _apply_lock_to_children (now_at : string → string)
    (wflt : walk_faults) (s : store) (fs : filesystem) (directory_path : string)
    (locked : bool) : store :=
  fst (foldl (lock_child now_at wflt fs locked) (s, false) (rglob fs directory_path)).

(** [set_directory_lock] *)
Definition set_directory_lock (raises : bool) (now : string)
    (now_at : string → string) (wflt : walk_faults) (s : store) (fs : filesystem)
    (directory_path : string) (locked apply_to_children : bool) : bool * store :=
  let '(done, s') :=
    set_directory_lock_flat raises now s fs directory_path locked in
  if done && apply_to_children
  then (true, _apply_lock_to_children now_at wflt s' fs directory_path locked)
  else (done, s').

(** The walk ends at the item: the iteration raises, or the call made for
    a file does. *)
Definition walk_stops (wflt : walk_faults) (item : fs_entry) : bool :=
  walk_raises wflt (e_path item) ||
  (negb (skipped_name (PosixPath.name (e_path item))) && e_is_file item &&
   call_raises wflt (e_path item)).

(** The walk makes a call for the item, and the call goes through. *)
Definition call_goes_through (wflt : walk_faults) (item : fs_entry) : bool :=
  negb (walk_raises wflt (e_path item)) &&
  negb (skipped_name (PosixPath.name (e_path item))) &&
  negb (call_raises wflt (e_path item)).

(** The items of a walk for which a call went through, in order: those
    before anything stops the walk. *)
Fixpoint walked (wflt : walk_faults) (items : list fs_entry) : list fs_entry :=
  match items with
  | [] => []
  | item :: rest =>
      if walk_stops wflt item then []
      else if call_goes_through wflt item then item :: walked wflt rest
      else walked wflt rest
  end.

(** The keys of the storage root are paths as [pathlib] prints them. *)
Definition normal_keys (fs : filesystem) : Prop :=
  ∀ item, item ∈ fs → PosixPath.normal (e_path item) = e_path item.

(** ** More of [MetadataCleanupManager] *)

(** [quick_check]. [check_consistency] handles every exception itself, so
    the handler of [quick_check] is never entered; [batch_size] is not
    used by [check_consistency]. *)
Definition quick_check (self : manager) (flt : faults) (s : store)
    (fs : filesystem) : bool :=
  bool_decide (0 < length (c_orphan_metadata (check_consistency self flt s fs)))%nat.

(** ** [SQLiteMetadataManager]: listing and searching *)

(** What [item.stat()] gives: the size, and the two time stamps as
    [datetime.fromtimestamp(...).isoformat()] prints them. *)
Record stat_result := Stat {
  st_size : Z;
  st_mtime : string;
  st_ctime : string
}.

(** What a listing reads from outside the database, by the path of the
    item relative to the storage root: the result of [item.stat()]
    ([None] when it raises [OSError]), and the clock readings of the
    [create_metadata] and the [save_metadata] made for the item. The
    storage root does not change during the call. *)
Record listing_env := ListingEnv {
  env_stat : string → option stat_result;
  env_now_create : string → string;
  env_now_save : string → string
}.

(** One entry of the list that [list_files_with_metadata] returns.
    [locked] is what [get_directory_lock] returned for a directory;
    the entry of a directory has no [download_url]. *)
Record file_info := FileInfo {
  fi_filename : string;
  fi_display_name : string;
  fi_type : string;
  fi_size : Z;
  fi_modified_time : string;
  fi_upload_time : string;
  fi_is_public : bool;
  fi_content_type : string;
  fi_tags : list string;
  fi_description : string;
  fi_notes : string;
  fi_created_by : option string;
  fi_locked : option bool;
  fi_download_url : option string
}.

(** An entry that [(storage_root / directory).iterdir()] yields: the
    components of [directory] and one name. *)
Definition child_of (directory p : string) : Prop :=
  PosixPath.root (PosixPath.parse p) = PosixPath.root (PosixPath.parse directory) ∧
  PosixPath.tail (PosixPath.parse directory) `prefix_of`
    PosixPath.tail (PosixPath.parse p) ∧
  length (PosixPath.tail (PosixPath.parse p)) =
    S (length (PosixPath.tail (PosixPath.parse directory))) ∧
  PosixPath.name p ≠ "..".

#[global] Instance child_of_dec d p : Decision (child_of d p).
Proof. unfold child_of. apply _. Defined.

Definition iterdir (fs : filesystem) (directory : string) : list fs_entry :=
  filter (λ item, child_of directory (e_path item)) fs.

(** [str(relative_path)] for an item of the listing: the path relative to
    the storage root, or the bare name when [relative_to] raises, as it
    does for every item of an absolute [directory] (for a storage root
    that is given as a relative path). *)
Definition relative_path_of (directory : string) (item : fs_entry) : string :=
  if decide (PosixPath.root (PosixPath.parse directory) = "")
  then e_path item else PosixPath.name (e_path item).

(** The two filters of the listing, and the entry for a file. [None] is
    [continue]. *)
Definition file_entry (env : listing_env) (filter_public : option bool)
    (user_can_access_private : bool) (item : fs_entry) (relative_path : string)
    (metadata : FileMetadata.t) : option file_info :=
  if match filter_public with
     | Some b => negb (bool_decide (FileMetadata.is_public metadata = b))
     | None => false
     end then None
  else if negb (FileMetadata.is_public metadata) && negb user_can_access_private then None
  else
    match env_stat env (e_path item) with
    | None => None
    | Some st =>
        Some (FileInfo relative_path (PosixPath.name (e_path item)) "file"
                (st_size st) (st_mtime st) (FileMetadata.upload_time metadata)
                (FileMetadata.is_public metadata) (FileMetadata.content_type metadata)
                (FileMetadata.tags metadata) (FileMetadata.description metadata)
                (FileMetadata.notes metadata) (FileMetadata.created_by metadata)
                (Some (FileMetadata.locked metadata))
                (Some ("/" +:+ relative_path)))
    end.

(** The branch of the loop for a file: the entry, if one is appended, and
    the database, in which a record was created when there was none. An
    exception of [create_metadata] that is not an [OSError] ends the
    call. *)
Definition list_file (env : listing_env) (directory : string)
    (filter_public : option bool) (user_can_access_private : bool)
    (s : store) (item : fs_entry) : outcome (option file_info) * store :=
  let relative_path := relative_path_of directory item in
  match load_metadata s relative_path with
  | Some metadata =>
      (Ok (file_entry env filter_public user_can_access_private item
             relative_path metadata), s)
  | None =>
      match env_stat env (e_path item) with
      | None => (Ok None, s)
      | Some st =>
          match create_metadata (env_now_create env relative_path)
                  (env_now_save env relative_path) s relative_path (st_size st)
                  false None None None "" "" false with
          | (metadata, Ok s') =>
              (Ok (file_entry env filter_public user_can_access_private item
                     relative_path metadata), s')
          | (_, Raise e) => (Raise e, s)
          end
      end
  end.

(** The branch of the loop for a directory. *)
Definition list_dir (env : listing_env) (directory : string)
    (filter_public : option bool) (user_can_access_private : bool)
    (s : store) (item : fs_entry) : option file_info :=
  let relative_path := relative_path_of directory item in
  match env_stat env (e_path item) with
  | None => None
  | Some st =>
      let dir_permission := get_directory_permission s relative_path in
      let is_public := default true dir_permission in
      let dir_locked := get_directory_lock s relative_path in
      if match filter_public with
         | Some b => negb (bool_decide (is_public = b))
         | None => false
         end then None
      else if negb is_public && negb user_can_access_private then None
      else
        Some (FileInfo relative_path (PosixPath.name (e_path item)) "directory"
                0 (st_mtime st) (st_ctime st) is_public "directory" [] "" ""
                None dir_locked None)
  end.

(** The body of the loop: the list so far, the database, and the
    exception that ended the call, if one did. *)
Definition list_step (env : listing_env) (directory : string)
    (filter_public : option bool) (user_can_access_private : bool)
    (acc : list file_info * store * option exn) (item : fs_entry)
    : list file_info * store * option exn :=
  let '(files_with_metadata, s, raised) := acc in
  match raised with
  | Some _ => acc
  | None =>
      if skipped_name (PosixPath.name (e_path item)) then acc
      else if e_is_file item then
        match list_file env directory filter_public user_can_access_private s item with
        | (Ok (Some file_info), s') => (files_with_metadata ++ [file_info], s', None)
        | (Ok None, s') => (files_with_metadata, s', None)
        | (Raise e, s') => (files_with_metadata, s', Some e)
        end
      else
        match list_dir env directory filter_public user_can_access_private s item with
        | Some dir_info => (files_with_metadata ++ [dir_info], s, None)
        | None => acc
        end
  end.

(** [list_files_with_metadata]: the list it returns or the exception it
    lets through, and the database afterwards. *)
Definition list_files_with_metadata (env : listing_env) (s : store) (fs : filesystem)
    (directory : string) (filter_public : option bool)
    (user_can_access_private : bool) : outcome (list file_info) * store :=
  if negb (fs_exists fs directory) || negb (fs_is_dir fs directory) then (Ok [], s)
  else
    let '(files_with_metadata, s', raised) :=
      foldl (list_step env directory filter_public user_can_access_private)
        ([], s, None) (iterdir fs directory) in
    (match raised with
     | Some e => Raise e
     | None => Ok files_with_metadata
     end, s').

(** What an entry of a listing says about the database [s]: the entry of
    a file shows the record of its path, the entry of a directory the
    setting it inherits (public when there is none) and its own lock. *)
Definition shows_record (i : file_info) (m : FileMetadata.t) : Prop :=
  fi_upload_time i = FileMetadata.upload_time m ∧
  fi_is_public i = FileMetadata.is_public m ∧
  fi_content_type i = FileMetadata.content_type m ∧
  fi_tags i = FileMetadata.tags m ∧
  fi_description i = FileMetadata.description m ∧
  fi_notes i = FileMetadata.notes m ∧
  fi_created_by i = FileMetadata.created_by m ∧
  fi_locked i = Some (FileMetadata.locked m).

Definition entry_agrees (s : store) (i : file_info) : Prop :=
  (fi_type i = "file" ∧
   ∃ m, load_metadata s (fi_filename i) = Some m ∧ shows_record i m) ∨
  (fi_type i = "directory" ∧
   fi_is_public i = default true (get_directory_permission s (fi_filename i)) ∧
   fi_locked i = get_directory_lock s (fi_filename i) ∧
   fi_size i = 0 ∧ fi_tags i = [] ∧ fi_download_url i = None).

Section search.

(** [str.lower] *)
Variable lower : string → string.

(** The four tests of the loop of [_simple_search]. *)
Definition matches (query_lower : string) (file_info : file_info) : bool :=
  str_in query_lower (lower (fi_display_name file_info)) ||
  existsb (λ tag, str_in query_lower (lower tag)) (fi_tags file_info) ||
  str_in query_lower (lower (fi_description file_info)) ||
  str_in query_lower (lower (fi_notes file_info)).

(** [_simple_search] *)
Definition _simple_search (env : listing_env) (s : store) (fs : filesystem)
    (query : string) (filter_public : option bool) (user_can_access_private : bool)
    : outcome (list file_info) * store :=
  let '(all_files, s') :=
    list_files_with_metadata env s fs "" filter_public user_can_access_private in
  (all_files ← all_files;
   Ok (filter (λ file_info, matches (lower query) file_info = true) all_files), s').

(** [search_files] *)
Definition search_files (env : listing_env) (s : store) (fs : filesystem)
    (query : string) (filter_public : option bool) (user_can_access_private : bool)
    : outcome (list file_info) * store :=
  _simple_search env s fs query filter_public user_can_access_private.

End search.

(** [str.lower] on ASCII text. *)
Fixpoint ascii_lower (s : string) : string :=
  match s with
  | EmptyString => EmptyString
  | String c s' =>
      let n := Ascii.nat_of_ascii c in
      String (if bool_decide (65 ≤ n ≤ 90)%nat then Ascii.ascii_of_nat (n + 32) else c)
        (ascii_lower s')
  end.

(** An environment in which every [stat] succeeds. *)
Definition sample_env : listing_env :=
  ListingEnv (λ _, Some (Stat 512 "2024-05-30T08:00:00" "2024-05-01T09:30:00"))
    (λ _, "2024-06-01T12:00:00") (λ _, "2024-06-01T12:00:01").

(** ** [server/utils.py]: the path check of the request handlers *)

(** [sep * n] *)
Fixpoint seps (n : nat) : string :=
  match n with
  | O => EmptyString
  | S n' => String PosixPath.sep (seps n')
  end.

(** The [initial_slashes] of [os.path.normpath]: two leading slashes are
    kept, any other number of them is one. *)
Definition initial_slashes (path : string) : nat :=
  if String.prefix "/" path then
    if String.prefix "//" path && negb (String.prefix "///" path) then 2%nat else 1%nat
  else 0%nat.

(** The body of the loop of [os.path.normpath]: [new_comps] after [comp]. *)
Definition normpath_step (initial_slashes : nat) (new_comps : list string)
    (comp : string) : list string :=
  if decide (comp = "" ∨ comp = ".") then new_comps
  else if decide (comp ≠ ".." ∨
                  (initial_slashes = 0%nat ∧ new_comps = []) ∨
                  (new_comps ≠ [] ∧ last new_comps = Some ".."))
  then new_comps ++ [comp]
  else if decide (new_comps ≠ []) then removelast new_comps
  else new_comps.

(** The components that [os.path.normpath] joins. *)
Definition normpath_comps (path : string) : list string :=
  foldl (normpath_step (initial_slashes path)) [] (PosixPath.split path).

(** [os.path.normpath] *)
Definition normpath (path : string) : string :=
  if decide (path = "") then "."
  else
    match seps (initial_slashes path) +:+ PosixPath.join (normpath_comps path) with
    | EmptyString => "."
    | s => s
    end.

(** [os.path.join(a, b)] *)
Definition os_path_join (a b : string) : string :=
  if String.prefix "/" b then b
  else if bool_decide (a = "") || endswith a "/" then a +:+ b
  else a +:+ "/" +:+ b.

(** [is_safe_path] *)
Definition is_safe_path (file_path : string) : bool :=
  let normalized_path := normpath file_path in
  negb (str_in ".." normalized_path || String.prefix "/" normalized_path).

(** ** [SQLiteMetadataManager.get_directory_info] *)

(** The dictionary that [get_directory_info] returns: empty, complete, or
    the two keys of the exception handler. *)
Inductive directory_info : Type :=
| NoInfo
| DirectoryInfo (path : string) (is_public : option bool)
    (has_permission_setting : bool) (file_count directory_count total_items : Z)
| PartialInfo (path : string) (is_public : option bool).

(** [get_directory_info]. [raises] says whether listing the directory
    raises. *)
Definition get_directory_info (raises : bool) (s : store) (fs : filesystem)
    (directory_path : string) : directory_info :=
  let directory_path :=
    if decide (directory_path = "") then "." else directory_path in
  if negb (fs_exists fs directory_path) || negb (fs_is_dir fs directory_path) then NoInfo
  else
    let permission := get_directory_permission s directory_path in
    if raises then PartialInfo directory_path permission
    else
      let items := iterdir fs directory_path in
      let file_count :=
        Z.of_nat (length (filter (λ item,
          e_is_file item = true ∧
          (PosixPath.name (e_path item) ∉ [".DS_Store"; "metadata.db"]) ∧
          endswith (PosixPath.name (e_path item)) ".meta" = false) items)) in
      let dir_count :=
        Z.of_nat (length (filter (λ item, e_is_file item = false) items)) in
      DirectoryInfo directory_path permission (is_not_None permission)
        file_count dir_count (file_count + dir_count).

(** ** [server/share_manager.py] *)

Module ShareInfo.
Record t := mk {
  share_id : string;
  filename : string;
  is_public : bool;
  created_at : string
}.
End ShareInfo.

#[global] Instance share_info_eq_dec : EqDecision ShareInfo.t.
Proof. solve_decision. Defined.

(** The dictionary of [shares.json], in the order of its keys. *)
Definition shares := list (string * ShareInfo.t).

(** The file: [None] when it is missing or does not hold JSON, which
    [_load_shares] turns into the empty dictionary. A file that holds JSON
    of another shape is not modelled. *)
Definition shares_file := option shares.

(** [_load_shares] *)
Definition _load_shares (f : shares_file) : shares := default [] f.

(** [_save_shares] *)
Definition _save_shares (d : shares) : shares_file := Some d.

(** [d[k] = v]: a key that is there keeps its place. *)
Definition dict_set (k : string) (v : ShareInfo.t) (d : shares) : shares :=
  if decide (k ∈ d.*1)
  then (λ kv, if decide (kv.1 = k) then (k, v) else kv) <$> d
  else d ++ [(k, v)].

(** [find_existing_share] *)
Definition find_existing_share (f : shares_file) (filename : string)
    (is_public : bool) : option ShareInfo.t :=
  head (filter (λ share_info, ShareInfo.filename share_info = filename ∧
                              ShareInfo.is_public share_info = is_public)
          (_load_shares f).*2).

(** [get_or_create_share]. [share_id] is what [generate_share_id] returns
    and [now] the clock reading, both used only when a share is created. *)
Definition get_or_create_share (share_id now : string) (f : shares_file)
    (filename : string) (is_public : bool) : ShareInfo.t * shares_file :=
  match find_existing_share f filename is_public with
  | Some existing => (existing, f)
  | None =>
      let share_info := ShareInfo.mk share_id filename is_public now in
      (share_info, _save_shares (dict_set share_id share_info (_load_shares f)))
  end.

(** [get_share_info]: [shares.get(share_id)] *)
Definition get_share_info (f : shares_file) (share_id : string) : option ShareInfo.t :=
  snd <$> head (filter (λ kv, kv.1 = share_id) (_load_shares f)).

(** [delete_share] *)
Definition delete_share (f : shares_file) (share_id : string) : bool * shares_file :=
  if decide (share_id ∈ (_load_shares f).*1)
  then (true, _save_shares (filter (λ kv, kv.1 ≠ share_id) (_load_shares f)))
  else (false, f).

(** [list_shares] *)
Definition list_shares (f : shares_file) : shares := _load_shares f.

(** What the manager keeps in the file: a dictionary (no key twice) in
    which every share is stored under its own id. *)
Definition wf_shares (f : shares_file) : Prop :=
  NoDup (_load_shares f).*1 ∧
  ∀ k v, (k, v) ∈ _load_shares f → ShareInfo.share_id v = k.

(** ** More sample states *)

(** A storage root with the directories [docs], [docs/reports] and
    [inbox], four uploads, and a side file that every walk skips. *)
Definition sample_tree : filesystem :=
  [FsEntry "." false; FsEntry "metadata.db" true;
   FsEntry "docs" false; FsEntry "docs/readme.md" true;
   FsEntry "docs/reports" false; FsEntry "docs/reports/q1.txt" true;
   FsEntry "docs/reports/q1.txt.meta" true; FsEntry "docs/reports/q2.txt" true;
   FsEntry "inbox" false; FsEntry "inbox/new.txt" true].

(** A database over [sample_tree]: [docs] is private, and two of the
    uploads have a record. *)
Definition sample_library : store :=
  Store [sample_row 1 "docs/readme.md"; sample_row 2 "docs/reports/q1.txt"]
    2 [TagRow 2 "draft" "2024-05-01T09:30:00"]
    [DirRow "docs" (Some 0) 1 "" None "2024-01-01T00:00:00" "2024-01-01T00:00:00"]
    (Some []).

(** The call made for [docs/reports] raises; nothing else goes wrong. *)
Definition reports_call_fails : walk_faults :=
  WalkFaults (λ _, false) (λ p, bool_decide (p = "docs/reports")).

(** The iteration raises when it comes to [docs/reports/q1.txt]. *)
Definition walk_fails_at_q1 : walk_faults :=
  WalkFaults (λ p, bool_decide (p = "docs/reports/q1.txt")) (λ _, false).

(** * Proofs *)

Import PosixPath.

(** ** Lists *)

Section list_facts.
Context {A : Type} (P : A → Prop) `{∀ x, Decision (P x)}.

Lemma filter_none (l : list A) : (∀ x, x ∈ l → ¬ P x) → filter P l = [].
Proof.
  induction l as [|x l IH]; intros HP; [done|].
  rewrite filter_cons, decide_False by (apply HP; left).
  apply IH. intros y Hy. apply HP. by right.
Qed.

Lemma filter_all (l : list A) : (∀ x, x ∈ l → P x) → filter P l = l.
Proof.
  induction l as [|x l IH]; intros HP; [done|].
  rewrite filter_cons, decide_True by (apply HP; left).
  f_equal. apply IH. intros y Hy. apply HP. by right.
Qed.

Lemma filter_fmap_stable (g : A → A) (l : list A) :
  (∀ x, P (g x) ↔ P x) → filter P (g <$> l) = g <$> filter P l.
Proof.
  intros Hg. induction l as [|x l IH]; [done|].
  rewrite fmap_cons, !filter_cons.
  destruct (decide (P x)) as [Hx|Hx].
  - rewrite decide_True by (by apply Hg). by rewrite fmap_cons, IH.
  - rewrite decide_False by (by rewrite Hg). done.
Qed.
End list_facts.

Lemma filter_iff_elem {A} (P Q : A → Prop)
    `{∀ x, Decision (P x), ∀ x, Decision (Q x)} (l : list A) :
  (∀ x, x ∈ l → P x ↔ Q x) → filter P l = filter Q l.
Proof.
  induction l as [|x l IH]; intros Heq; [done|].
  assert (P x ↔ Q x) as Hx by (apply Heq; left).
  specialize (IH (λ y Hy, Heq y (list_elem_of_further _ _ _ Hy))).
  rewrite !filter_cons.
  destruct (decide (P x)), (decide (Q x)); try tauto; by f_equal.
Qed.


Lemma filter_filter_swap {A} (P1 P2 Q : A → Prop)
    `{∀ x, Decision (P1 x), ∀ x, Decision (P2 x), ∀ x, Decision (Q x)} (l : list A) :
  (∀ x, x ∈ l → P1 x ↔ P2 x) →
  filter P1 (filter Q l) = filter Q (filter P2 l).
Proof.
  induction l as [|x l IH]; intros Heq; [done|].
  assert (P1 x ↔ P2 x) as Hx by (apply Heq; left).
  specialize (IH (λ y Hy, Heq y (list_elem_of_further _ _ _ Hy))).
  rewrite !filter_cons.
  destruct (decide (Q x)), (decide (P2 x)); rewrite ?filter_cons.
  - rewrite decide_True, decide_True by tauto. by f_equal.
  - by rewrite decide_False by tauto.
  - by rewrite decide_False by tauto.
  - done.
Qed.

Lemma head_filter_unique {A B} `{EqDecision B} (f : A → B) (l : list A) r :
  NoDup (f <$> l) → r ∈ l → head (filter (λ x, f x = f r) l) = Some r.
Proof.
  induction l as [|x l IH]; intros Hnd Hin; [by apply elem_of_nil in Hin|].
  rewrite fmap_cons in Hnd. apply NoDup_cons in Hnd as [Hx Hnd].
  rewrite filter_cons. case_decide as Hfx.
  - simpl. f_equal. apply elem_of_cons in Hin as [->|Hin]; [done|].
    exfalso. apply Hx. rewrite Hfx. by apply list_elem_of_fmap_2.
  - apply elem_of_cons in Hin as [->|Hin]; [done|]. by apply IH.
Qed.

Lemma foldr_max_ge (z : Z) (l : list Z) :
  z ≤ foldr Z.max z l ∧ ∀ x, x ∈ l → x ≤ foldr Z.max z l.
Proof.
  induction l as [|y l [IH1 IH2]]; simpl.
  - split; [lia|]. intros x Hx. by apply elem_of_nil in Hx.
  - split; [lia|]. intros x [->|Hx]%elem_of_cons; [lia|].
    specialize (IH2 x Hx). lia.
Qed.

(** ** Strings and paths *)

(** The path functions on the cases that matter below: repeated and
    trailing slashes, ["."] components, the empty path and the roots. *)
Example path_parent_samples :
  path_parent <$> ["a/b/c"; "a//b"; "a/./b"; "a/"; "a"; "."; ""; "/a"; "/"; "///"; "//x"; "./a/"]
  = ["a/b"; "a"; "a"; "."; "."; "."; "."; "/"; "/"; "/"; "//"; "."].
Proof. compute_done. Qed.

Example dirname_samples :
  dirname <$> ["a/b/c.txt"; "c.txt"; "/c.txt"; "a//b.txt"; "a/b/"; "//x"; ""]
  = ["a/b"; ""; "/"; "a"; "a/b"; "//"; ""].
Proof. compute_done. Qed.

Example joinpath_samples :
  joinpath "storage/files" <$> ["a.txt"; "b/../a.txt"; "./a//b/"; "/etc/passwd"; ""]
  = ["storage/files/a.txt"; "storage/files/b/../a.txt"; "storage/files/a/b";
     "/etc/passwd"; "storage/files"].
Proof. compute_done. Qed.

Lemma length_app_str (a b : string) :
  String.length (a +:+ b) = (String.length a + String.length b)%nat.
Proof. induction a as [|c a IH]; simpl; [done | by rewrite IH]. Qed.

Lemma split_nonempty s : split s ≠ [].
Proof. destruct s as [|c s]; simpl; [done|]. case_decide; [done|]. by destruct (split s). Qed.

Lemma join_cons x xs :
  join (x :: xs) = match xs with [] => x | _ :: _ => x +:+ String sep (join xs) end.
Proof. done. Qed.

Lemma join_split s : join (split s) = s.
Proof.
  induction s as [|c s IH]; [done|].
  simpl. case_decide as Hc.
  - subst c. rewrite join_cons.
    destruct (split s) eqn:E; [by apply split_nonempty in E|].
    by rewrite IH.
  - destruct (split s) as [|x xs] eqn:E; [by apply split_nonempty in E|].
    rewrite <- IH. rewrite !join_cons. by destruct xs.
Qed.

Lemma join_length_cons x xs :
  String.length (join (x :: xs)) =
  (String.length x + match xs with [] => 0 | _ :: _ => 1 + String.length (join xs) end)%nat.
Proof.
  rewrite join_cons. destruct xs; [lia|].
  rewrite length_app_str. simpl. lia.
Qed.

Lemma join_filter_length (P : string → Prop) `{∀ x, Decision (P x)} xs :
  (String.length (join (filter P xs)) ≤ String.length (join xs))%nat.
Proof.
  induction xs as [|x xs IH]; [done|].
  rewrite filter_cons. rewrite (join_length_cons x xs).
  case_decide.
  - rewrite join_length_cons.
    destruct (filter P xs) eqn:E.
    + lia.
    + destruct xs; [done|]. lia.
  - destruct xs; simpl in *; lia.
Qed.

Lemma join_removelast_length xs :
  xs ≠ [] → Forall (λ x, x ≠ EmptyString) xs →
  (String.length (join (removelast xs)) < String.length (join xs))%nat.
Proof.
  induction xs as [|x xs IH]; [done|]. intros _ HF.
  apply Forall_cons in HF as [Hx HF].
  destruct xs as [|y ys].
  - simpl. destruct x; [done|]. simpl. lia.
  - specialize (IH ltac:(done) HF).
    change (removelast (x :: y :: ys)) with (x :: removelast (y :: ys)).
    rewrite (join_length_cons x (y :: ys)), (join_length_cons x (removelast _)).
    remember (removelast (y :: ys)) as l eqn:El. clear El.
    destruct l; simpl in *; lia.
Qed.

Lemma splitroot_app p : fst (splitroot p) +:+ snd (splitroot p) = p.
Proof.
  destruct p as [|c1 [|c2 [|c3 r]]]; simpl; repeat case_decide; subst; done.
Qed.

Lemma parse_tail_kept p : Forall kept (tail (parse p)).
Proof.
  unfold parse. destruct (splitroot p) as [rt rel]. simpl.
  apply Forall_forall. intros x Hx. by apply list_elem_of_filter in Hx as [? _].
Qed.

Lemma path_parent_measure p :
  p ≠ "" → p ≠ "." → path_parent p ≠ p →
  (path_measure (path_parent p) < String.length p)%nat.
Proof.
  intros Hne Hdot Hpar.
  pose proof (splitroot_app p) as Happ.
  pose proof (parse_tail_kept p) as Hkept.
  assert (Hlen : (String.length (root (parse p)) + String.length (join (tail (parse p)))
                  ≤ String.length p)%nat).
  { unfold parse. destruct (splitroot p) as [rt rel] eqn:E. simpl in *.
    rewrite <- Happ, length_app_str.
    pose proof (join_filter_length kept (split rel)) as H1.
    rewrite join_split in H1. lia. }
  assert (Hp : (0 < String.length p)%nat) by (destruct p; [done | simpl; lia]).
  unfold path_parent, parent in *.
  destruct (tail (parse p)) as [|x xs] eqn:Et.
  - (* no component: the parent is the path itself, normalised *)
    unfold render in *. rewrite Et in *. simpl in *.
    unfold parse in *. destruct (splitroot p) as [rt rel] eqn:E. simpl in *.
    destruct rt as [|c rt].
    + simpl. unfold path_measure. by rewrite decide_True.
    + simpl in *.
      assert (rel ≠ "") as Hrel.
      { intros ->. apply Hpar. rewrite <- Happ.
        clear. induction rt; simpl; [done|]. by f_equal. }
      unfold path_measure. case_decide; [lia|].
      rewrite <- Happ. simpl. rewrite !length_app_str.
      destruct rel; [done|]. simpl. lia.
  - assert (Hlt : (String.length (join (removelast (x :: xs))) < String.length (join (x :: xs)))%nat).
    { apply join_removelast_length; [done|].
      eapply Forall_impl; [exact Hkept|]. by intros ? [? _]. }
    set (q := removelast (x :: xs)) in *.
    unfold render; cbn [root tail].
    destruct (root (parse p) +:+ join q) eqn:Es.
    + unfold path_measure. rewrite decide_True; [lia | done].
    + rewrite <- Es. unfold path_measure. case_decide; [lia|].
      rewrite length_app_str. lia.
Qed.

Lemma app_str_cons c (a b : string) : String c a +:+ b = String c (a +:+ b).
Proof. done. Qed.

Lemma app_str_assoc (a b c : string) : (a +:+ b) +:+ c = a +:+ b +:+ c.
Proof. induction a as [|x a IH]; [done|]. rewrite !app_str_cons. by f_equal. Qed.

Lemma split_head_no_sep c x : split (String c x) = [String c x] → c ≠ sep.
Proof.
  simpl. case_decide; [done|]. done.
Qed.

Lemma split_tail_no_sep c x : split (String c x) = [String c x] → split x = [x].
Proof.
  simpl. case_decide; [done|].
  destruct (split x) as [|y ys] eqn:E; [by apply split_nonempty in E|].
  by intros [= -> ->].
Qed.

Lemma split_app_sep x rest :
  split x = [x] → split (x +:+ String sep rest) = x :: split rest.
Proof.
  induction x as [|c x IH]; intros Hx.
  - change ("" +:+ String sep rest) with (String sep rest).
    cbn [split]. by rewrite decide_True.
  - pose proof (split_head_no_sep c x Hx) as Hc.
    specialize (IH (split_tail_no_sep c x Hx)).
    rewrite app_str_cons. cbn [split]. rewrite decide_False by done. by rewrite IH.
Qed.

Lemma join_snoc ys y :
  ys ≠ [] → join (ys ++ [y]) = join ys +:+ String sep y.
Proof.
  induction ys as [|x ys IH]; [done|]. intros _.
  destruct ys as [|x' ys]; [done|].
  change (join ((x :: x' :: ys) ++ [y]))
    with (x +:+ String sep (join ((x' :: ys) ++ [y]))).
  rewrite IH by done.
  change (join (x :: x' :: ys)) with (x +:+ String sep (join (x' :: ys))).
  by rewrite app_str_assoc.
Qed.

Lemma split_join xs :
  xs ≠ [] → Forall component xs → split (join xs) = xs.
Proof.
  induction xs as [|x xs IH]; [done|]. intros _ Hc.
  apply Forall_cons in Hc as [[_ Hx] Hc].
  destruct xs as [|y ys]; [done|].
  change (join (x :: y :: ys)) with (x +:+ String sep (join (y :: ys))).
  rewrite split_app_sep by done. f_equal. by apply IH.
Qed.

Lemma component_head x :
  component x → ∃ c x', x = String c x' ∧ c ≠ sep.
Proof.
  intros [[Hne _] Hs]. destruct x as [|c x']; [done|].
  exists c, x'. split; [done|]. by eapply split_head_no_sep.
Qed.

Lemma join_head xs :
  xs ≠ [] → Forall component xs → ∃ c rest, join xs = String c rest ∧ c ≠ sep.
Proof.
  destruct xs as [|x xs]; [done|]. intros _ Hc.
  apply Forall_cons in Hc as [Hx _].
  destruct (component_head x Hx) as (c & x' & -> & Hc).
  destruct xs; simpl; eauto.
Qed.

Lemma parse_join xs :
  xs ≠ [] → Forall component xs → parse (join xs) = PurePath "" xs.
Proof.
  intros Hne Hc. unfold parse.
  destruct (join_head xs Hne Hc) as (c & rest & Hj & Hsep).
  assert (splitroot (join xs) = ("", join xs)) as ->.
  { rewrite Hj. simpl. by rewrite decide_False. }
  rewrite split_join by done. f_equal.
  apply filter_all. intros x Hx.
  by eapply Forall_forall in Hc as [? _].
Qed.

Lemma render_join xs :
  xs ≠ [] → Forall component xs → render (PurePath "" xs) = join xs.
Proof.
  intros Hne Hc. unfold render. simpl.
  destruct (join_head xs Hne Hc) as (c & rest & -> & _). done.
Qed.

Lemma path_parent_join ys y :
  Forall component (ys ++ [y]) →
  path_parent (join (ys ++ [y])) = match ys with [] => "." | _ :: _ => join ys end.
Proof.
  intros Hc. unfold path_parent.
  assert (Hys : Forall component ys) by (by apply Forall_app in Hc as [? _]).
  rewrite parse_join by (done || by destruct ys).
  unfold parent. simpl tail.
  destruct (ys ++ [y]) as [|z zs] eqn:E; [by destruct ys|].
  rewrite <- E, removelast_last. simpl root.
  destruct ys as [|x ys]; [done|].
  by apply render_join.
Qed.

Lemma join_not_root xs :
  xs ≠ [] → Forall component xs → join xs ≠ "" ∧ join xs ≠ ".".
Proof.
  intros Hne Hc. split.
  - by destruct (join_head xs Hne Hc) as (c & rest & -> & _).
  - destruct xs as [|x [|y ys]]; [done| |].
    + apply Forall_cons in Hc as [[[_ Hdot] _] _]. done.
    + apply Forall_cons in Hc as [Hx _].
      destruct (component_head x Hx) as (c & x' & -> & _).
      change (join (String c x' :: y :: ys))
        with (String c (x' +:+ String sep (join (y :: ys)))).
      intros [= _ H]. by destruct x'.
Qed.

Lemma join_shorter ys y :
  Forall component (ys ++ [y]) →
  (String.length (join ys) < String.length (join (ys ++ [y])))%nat.
Proof.
  intros Hc.
  pose proof (join_removelast_length (ys ++ [y])) as H.
  rewrite removelast_last in H. apply H; [by destruct ys|].
  eapply Forall_impl; [exact Hc|]. by intros ? [[? _] _].
Qed.

Lemma head_tail_component f : split f = [f] → head_tail f = ("", f).
Proof.
  induction f as [|c f IH]; intros Hf; [done|].
  pose proof (split_head_no_sep c f Hf) as Hc.
  specialize (IH (split_tail_no_sep c f Hf)).
  cbn [head_tail]. rewrite IH. by rewrite decide_False.
Qed.

Lemma head_tail_app_sep x rest :
  split x = [x] →
  head_tail (x +:+ String sep rest) =
  (x +:+ String sep (head_tail rest).1, (head_tail rest).2).
Proof.
  induction x as [|c x IH]; intros Hx.
  - change ("" +:+ String sep rest) with (String sep rest).
    cbn [head_tail]. destruct (head_tail rest). by rewrite decide_True.
  - pose proof (split_head_no_sep c x Hx) as Hc.
    specialize (IH (split_tail_no_sep c x Hx)).
    rewrite !app_str_cons. cbn [head_tail]. rewrite IH, decide_False by done.
    by destruct x.
Qed.

Lemma head_tail_join xs f :
  Forall component (xs ++ [f]) →
  head_tail (join (xs ++ [f])) =
  (match xs with [] => "" | _ :: _ => join xs +:+ "/" end, f).
Proof.
  induction xs as [|x xs IH]; intros Hc.
  - inversion Hc as [|? ? [_ Hf] _]. by apply head_tail_component.
  - apply Forall_cons in Hc as [[_ Hx] Hc]. specialize (IH Hc).
    change (join ((x :: xs) ++ [f])) with (join (x :: (xs ++ [f]))).
    destruct (xs ++ [f]) as [|z zs] eqn:E; [by destruct xs|].
    change (join (x :: z :: zs)) with (x +:+ String sep (join (z :: zs))).
    rewrite head_tail_app_sep, IH by done. simpl fst. simpl snd.
    destruct xs as [|x' xs]; [done|].
    change (join (x :: x' :: xs)) with (x +:+ String sep (join (x' :: xs))).
    by rewrite app_str_assoc.
Qed.

Lemma rstrip_app_sep s : rstrip (s +:+ "/") = rstrip s.
Proof.
  induction s as [|c s IH]; [done|].
  change (String c s +:+ "/") with (String c (s +:+ "/")).
  cbn [rstrip]. by rewrite IH.
Qed.

Lemma rstrip_app a b : rstrip b ≠ "" → rstrip (a +:+ b) = a +:+ rstrip b.
Proof.
  intros Hb. induction a as [|c a IH]; [done|].
  rewrite !app_str_cons. cbn [rstrip]. rewrite IH.
  destruct (a +:+ rstrip b) eqn:E; [|done].
  destruct a; [|done]. by destruct (rstrip b).
Qed.

Lemma rstrip_component x : component x → rstrip x = x.
Proof.
  intros [[Hne _] Hs]. induction x as [|c x IH]; [done|].
  pose proof (split_head_no_sep c x Hs) as Hc.
  cbn [rstrip]. destruct x as [|c' x'].
  - simpl. by rewrite decide_False.
  - rewrite IH by (done || by eapply split_tail_no_sep). done.
Qed.

Lemma rstrip_join xs :
  xs ≠ [] → Forall component xs → rstrip (join xs) = join xs.
Proof.
  induction xs as [|y ys _] using rev_ind; [done|]. intros _ Hc.
  assert (component y) as Hy.
  { apply Forall_app in Hc as [_ Hy]. by inversion Hy. }
  assert (rstrip y ≠ "") as Hne.
  { rewrite rstrip_component by done. by destruct Hy as [[? _] _]. }
  destruct ys as [|x ys]; [by apply rstrip_component|].
  rewrite join_snoc by done.
  change (join (x :: ys) +:+ String sep y) with (join (x :: ys) +:+ ("/" +:+ y)).
  rewrite <- app_str_assoc, rstrip_app, rstrip_component by done. done.
Qed.

Lemma all_sep_join xs rest :
  xs ≠ [] → Forall component xs → all_sep (join xs +:+ rest) = false.
Proof.
  intros Hne Hc. destruct (join_head xs Hne Hc) as (c & r & -> & Hsep).
  simpl. by rewrite bool_decide_eq_false_2.
Qed.

(** For a relative path in normal form, [os.path.dirname] drops the last
    component. *)
Lemma dirname_components xs f :
  Forall component (xs ++ [f]) → dirname (join (xs ++ [f])) = join xs.
Proof.
  intros Hc. unfold dirname. rewrite head_tail_join by done. simpl fst.
  destruct xs as [|x xs]; [done|].
  assert (Forall component (x :: xs)) as Hxs by (by apply Forall_app in Hc as [? _]).
  rewrite all_sep_join by done.
  destruct (join_head (x :: xs) ltac:(done) Hxs) as (c & r & Hj & _).
  rewrite bool_decide_eq_true_2 by (by rewrite Hj).
  cbn [andb negb]. rewrite rstrip_app_sep. by apply rstrip_join.
Qed.

Lemma prefix_app (n b : string) : String.prefix n (n +:+ b) = true.
Proof.
  induction n as [|c n IH]; simpl; [by destruct b|].
  destruct (ascii_dec c c); [done|congruence].
Qed.

Lemma str_in_unfold (n h : string) :
  str_in n h =
  String.prefix n h || match h with EmptyString => false | String _ rest => str_in n rest end.
Proof. by destruct h. Qed.

Lemma str_in_app (a n b : string) : str_in n (a +:+ n +:+ b) = true.
Proof.
  induction a as [|c a IH].
  - rewrite str_in_unfold. change ("" +:+ n +:+ b) with (n +:+ b).
    by rewrite prefix_app.
  - change (str_in n (String c a +:+ n +:+ b))
      with (String.prefix n (String c (a +:+ n +:+ b)) || str_in n (a +:+ n +:+ b)).
    rewrite IH. apply orb_true_r.
Qed.

Lemma should_exclude_elem patterns pattern file_path :
  pattern ∈ patterns → str_in pattern file_path = true →
  should_exclude patterns file_path = true.
Proof.
  induction patterns as [|q patterns IH]; intros Hin Hsub.
  - by apply elem_of_nil in Hin.
  - simpl. destruct (str_in q file_path) eqn:E; [done|].
    apply elem_of_cons in Hin as [->|Hin]; [congruence|by apply IH].
Qed.

Lemma slice_to_all {A} (n : Z) (l : list A) :
  Z.of_nat (length l) ≤ n → slice_to n l = l.
Proof.
  intros Hn. unfold slice_to. rewrite decide_True by lia.
  apply take_ge. lia.
Qed.


Lemma slice_to_nil {A} (n : Z) : slice_to n (@nil A) = [].
Proof. unfold slice_to. case_decide; by rewrite take_nil. Qed.

(** ** Directory permissions *)

Lemma path_measure_le p : (path_measure p ≤ String.length p)%nat.
Proof. unfold path_measure. case_decide; lia. Qed.

Lemma path_measure_step p n :
  ¬ (p = "" ∨ p = ".") → path_parent p ≠ p →
  (path_measure p < S n → path_measure (path_parent p) < n)%nat.
Proof.
  intros Hbase Hpar Hm.
  assert (p ≠ "" ∧ p ≠ ".") as [H1 H2] by tauto.
  pose proof (path_parent_measure p H1 H2 Hpar).
  unfold path_measure in Hm. rewrite decide_False in Hm by done. lia.
Qed.

Lemma depth_bound_measure p : (path_measure p < depth_bound p)%nat.
Proof. pose proof (path_measure_le p). unfold depth_bound. lia. Qed.

Lemma lookup_chain_fuel_mono n n' p :
  (path_measure p < n)%nat → (n ≤ n')%nat →
  lookup_chain_fuel n' p = lookup_chain_fuel n p.
Proof.
  revert n' p. induction n as [|n IH]; intros n' p Hm Hle; [lia|].
  destruct n' as [|n']; [lia|]. simpl.
  case_decide as Hbase; [done|]. f_equal.
  case_decide as Hpar; [|done].
  apply IH; [|lia]. by apply path_measure_step.
Qed.

Lemma get_directory_permission_fuel_chain s n p :
  (path_measure p < n)%nat →
  get_directory_permission_fuel n s p =
  Some (bool_of_int <$> first_setting s (lookup_chain_fuel n p)).
Proof.
  revert p. induction n as [|n IH]; intros p Hm; [lia|]. simpl.
  case_decide as Hbase; [done|]. simpl.
  destruct (select_is_public s p) as [v|]; [done|].
  case_decide as Hpar; [|done].
  apply IH. by apply path_measure_step.
Qed.

Lemma get_directory_permission_chain s p :
  get_directory_permission s p = bool_of_int <$> first_setting s (lookup_chain p).
Proof.
  unfold get_directory_permission.
  rewrite get_directory_permission_fuel_chain by apply depth_bound_measure. done.
Qed.

Lemma ancestor_paths_snoc ys y :
  ancestor_paths (ys ++ [y]) = join (ys ++ [y]) :: ancestor_paths ys.
Proof.
  unfold ancestor_paths. rewrite reverse_snoc. simpl.
  by rewrite reverse_cons, reverse_involutive.
Qed.

Lemma lookup_chain_fuel_root fuel : lookup_chain_fuel fuel "." = [].
Proof. by destruct fuel. Qed.

(** For a relative path in normal form, the directories looked up are the
    path and its ancestors, nearest first. *)
Lemma lookup_chain_components xs :
  Forall component xs → lookup_chain (join xs) = ancestor_paths xs.
Proof.
  induction xs as [|y ys IH] using rev_ind; intros Hc; [done|].
  rewrite ancestor_paths_snoc.
  destruct (join_not_root (ys ++ [y])) as [Hne Hdot]; [by destruct ys|done|].
  pose proof (path_parent_join ys y Hc) as Hpar.
  pose proof (join_shorter ys y Hc) as Hlen.
  unfold lookup_chain, depth_bound. cbn [lookup_chain_fuel].
  rewrite decide_False by (by intros [?|?]).
  f_equal. rewrite Hpar.
  destruct ys as [|x ys].
  - rewrite decide_True by (by intros ?). apply lookup_chain_fuel_root.
  - rewrite decide_True.
    + rewrite <- IH by (by apply Forall_app in Hc as [? _]).
      unfold lookup_chain.
      apply lookup_chain_fuel_mono; [apply depth_bound_measure|].
      unfold depth_bound. lia.
    + intros Heq. rewrite Heq in Hlen. lia.
Qed.

(** The settings that decide the [is_public] of a new file [a/b/c/f] are
    those of [a/b/c], [a/b] and [a], in this order. *)
Lemma lookup_chain_dirname xs f :
  Forall component (xs ++ [f]) →
  lookup_chain (dirname (join (xs ++ [f]))) = ancestor_paths xs.
Proof.
  intros Hc. rewrite dirname_components by done.
  apply lookup_chain_components. by apply Forall_app in Hc as [? _].
Qed.

Example ancestor_paths_sample :
  ancestor_paths ["docs"; "reports"; "2024"] =
  ["docs/reports/2024"; "docs/reports"; "docs"].
Proof. compute_done. Qed.

Lemma select_is_public_unset s d : unset s d → select_is_public s d = None.
Proof.
  intros Hu. unfold select_is_public.
  destruct (head _) as [r|] eqn:E; [|done]. simpl.
  apply head_Some_elem_of, list_elem_of_filter in E as [Hp Hr].
  by apply Hu.
Qed.

Lemma select_is_public_set s d v :
  NoDup (dm_directory_path <$> directory_metadata s) →
  set_to s d v → select_is_public s d = Some v.
Proof.
  intros Hnd (r & Hr & <- & Hv). unfold select_is_public.
  by rewrite (head_filter_unique dm_directory_path _ r Hnd Hr).
Qed.

Lemma first_setting_unset s dirs :
  (∀ d, d ∈ dirs → unset s d) → first_setting s dirs = None.
Proof.
  induction dirs as [|d dirs IH]; intros H; [done|]. simpl.
  rewrite select_is_public_unset by (apply H; left).
  apply IH. intros d' Hd'. apply H. by right.
Qed.

Lemma first_setting_nearest s below a above v :
  NoDup (dm_directory_path <$> directory_metadata s) →
  (∀ d, d ∈ below → unset s d) → set_to s a v →
  first_setting s (below ++ a :: above) = Some v.
Proof.
  intros Hnd Hb Ha. induction below as [|d below IH]; simpl.
  - by rewrite (select_is_public_set s a v).
  - rewrite select_is_public_unset by (apply Hb; left).
    apply IH. intros d' Hd'. apply Hb. by right.
Qed.

Example lookup_chain_samples :
  lookup_chain "docs/reports/2024" = ["docs/reports/2024"; "docs/reports"; "docs"] ∧
  lookup_chain (dirname "docs/reports/q1.txt") = ["docs/reports"; "docs"] ∧
  lookup_chain (dirname "q1.txt") = [] ∧
  lookup_chain "/srv/files" = ["/srv/files"; "/srv"; "/"] ∧
  lookup_chain "." = [].
Proof. repeat split; compute_done. Qed.

(** C5. For every database and every path, the empty path, ["."] and a
    path that is its own parent included, [get_directory_permission]
    returns: any recursion budget of at least [depth_bound] gives the same
    result. On the empty path and on ["."] it returns [None] at once, and
    on a path whose parent is the path itself (the filesystem root) it
    returns after the one lookup, without recursing. *)
Theorem get_directory_permission_terminates s p :
  (∃ r, ∀ fuel, (depth_bound p ≤ fuel)%nat →
        get_directory_permission_fuel fuel s p = Some r) ∧
  (p = "" ∨ p = "." → ∀ fuel, get_directory_permission_fuel (S fuel) s p = Some None) ∧
  (path_parent p = p → ∀ fuel,
     get_directory_permission_fuel (S fuel) s p =
     Some (if decide (p = "" ∨ p = ".") then None
           else bool_of_int <$> select_is_public s p)).
Proof.
  split; [|split].
  - exists (bool_of_int <$> first_setting s (lookup_chain p)).
    intros fuel Hfuel.
    pose proof (depth_bound_measure p).
    rewrite get_directory_permission_fuel_chain by lia.
    unfold lookup_chain. by rewrite (lookup_chain_fuel_mono (depth_bound p) fuel) by lia.
  - intros Hp fuel. simpl. by rewrite decide_True.
  - intros Hpar fuel. simpl. case_decide; [done|].
    destruct (select_is_public s p); [done|].
    by rewrite decide_False by (intros H'; by apply H').
Qed.

(** C4. Where [directory_path] is unique in [directory_metadata]: if no
    directory of the chain from [p] upwards has a non-null [is_public],
    [get_directory_permission(p)] is [None]; if a directory [a] of the
    chain has [is_public = True] and no directory from [p] up to [a]
    (exclusive) has a non-null setting, it is [True]. *)
Theorem get_directory_permission_inherits s p :
  NoDup (dm_directory_path <$> directory_metadata s) →
  ((∀ d, d ∈ lookup_chain p → unset s d) →
   get_directory_permission s p = None) ∧
  (∀ below a above,
     lookup_chain p = below ++ a :: above →
     (∀ d, d ∈ below → unset s d) → set_to s a 1 →
     get_directory_permission s p = Some true).
Proof.
  intros Hnd. split.
  - intros H. rewrite get_directory_permission_chain.
    by rewrite first_setting_unset.
  - intros below a above Hc Hb Ha. rewrite get_directory_permission_chain, Hc.
    by rewrite (first_setting_nearest s below a above 1).
Qed.

(** The hypotheses of [get_directory_permission_inherits] hold in
    [sample_dirs]: nothing is set above [inbox/2024], and [docs] is the
    nearest setting above [docs/reports/2024]. *)
Lemma get_directory_permission_inherits_witness :
  NoDup (dm_directory_path <$> directory_metadata sample_dirs) ∧
  get_directory_permission sample_dirs "inbox/2024" = None ∧
  get_directory_permission sample_dirs "docs/reports/2024" = Some true.
Proof.
  assert (Hnd : NoDup (dm_directory_path <$> directory_metadata sample_dirs))
    by compute_done.
  split; [exact Hnd|]. split.
  - apply (proj1 (get_directory_permission_inherits sample_dirs "inbox/2024" Hnd)).
    intros d Hd r Hr Hp. subst d. simpl in Hr.
    repeat (apply elem_of_cons in Hr as [->|Hr];
            [first [done | exfalso; revert Hd; compute_done]|]).
    by apply elem_of_nil in Hr.
  - apply (proj2 (get_directory_permission_inherits sample_dirs "docs/reports/2024" Hnd)
             ["docs/reports/2024"; "docs/reports"] "docs" []).
    + compute_done.
    + intros d Hd r Hr Hp. subst d. simpl in Hr.
      repeat (apply elem_of_cons in Hr as [->|Hr];
              [first [done | exfalso; revert Hd; compute_done]|]).
      by apply elem_of_nil in Hr.
    + eexists. split; [left|]. done.
Defined.

(** ** Saving and loading *)

Lemma bool_of_int_of_bool b : bool_of_int (int_of_bool b) = b.
Proof. by destruct b. Qed.

Lemma insert_tags_ok_inv file_id now tags tbl tbl' :
  insert_tags file_id now tags tbl = Ok tbl' →
  tbl' = tbl ++ tag_rows file_id now tags.
Proof.
  revert tbl. induction tags as [|t tags IH]; intros tbl; simpl.
  - intros [= <-]. by rewrite app_nil_r.
  - unfold insert_tag. case_decide; [done|]. simpl.
    intros Hok. apply IH in Hok. rewrite Hok, <- app_assoc. done.
Qed.

Lemma insert_tags_ok file_id now tags tbl :
  NoDup tags →
  (∀ r, r ∈ tbl → ft_file_id r ≠ file_id) →
  insert_tags file_id now tags tbl = Ok (tbl ++ tag_rows file_id now tags).
Proof.
  intros Hnd Hfresh.
  assert (Hgen : ∀ done_ todo,
    NoDup (done_ ++ todo) →
    insert_tags file_id now todo (tbl ++ tag_rows file_id now done_) =
    Ok (tbl ++ tag_rows file_id now (done_ ++ todo))).
  { intros done_ todo. revert done_.
    induction todo as [|t todo IH]; intros done_ Hnd'; simpl.
    - by rewrite app_nil_r.
    - unfold insert_tag. rewrite decide_False.
      + simpl. rewrite <- app_assoc.
        replace (tag_rows file_id now done_ ++ [TagRow file_id t now])
          with (tag_rows file_id now (done_ ++ [t]))
          by (unfold tag_rows; by rewrite fmap_app).
        rewrite IH by (by rewrite <- app_assoc).
        by rewrite <- app_assoc.
      + rewrite fmap_app, elem_of_app. intros [Hin|Hin].
        * apply list_elem_of_fmap in Hin as (r & [= Hid _] & Hr).
          by apply (Hfresh r).
        * unfold tag_rows in Hin. rewrite <- list_fmap_compose in Hin.
          apply list_elem_of_fmap in Hin as (t' & [= ->] & Ht').
          apply NoDup_app in Hnd' as (_ & Hdisj & _).
          apply (Hdisj t' Ht'). left. }
  specialize (Hgen [] tags Hnd). unfold tag_rows in *. simpl in Hgen.
  by rewrite app_nil_r in Hgen.
Qed.

Lemma insert_tags_nodup file_id now tags tbl tbl' :
  insert_tags file_id now tags tbl = Ok tbl' → NoDup tags.
Proof.
  revert tbl. induction tags as [|t tags IH]; intros tbl; simpl; [constructor|].
  unfold insert_tag. case_decide as Hin; [done|]. simpl. intros Hok.
  constructor; [|by eapply IH].
  intros Ht. clear IH.
  assert (Hgen : ∀ tbl0, (file_id, t) ∈ (λ r, (ft_file_id r, ft_tag r)) <$> tbl0 →
                 insert_tags file_id now tags tbl0 = Ok tbl' → False).
  { clear Hok Hin tbl. induction tags as [|t' tags IH]; intros tbl0 Hin0; simpl.
    - by apply elem_of_nil in Ht.
    - unfold insert_tag. case_decide as Hin'; [done|]. simpl.
      apply elem_of_cons in Ht as [->|Ht]; [done|].
      apply IH; [done|]. rewrite fmap_app, elem_of_app. by left. }
  eapply Hgen; [|exact Hok].
  rewrite fmap_app, elem_of_app. right. simpl. left.
Qed.

Lemma tag_rows_tags file_id now tags :
  ft_tag <$> tag_rows file_id now tags = tags.
Proof. unfold tag_rows. rewrite <- list_fmap_compose. apply list_fmap_id. Qed.

Lemma tag_rows_filter file_id now tags :
  filter (λ r, ft_file_id r = file_id) (tag_rows file_id now tags) =
  tag_rows file_id now tags.
Proof.
  apply filter_all. intros r Hr.
  unfold tag_rows in Hr. by apply list_elem_of_fmap in Hr as (t & -> & _).
Qed.

Lemma tag_rows_keys file_id now tags :
  (λ r, (ft_file_id r, ft_tag r)) <$> tag_rows file_id now tags =
  (λ t, (file_id, t)) <$> tags.
Proof. unfold tag_rows. by rewrite <- list_fmap_compose. Qed.

Lemma truthy_id_Some o z : truthy_id o = Some z ↔ o = Some z ∧ z ≠ 0.
Proof.
  unfold truthy_id. destruct o as [z'|].
  - case_decide as Hz; split.
    + done.
    + by intros [[= ->] ?].
    + by intros [= ->].
    + by intros [[= ->] _].
  - split; [done | by intros [? _]].
Qed.

Lemma get_file_id_Some s p file_id :
  _get_file_id s p = Some file_id →
  ∃ r0 rest, filter (λ r, fm_file_path r = p) (file_metadata s) = r0 :: rest ∧
             fm_id r0 = file_id.
Proof.
  unfold _get_file_id. destruct (filter _ _) as [|r0 rest]; [done|].
  simpl. intros [= <-]. eauto.
Qed.

Lemma get_file_id_None s p :
  _get_file_id s p = None → p ∉ fm_file_path <$> file_metadata s.
Proof.
  unfold _get_file_id. destruct (filter _ _) as [|r0 rest] eqn:E; [|done].
  intros _ Hin. apply list_elem_of_fmap in Hin as (r & -> & Hr).
  assert (r ∈ filter (λ r0, fm_file_path r0 = fm_file_path r) (file_metadata s)) as Hf
    by (by apply list_elem_of_filter).
  rewrite E in Hf. by apply elem_of_nil in Hf.
Qed.

Lemma truthy_id_None_wf s p :
  wf_store s → truthy_id (_get_file_id s p) = None → _get_file_id s p = None.
Proof.
  intros Hwf. destruct (_get_file_id s p) as [z|] eqn:E; [|done].
  apply get_file_id_Some in E as (r0 & rest & Hf & <-).
  assert (r0 ∈ file_metadata s) as Hr0.
  { assert (r0 ∈ filter (λ r, fm_file_path r = p) (file_metadata s)) as Hin
      by (rewrite Hf; left).
    by apply list_elem_of_filter in Hin as [_ ?]. }
  pose proof (wf_ids s Hwf r0 Hr0). simpl. case_decide; [lia|done].
Qed.

Lemma next_rowid_seq s : file_metadata_seq s < next_rowid s.
Proof.
  unfold next_rowid.
  pose proof (foldr_max_ge (file_metadata_seq s) (fm_id <$> file_metadata s)) as [? _]. lia.
Qed.

Lemma next_rowid_fresh s r : r ∈ file_metadata s → fm_id r < next_rowid s.
Proof.
  intros Hr. unfold next_rowid.
  pose proof (foldr_max_ge (file_metadata_seq s) (fm_id <$> file_metadata s)) as [_ H].
  specialize (H (fm_id r) ltac:(by apply list_elem_of_fmap_2)). lia.
Qed.

Lemma save_metadata_stamp now s p r :
  fst (save_metadata now s p r) = FileMetadata.set_last_modified now r.
Proof. done. Qed.

Lemma load_after_write rows seq tbl dirs log p row file_id now tags rest :
  filter (λ r, fm_file_path r = p) rows = row :: rest →
  fm_id row = file_id → file_id ≠ 0 →
  filter (λ r, ft_file_id r = file_id) tbl = tag_rows file_id now tags →
  load_metadata (Store rows seq tbl dirs log) p =
  Some (FileMetadata.mk (fm_filename row) (fm_size row) (fm_upload_time row)
          (fm_last_modified row) (bool_of_int (fm_is_public row))
          (fm_content_type row) (fm_created_by row)
          (merge_sort String.le tags)
          (fm_description row) (fm_notes row) (fm_original_url row)
          (bool_of_int (fm_locked row))).
Proof.
  intros Hf Hid Hnz Ht. unfold load_metadata, _get_file_id, select_tags. simpl.
  rewrite Hf. simpl. rewrite Hid. rewrite decide_False by done.
  by rewrite Ht, tag_rows_tags.
Qed.

Lemma save_load now s p r s' :
  wf_store s →
  snd (save_metadata now s p r) = Ok s' →
  load_metadata s' p = Some (stored now r).
Proof.
  intros Hwf. unfold save_metadata. simpl.
  case_decide as Hsize; [|done].
  destruct (truthy_id (_get_file_id s p)) as [file_id|] eqn:Et.
  - apply truthy_id_Some in Et as [Hid Hnz].
    apply get_file_id_Some in Hid as (r0 & rest & Hf & Hid).
    destruct (insert_tags _ _ _ _) as [tbl|] eqn:Ei; simpl; [|done].
    intros [= <-]. apply insert_tags_ok_inv in Ei as ->.
    erewrite load_after_write; [|
      rewrite filter_fmap_stable by (intros x; by case_decide);
      rewrite Hf, fmap_cons; reflexivity | | done |].
    + rewrite decide_True by done. simpl.
      by rewrite !bool_of_int_of_bool.
    + by case_decide.
    + rewrite filter_app, tag_rows_filter.
      rewrite filter_none; [done|].
      intros x Hx. by apply list_elem_of_filter in Hx as [? _].
  - apply truthy_id_None_wf in Et; [|done].
    apply get_file_id_None in Et.
    rewrite decide_False by done.
    destruct (insert_tags _ _ _ _) as [tbl|] eqn:Ei; simpl; [|done].
    intros [= <-]. apply insert_tags_ok_inv in Ei as ->.
    pose proof (next_rowid_seq s) as Hseq. pose proof (wf_seq s Hwf) as H0.
    erewrite load_after_write with (file_id := next_rowid s); [|
      rewrite filter_app, filter_none, filter_cons, decide_True by
        (done || (intros x Hx ?; apply Et; subst p; by apply list_elem_of_fmap_2));
      reflexivity | reflexivity | lia |].
    + simpl. by rewrite !bool_of_int_of_bool.
    + rewrite filter_app, tag_rows_filter.
      rewrite filter_none; [done|].
      intros x Hx Heq. pose proof (wf_tags_ids s Hwf x Hx). lia.
Qed.

Lemma save_succeeds now s p r :
  wf_store s → NoDup (FileMetadata.tags r) → int64 (FileMetadata.size r) →
  ∃ s', snd (save_metadata now s p r) = Ok s'.
Proof.
  intros Hwf Hnd Hsize. unfold save_metadata. simpl.
  rewrite decide_True by done.
  destruct (truthy_id (_get_file_id s p)) as [file_id|] eqn:Et.
  - rewrite insert_tags_ok; [by eexists|done|].
    intros x Hx. by apply list_elem_of_filter in Hx as [? _].
  - apply truthy_id_None_wf in Et; [|done].
    apply get_file_id_None in Et. rewrite decide_False by done.
    rewrite insert_tags_ok; [by eexists|done|].
    intros x Hx Heq. pose proof (wf_tags_ids s Hwf x Hx).
    pose proof (next_rowid_seq s). lia.
Qed.

Lemma wf_empty_store : wf_store empty_store.
Proof.
  constructor; simpl.
  - done.
  - intros r Hr. by apply elem_of_nil in Hr.
  - constructor.
  - constructor.
  - constructor.
  - intros r Hr. by apply elem_of_nil in Hr.
  - constructor.
Qed.

Lemma wf_sample_dirs : wf_store sample_dirs.
Proof.
  constructor; simpl.
  - done.
  - intros r Hr. by apply elem_of_nil in Hr.
  - constructor.
  - constructor.
  - constructor.
  - intros r Hr. by apply elem_of_nil in Hr.
  - compute_done.
Qed.

(** C1, as amended. Over a database that satisfies the schema, for every
    path [p] and every record [r] whose tags are pairwise distinct and
    whose size fits an INTEGER column: [save_metadata(p, r)] commits, and
    [load_metadata(p)] then returns a record whose tags are exactly the
    tags of [r] and whose [last_modified] is the clock reading that
    [save_metadata] took. That is at or after the [last_modified] passed
    in exactly when the value passed in is not later than the clock. *)
Theorem save_then_load now s p r :
  wf_store s → NoDup (FileMetadata.tags r) → int64 (FileMetadata.size r) →
  ∃ s' m,
    save_metadata now s p r = (FileMetadata.set_last_modified now r, Ok s') ∧
    load_metadata s' p = Some m ∧
    (∀ t, t ∈ FileMetadata.tags m ↔ t ∈ FileMetadata.tags r) ∧
    FileMetadata.last_modified m = now ∧
    (String.le (FileMetadata.last_modified r) (FileMetadata.last_modified m) ↔
     String.le (FileMetadata.last_modified r) now).
Proof.
  intros Hwf Hnd Hsize.
  destruct (save_succeeds now s p r Hwf Hnd Hsize) as [s' Hs'].
  exists s', (stored now r). split; [|split; [|split; [|split]]].
  - rewrite (surjective_pairing (save_metadata now s p r)).
    by rewrite Hs', save_metadata_stamp.
  - by apply (save_load now s p r).
  - intros t. simpl. by rewrite merge_sort_Permutation.
  - done.
  - done.
Qed.

(** The hypotheses of [save_then_load] hold for [sample_record] over the
    empty database. *)
Lemma save_then_load_witness :
  ∃ s' m,
    save_metadata "2024-06-01T12:00:00" empty_store "docs/report.txt" sample_record =
      (FileMetadata.set_last_modified "2024-06-01T12:00:00" sample_record, Ok s') ∧
    load_metadata s' "docs/report.txt" = Some m ∧
    (∀ t, t ∈ FileMetadata.tags m ↔ t ∈ FileMetadata.tags sample_record) ∧
    FileMetadata.last_modified m = "2024-06-01T12:00:00" ∧
    (String.le (FileMetadata.last_modified sample_record) (FileMetadata.last_modified m) ↔
     String.le (FileMetadata.last_modified sample_record) "2024-06-01T12:00:00").
Proof.
  apply save_then_load.
  - apply wf_empty_store.
  - compute_done.
  - compute_done.
Defined.

(** C1 fails as stated. A record stamped later than the clock reading is
    saved and comes back with a [last_modified] that is earlier than the
    one passed in; a record that lists a tag twice is not saved at all
    (the second [INSERT] violates [UNIQUE(file_id, tag)]). *)
Lemma save_then_load_counterexample :
  (∃ s' m,
     snd (save_metadata "2026-11-03T08:00:00" empty_store "report.txt" future_record) = Ok s' ∧
     load_metadata s' "report.txt" = Some m ∧
     ¬ String.le (FileMetadata.last_modified future_record) (FileMetadata.last_modified m)) ∧
  snd (save_metadata "2026-11-03T08:00:00" empty_store "report.txt" repeated_tag_record)
    = Raise IntegrityError.
Proof.
  split.
  - eexists _, _. split; [vm_compute; reflexivity|].
    split; [vm_compute; reflexivity|]. vm_compute. intros [].
  - vm_compute. reflexivity.
Qed.

(** C10. For records with pairwise distinct tags that were saved (over
    databases that satisfy the schema), [load_metadata] returns the tags
    in ascending order of the tag string, each once, whatever their order
    in the record passed to [save_metadata]; two records with the same set
    of tags load the same list. *)
Theorem load_tags_sorted now1 now2 s1 s2 p1 p2 r1 r2 s1' s2' :
  wf_store s1 → wf_store s2 →
  NoDup (FileMetadata.tags r1) → NoDup (FileMetadata.tags r2) →
  snd (save_metadata now1 s1 p1 r1) = Ok s1' →
  snd (save_metadata now2 s2 p2 r2) = Ok s2' →
  ∃ m1 m2,
    load_metadata s1' p1 = Some m1 ∧ load_metadata s2' p2 = Some m2 ∧
    Sorted String.le (FileMetadata.tags m1) ∧
    NoDup (FileMetadata.tags m1) ∧
    FileMetadata.tags m1 ≡ₚ FileMetadata.tags r1 ∧
    ((∀ t, t ∈ FileMetadata.tags r1 ↔ t ∈ FileMetadata.tags r2) →
     FileMetadata.tags m1 = FileMetadata.tags m2).
Proof.
  intros Hwf1 Hwf2 Hnd1 Hnd2 Hs1 Hs2.
  exists (stored now1 r1), (stored now2 r2).
  split; [by apply (save_load now1 s1)|].
  split; [by apply (save_load now2 s2)|]. simpl.
  split; [apply Sorted_merge_sort, _|].
  split; [by rewrite merge_sort_Permutation|].
  split; [apply merge_sort_Permutation|].
  intros Hsame. apply (Sorted_unique String.le).
  - apply Sorted_merge_sort, _.
  - apply Sorted_merge_sort, _.
  - rewrite !merge_sort_Permutation. by apply NoDup_Permutation.
Qed.

(** The hypotheses of [load_tags_sorted] hold for [sample_record] and for
    the same tags in another order. *)
Lemma load_tags_sorted_witness :
  ∃ m1 m2,
    load_metadata
      (Store [inserted_row 1 "docs/report.txt"
                (FileMetadata.set_last_modified "2024-06-01T12:00:00" sample_record)
                "2024-06-01T12:00:00"] 1
             (tag_rows 1 "2024-06-01T12:00:00" ["draft"; "2024"; "audit"]) [] (Some []))
      "docs/report.txt" = Some m1 ∧
    load_metadata
      (Store [inserted_row 1 "copy.txt"
                (FileMetadata.set_last_modified "2024-07-01T12:00:00" sample_record_reordered)
                "2024-07-01T12:00:00"] 1
             (tag_rows 1 "2024-07-01T12:00:00" ["audit"; "draft"; "2024"]) [] (Some []))
      "copy.txt" = Some m2 ∧
    Sorted String.le (FileMetadata.tags m1) ∧
    NoDup (FileMetadata.tags m1) ∧
    FileMetadata.tags m1 ≡ₚ FileMetadata.tags sample_record ∧
    ((∀ t, t ∈ FileMetadata.tags sample_record ↔ t ∈ FileMetadata.tags sample_record_reordered) →
     FileMetadata.tags m1 = FileMetadata.tags m2).
Proof.
  apply (load_tags_sorted "2024-06-01T12:00:00" "2024-07-01T12:00:00"
           empty_store empty_store "docs/report.txt" "copy.txt"
           sample_record sample_record_reordered).
  - apply wf_empty_store.
  - apply wf_empty_store.
  - compute_done.
  - compute_done.
  - vm_compute. reflexivity.
  - vm_compute. reflexivity.
Defined.

(** ** Creating a record *)

(** C3. Over a database that satisfies the schema, with pairwise distinct
    tags and a size that fits an INTEGER column, [create_metadata(p, size,
    is_public=d, ...)] commits a record that [load_metadata(p)] returns
    with the same [is_public]: the value of the nearest directory of the
    chain from [dirname(p)] upwards that has a non-null [is_public],
    whatever [d] is, and [d] when no directory of the chain has one. For
    a relative path [a/b/c/f] in normal form the chain is [a/b/c], [a/b],
    [a]; for any other path it is the list of directories that
    [get_directory_permission] looks up from [os.path.dirname(p)]. *)
Theorem create_metadata_inherits now_create now_save s file_path file_size
    is_public content_type created_by tags description notes locked :
  wf_store s → NoDup (default [] tags) → int64 file_size →
  ∃ m s' m',
    create_metadata now_create now_save s file_path file_size is_public
      content_type created_by tags description notes locked = (m, Ok s') ∧
    load_metadata s' file_path = Some m' ∧
    FileMetadata.is_public m' = FileMetadata.is_public m ∧
    (∀ dirs f below a above v,
       Forall component (dirs ++ [f]) → file_path = join (dirs ++ [f]) →
       ancestor_paths dirs = below ++ a :: above →
       (∀ d, d ∈ below → unset s d) → set_to s a v →
       FileMetadata.is_public m = bool_of_int v) ∧
    (∀ dirs f,
       Forall component (dirs ++ [f]) → file_path = join (dirs ++ [f]) →
       (∀ d, d ∈ ancestor_paths dirs → unset s d) →
       FileMetadata.is_public m = is_public) ∧
    (∀ below a above v,
       lookup_chain (dirname file_path) = below ++ a :: above →
       (∀ d, d ∈ below → unset s d) → set_to s a v →
       FileMetadata.is_public m = bool_of_int v) ∧
    ((∀ d, d ∈ lookup_chain (dirname file_path) → unset s d) →
     FileMetadata.is_public m = is_public).
Proof.
  intros Hwf Hnd Hsize. unfold create_metadata.
  set (inherited := get_directory_permission s (dirname file_path)).
  set (metadata := FileMetadata.mk _ _ _ _ _ _ _ _ _ _ _ _).
  destruct (save_succeeds now_save s file_path metadata Hwf Hnd Hsize) as [s' Hs'].
  exists (FileMetadata.set_last_modified now_save metadata), s', (stored now_save metadata).
  assert (∀ below a above v,
            lookup_chain (dirname file_path) = below ++ a :: above →
            (∀ d, d ∈ below → unset s d) → set_to s a v →
            inherited = Some (bool_of_int v)) as Hset.
  { intros below a above v Hc Hb Ha. subst inherited.
    rewrite get_directory_permission_chain, Hc.
    by rewrite (first_setting_nearest s below a above v (wf_dirs_unique s Hwf) Hb Ha). }
  assert ((∀ d, d ∈ lookup_chain (dirname file_path) → unset s d) →
          inherited = None) as Hunset.
  { intros Hu. subst inherited. rewrite get_directory_permission_chain.
    by rewrite first_setting_unset. }
  split; [|split; [|split; [|split; [|split; [|split]]]]].
  - rewrite (surjective_pairing (save_metadata _ _ _ _)).
    by rewrite Hs', save_metadata_stamp.
  - by apply (save_load now_save s).
  - done.
  - intros dirs f below a above v Hc -> Hchain Hb Ha. simpl.
    rewrite (Hset below a above v); [done| |done|done].
    by rewrite lookup_chain_dirname.
  - intros dirs f Hc -> Hu. simpl. rewrite Hunset; [done|].
    by rewrite lookup_chain_dirname.
  - intros below a above v Hc Hb Ha. simpl. by rewrite (Hset below a above v).
  - intros Hu. simpl. by rewrite Hunset.
Qed.

(** In [sample_dirs], where [docs] is public and [docs/reports] has a row
    that sets nothing: a file created in [docs/reports] with the default
    [False] is stored public, and one created in [inbox], above which
    nothing is set, keeps the default. *)
Lemma create_metadata_inherits_witness :
  wf_store sample_dirs ∧
  ancestor_paths ["docs"; "reports"] = ["docs/reports"] ++ "docs" :: [] ∧
  unset sample_dirs "docs/reports" ∧ set_to sample_dirs "docs" 1 ∧
  (∃ m s' m',
     create_metadata "2024-06-01T12:00:00" "2024-06-01T12:00:01" sample_dirs
       "docs/reports/q1.txt" 2048 false None None (Some ["draft"]) "" "" false
       = (m, Ok s') ∧
     load_metadata s' "docs/reports/q1.txt" = Some m' ∧
     FileMetadata.is_public m = true ∧
     FileMetadata.is_public m' = true) ∧
  (∃ m s' m',
     create_metadata "2024-06-01T12:00:00" "2024-06-01T12:00:01" sample_dirs
       "inbox/note.txt" 2048 false None None None "" "" false = (m, Ok s') ∧
     load_metadata s' "inbox/note.txt" = Some m' ∧
     FileMetadata.is_public m = false ∧
     FileMetadata.is_public m' = false).
Proof.
  assert (unset sample_dirs "docs/reports") as Hreports.
  { intros r Hr Hp. simpl in Hr.
    repeat (apply elem_of_cons in Hr as [->|Hr]; [by first [done | discriminate Hp]|]).
    by apply elem_of_nil in Hr. }
  assert (set_to sample_dirs "docs" 1) as Hdocs.
  { eexists. split; [left|]. done. }
  split; [apply wf_sample_dirs|]. split; [reflexivity|].
  split; [exact Hreports|]. split; [exact Hdocs|]. split.
  - destruct (create_metadata_inherits "2024-06-01T12:00:00" "2024-06-01T12:00:01"
                sample_dirs "docs/reports/q1.txt" 2048 false None None (Some ["draft"])
                "" "" false wf_sample_dirs ltac:(compute_done) ltac:(compute_done))
      as (m & s' & m' & Hc & Hl & Hsame & Hnear & _).
    assert (FileMetadata.is_public m = true) as Hm.
    { apply (Hnear ["docs"; "reports"] "q1.txt" ["docs/reports"] "docs" [] 1).
      - repeat constructor; compute_done.
      - reflexivity.
      - reflexivity.
      - intros d ->%list_elem_of_singleton. exact Hreports.
      - exact Hdocs. }
    exists m, s', m'. split; [exact Hc|]. split; [exact Hl|]. split; [exact Hm|].
    by rewrite Hsame.
  - destruct (create_metadata_inherits "2024-06-01T12:00:00" "2024-06-01T12:00:01"
                sample_dirs "inbox/note.txt" 2048 false None None None
                "" "" false wf_sample_dirs ltac:(compute_done) ltac:(compute_done))
      as (m & s' & m' & Hc & Hl & Hsame & _ & Hnone & _).
    assert (FileMetadata.is_public m = false) as Hm.
    { apply (Hnone ["inbox"] "note.txt").
      - repeat constructor; compute_done.
      - reflexivity.
      - intros d ->%list_elem_of_singleton r Hr Hp. simpl in Hr.
        repeat (apply elem_of_cons in Hr as [->|Hr]; [by first [done | discriminate Hp]|]).
        by apply elem_of_nil in Hr. }
    exists m, s', m'. split; [exact Hc|]. split; [exact Hl|]. split; [exact Hm|].
    by rewrite Hsame.
Defined.

Example create_metadata_samples :
  FileMetadata.is_public
    (create_metadata "2024-06-01T12:00:00" "2024-06-01T12:00:01" sample_dirs
       "docs/reports/q1.txt" 2048 false None None None "" "" false).1 = true ∧
  FileMetadata.is_public
    (create_metadata "2024-06-01T12:00:00" "2024-06-01T12:00:01" sample_dirs
       "docs/private/key.pem" 2048 true None None None "" "" false).1 = false ∧
  FileMetadata.is_public
    (create_metadata "2024-06-01T12:00:00" "2024-06-01T12:00:01" sample_dirs
       "inbox/note.txt" 2048 true None None None "" "" false).1 = true.
Proof. repeat split; compute_done. Qed.

(** ** The schema is kept *)

Lemma tags_unique_app tbl file_id now tags :
  NoDup ((λ r, (ft_file_id r, ft_tag r)) <$> tbl) →
  (∀ r, r ∈ tbl → ft_file_id r ≠ file_id) →
  NoDup tags →
  NoDup ((λ r, (ft_file_id r, ft_tag r)) <$> (tbl ++ tag_rows file_id now tags)).
Proof.
  intros Htbl Hfresh Hnd. rewrite fmap_app, tag_rows_keys.
  apply NoDup_app. split; [done|]. split.
  - intros k Hk Hk'.
    apply list_elem_of_fmap in Hk as (r & -> & Hr).
    apply list_elem_of_fmap in Hk' as (t & [= Hid _] & _).
    by apply (Hfresh r).
  - apply NoDup_fmap_2; [|done]. by intros t t' [= ->].
Qed.

Lemma save_metadata_wf now s p r s' :
  wf_store s → snd (save_metadata now s p r) = Ok s' → wf_store s'.
Proof.
  intros Hwf. unfold save_metadata. simpl.
  case_decide as Hsize; [|done].
  destruct (truthy_id (_get_file_id s p)) as [file_id|] eqn:Et.
  - apply truthy_id_Some in Et as [Hid Hnz].
    apply get_file_id_Some in Hid as (r0 & rest & Hf & Hid).
    assert (r0 ∈ file_metadata s) as Hr0.
    { assert (r0 ∈ filter (λ r, fm_file_path r = p) (file_metadata s)) as Hin
        by (rewrite Hf; left).
      by apply list_elem_of_filter in Hin as [_ ?]. }
    destruct (insert_tags _ _ _ _) as [tbl|] eqn:Ei; simpl; [|done].
    intros [= <-].
    pose proof (insert_tags_nodup _ _ _ _ _ Ei) as Hnd.
    apply insert_tags_ok_inv in Ei as ->.
    assert (Hids : fm_id <$> ((λ r1, if decide (fm_id r1 = file_id)
                                      then updated_row (FileMetadata.set_last_modified now r) now r1
                                      else r1) <$> file_metadata s)
                   = fm_id <$> file_metadata s).
    { rewrite <- list_fmap_compose. apply list_fmap_ext.
      intros i x _. simpl. by case_decide. }
    assert (Hpaths : fm_file_path <$> ((λ r1, if decide (fm_id r1 = file_id)
                                      then updated_row (FileMetadata.set_last_modified now r) now r1
                                      else r1) <$> file_metadata s)
                   = fm_file_path <$> file_metadata s).
    { rewrite <- list_fmap_compose. apply list_fmap_ext.
      intros i x _. simpl. by case_decide. }
    constructor; simpl.
    + apply (wf_seq s Hwf).
    + intros x Hx. apply list_elem_of_fmap in Hx as (y & -> & Hy).
      pose proof (wf_ids s Hwf y Hy). by case_decide.
    + rewrite Hids. apply (wf_ids_unique s Hwf).
    + rewrite Hpaths. apply (wf_paths_unique s Hwf).
    + apply tags_unique_app; [| |done].
      * eapply sublist_NoDup; [apply (wf_tags_unique s Hwf)|].
        apply fmap_sublist, sublist_filter.
      * intros x Hx. by apply list_elem_of_filter in Hx as [? _].
    + intros x [Hx|Hx]%elem_of_app.
      * apply list_elem_of_filter in Hx as [_ Hx]. by apply (wf_tags_ids s Hwf).
      * unfold tag_rows in Hx. apply list_elem_of_fmap in Hx as (t & -> & _). simpl.
        pose proof (wf_ids s Hwf r0 Hr0). lia.
    + apply (wf_dirs_unique s Hwf).
  - apply truthy_id_None_wf in Et; [|done].
    apply get_file_id_None in Et.
    rewrite decide_False by done.
    destruct (insert_tags _ _ _ _) as [tbl|] eqn:Ei; simpl; [|done].
    intros [= <-].
    pose proof (insert_tags_nodup _ _ _ _ _ Ei) as Hnd.
    apply insert_tags_ok_inv in Ei as ->.
    pose proof (next_rowid_seq s) as Hseq. pose proof (wf_seq s Hwf) as H0.
    constructor; simpl.
    + lia.
    + intros x [Hx|Hx]%elem_of_app.
      * pose proof (wf_ids s Hwf x Hx). lia.
      * apply list_elem_of_singleton in Hx as ->. unfold inserted_row. simpl. lia.
    + rewrite fmap_app. apply NoDup_app. split; [apply (wf_ids_unique s Hwf)|].
      split; [|apply NoDup_singleton].
      intros i Hi Hi'. apply list_elem_of_singleton in Hi' as ->.
      apply list_elem_of_fmap in Hi as (x & Hi & Hx).
      pose proof (next_rowid_fresh s x Hx). unfold inserted_row in Hi. simpl in Hi. lia.
    + rewrite fmap_app. apply NoDup_app. split; [apply (wf_paths_unique s Hwf)|].
      split; [|apply NoDup_singleton].
      intros q Hq Hq'. by apply list_elem_of_singleton in Hq' as ->.
    + apply tags_unique_app; [apply (wf_tags_unique s Hwf)| |done].
      intros x Hx. pose proof (wf_tags_ids s Hwf x Hx). lia.
    + intros x [Hx|Hx]%elem_of_app.
      * pose proof (wf_tags_ids s Hwf x Hx). lia.
      * unfold tag_rows in Hx. apply list_elem_of_fmap in Hx as (t & -> & _). simpl. lia.
    + apply (wf_dirs_unique s Hwf).
Qed.

Lemma without_wf ids s : wf_store s → wf_store (without ids s).
Proof.
  intros Hwf. constructor; simpl.
  - apply (wf_seq s Hwf).
  - intros x Hx. apply list_elem_of_filter in Hx as [_ Hx]. by apply (wf_ids s Hwf).
  - eapply sublist_NoDup; [apply (wf_ids_unique s Hwf)|].
    apply fmap_sublist, sublist_filter.
  - eapply sublist_NoDup; [apply (wf_paths_unique s Hwf)|].
    apply fmap_sublist, sublist_filter.
  - eapply sublist_NoDup; [apply (wf_tags_unique s Hwf)|].
    apply fmap_sublist, sublist_filter.
  - intros x Hx. apply list_elem_of_filter in Hx as [_ Hx]. by apply (wf_tags_ids s Hwf).
  - apply (wf_dirs_unique s Hwf).
Qed.

Lemma logged_wf result s : wf_store s → wf_store (logged result s).
Proof. intros [? ? ? ? ? ? ?]. by constructor. Qed.

(** ** What the consistency check reports *)

Lemma check_row_orphans self flt fs acc row :
  c_orphan_metadata (check_row self flt fs acc row) =
  c_orphan_metadata acc ++
  (if decide (is_orphan self flt fs row) then [orphan_of self row] else []).
Proof.
  destruct (decide (is_orphan self flt fs row)) as [(H1 & H2 & H3)|Hn];
    unfold check_row.
  - by rewrite H1, H2, H3.
  - destruct (exists_raises flt (fm_file_path row)) eqn:E1; simpl;
      [by rewrite app_nil_r|].
    destruct (fs_exists fs (fm_file_path row)) eqn:E2; simpl;
      [by rewrite app_nil_r|].
    destruct (_should_exclude_file self (fm_file_path row)) eqn:E3; simpl;
      [by rewrite app_nil_r|].
    by destruct Hn.
Qed.

Lemma foldl_check_row_orphans self flt fs rows acc :
  c_orphan_metadata (foldl (check_row self flt fs) acc rows) =
  c_orphan_metadata acc ++ (orphan_of self <$> filter (is_orphan self flt fs) rows).
Proof.
  revert acc. induction rows as [|row rows IH]; intros acc; simpl.
  - by rewrite app_nil_r.
  - rewrite IH, check_row_orphans, filter_cons.
    case_decide; simpl; by rewrite <- app_assoc.
Qed.

Lemma foldl_check_file_orphans flt s files acc :
  c_orphan_metadata (foldl (check_file flt s) acc files) = c_orphan_metadata acc.
Proof.
  revert acc. induction files as [|f files IH]; intros acc; simpl; [done|].
  rewrite IH. unfold check_file.
  destruct (load_raises flt f); [done|]. by destruct (load_metadata s f).
Qed.

Lemma check_consistency_orphans self flt s fs :
  c_orphan_metadata (check_consistency self flt s fs) =
  if db_unavailable flt then []
  else orphan_of self <$> filter (is_orphan self flt fs) (file_metadata s).
Proof.
  unfold check_consistency. destruct (db_unavailable flt); [done|].
  destruct (fs_exists fs ".").
  - by rewrite foldl_check_file_orphans, foldl_check_row_orphans.
  - by rewrite foldl_check_row_orphans.
Qed.

Lemma check_consistency_logged self flt result s fs :
  c_orphan_metadata (check_consistency self flt (logged result s) fs) =
  c_orphan_metadata (check_consistency self flt s fs).
Proof. by rewrite !check_consistency_orphans. Qed.

Lemma orphan_ids self (rows : list file_row) :
  o_id <$> (orphan_of self <$> rows) = fm_id <$> rows.
Proof. by rewrite <- list_fmap_compose. Qed.

Example check_consistency_sample :
  check_consistency sample_manager no_faults sample_store sample_fs =
  Consistency 4
    [Orphan 2 "gone.txt" "storage/files/gone.txt";
     Orphan 4 "old/gone.txt" "storage/files/old/gone.txt"]
    [] [].
Proof. compute_done. Qed.

(** C9. A row of [file_metadata] whose file is absent from the storage
    root and whose [file_path] contains one of the configured exclude
    patterns is never in [orphan_metadata], whatever else the database and
    the storage root hold and whichever operations fail. *)
Theorem excluded_never_orphan self flt s fs row pattern before after :
  row ∈ file_metadata s →
  fs_exists fs (fm_file_path row) = false →
  pattern ∈ CleanupConfig.exclude_patterns (config self) →
  fm_file_path row = before +:+ pattern +:+ after →
  fm_file_path row ∉
    o_file_path <$> c_orphan_metadata (check_consistency self flt s fs).
Proof.
  intros Hrow _ Hpat Hsub Hin.
  apply list_elem_of_fmap in Hin as (o & Heq & Ho).
  rewrite check_consistency_orphans in Ho.
  destruct (db_unavailable flt); [by apply elem_of_nil in Ho|].
  apply list_elem_of_fmap in Ho as (r & -> & Hr).
  apply list_elem_of_filter in Hr as [(_ & _ & Hex) _].
  simpl in Heq. unfold _should_exclude_file in Hex.
  rewrite <- Heq, (should_exclude_elem _ pattern) in Hex; [done..|].
  rewrite Hsub. apply str_in_app.
Qed.

(** The hypotheses of [excluded_never_orphan] hold for the row
    [cache/upload.tmp] of [sample_store] and the pattern [.tmp]. *)
Lemma excluded_never_orphan_witness :
  sample_row 3 "cache/upload.tmp" ∈ file_metadata sample_store ∧
  fs_exists sample_fs "cache/upload.tmp" = false ∧
  ".tmp" ∈ CleanupConfig.exclude_patterns (config sample_manager) ∧
  "cache/upload.tmp" ∉
    o_file_path <$> c_orphan_metadata
      (check_consistency sample_manager no_faults sample_store sample_fs).
Proof.
  assert (Hrow : sample_row 3 "cache/upload.tmp" ∈ file_metadata sample_store)
    by apply list_elem_of_further, list_elem_of_further, list_elem_of_here.
  assert (Hgone : fs_exists sample_fs "cache/upload.tmp" = false) by compute_done.
  assert (Hpat : ".tmp" ∈ CleanupConfig.exclude_patterns (config sample_manager))
    by compute_done.
  split; [exact Hrow|]. split; [exact Hgone|]. split; [exact Hpat|].
  apply (excluded_never_orphan sample_manager no_faults sample_store sample_fs
           (sample_row 3 "cache/upload.tmp") ".tmp" "cache/upload" ""
           Hrow Hgone Hpat).
  compute_done.
Defined.

(** ** The dry run *)

Lemma cleanup_attempt_dry_run self flt clk max_orphans s fs :
  snd (cleanup_attempt self flt clk true max_orphans s fs) = (s, fs).
Proof.
  unfold cleanup_attempt.
  by destruct (slice_to _ _).
Qed.

(** C8. For every database and storage root, every [max_orphans] and
    whichever operations fail, [cleanup_orphan_metadata(dry_run=True)]
    returns and leaves the database and the storage root as they were: no
    row of [file_metadata], [file_tags] or [cleanup_log] and no file is
    added or removed, so [check_consistency] reports the same orphans
    afterwards. *)
Theorem dry_run_changes_nothing self flt clk max_orphans w :
  ∃ result,
    cleanup_orphan_metadata self flt clk true max_orphans w = (Ok result, w) ∧
    c_orphan_metadata
      (check_consistency self flt
         (fst (snd (cleanup_orphan_metadata self flt clk true max_orphans w)))
         (snd (snd (cleanup_orphan_metadata self flt clk true max_orphans w)))) =
    c_orphan_metadata (check_consistency self flt (fst w) (snd w)).
Proof.
  assert (∃ result, cleanup_orphan_metadata self flt clk true max_orphans w = (Ok result, w))
    as [result Hr].
  { unfold cleanup_orphan_metadata.
    pose proof (cleanup_attempt_dry_run self flt clk
      (default (CleanupConfig.max_orphans_per_run (config self)) max_orphans)
      (fst w) (snd w)) as Hw.
    destruct (cleanup_attempt _ _ _ _ _ _ _) as [[[[[a b] c] d] e] [s fs]].
    simpl in Hw. injection Hw as -> ->. destruct w. by eexists. }
  exists result. by rewrite Hr.
Qed.

Example cleanup_sample_dry_run :
  cleanup_orphan_metadata sample_manager no_faults sample_clock true (Some 1)
    (sample_store, sample_fs) =
  (Ok (CleanupResult.mk "manual" 4 2 0 0 "2024-06-01T12:00:00" "2024-06-01T12:00:02"
         (Details None None (Some true) (Some 1) (Some ["gone.txt"]) None)),
   (sample_store, sample_fs)).
Proof. compute_done. Qed.

(** ** Where an exception escapes *)

Lemma delete_orphan_metadata_log flt s orphans n s' :
  _delete_orphan_metadata flt s orphans = Ok (n, s') →
  cleanup_log s' = cleanup_log s.
Proof.
  unfold _delete_orphan_metadata. destruct (db_unavailable flt); [done|].
  destruct (foldl _ _ _) as [[c t] r]. destruct (commit_raises flt); [done|].
  by intros [= _ <-].
Qed.

Lemma cleanup_attempt_log self flt clk dry_run max_orphans s fs :
  cleanup_log (fst (snd (cleanup_attempt self flt clk dry_run max_orphans s fs))) =
  cleanup_log s.
Proof.
  unfold cleanup_attempt.
  destruct (slice_to _ _) as [|o os]; [done|].
  destruct dry_run; [done|].
  destruct (CleanupConfig.backup_before_cleanup (config self)).
  - destruct (_backup_orphan_metadata _ _ _ _ _ _) as [[info fs']|]; simpl; [|done].
    destruct (_delete_orphan_metadata _ _ _) as [[n s']|] eqn:E; simpl; [|done].
    by eapply delete_orphan_metadata_log.
  - simpl. destruct (_delete_orphan_metadata _ _ _) as [[n s']|] eqn:E; simpl; [|done].
    by eapply delete_orphan_metadata_log.
Qed.

Lemma cleanup_attempt_errors self flt clk dry_run max_orphans s fs :
  let '((_, _, _, errors, details), _) :=
    cleanup_attempt self flt clk dry_run max_orphans s fs in
  errors = Z.of_nat (length (c_errors (check_consistency self flt s fs))) +
           match d_cleanup_error details with Some _ => 1 | None => 0 end ∧
  (c_errors (check_consistency self flt s fs) ≠ [] →
   d_errors details = Some (c_errors (check_consistency self flt s fs))).
Proof.
  unfold cleanup_attempt.
  set (es := c_errors (check_consistency self flt s fs)).
  destruct (slice_to _ _) as [|o os]; [simpl; split; [lia|by destruct es]|].
  destruct dry_run; [simpl; split; [lia|by destruct es]|].
  destruct (CleanupConfig.backup_before_cleanup (config self)).
  - destruct (_backup_orphan_metadata _ _ _ _ _ _) as [[info fs']|]; simpl;
      [|split; [lia|by destruct es]].
    destruct (_delete_orphan_metadata _ _ _) as [[n s']|]; simpl;
      (split; [lia|by destruct es]).
  - simpl.
    destruct (_delete_orphan_metadata _ _ _) as [[n s']|]; simpl;
      (split; [lia|by destruct es]).
Qed.

(** C2, as amended. [cleanup_orphan_metadata] raises exactly when it is not
    a dry run and the [cleanup_log] entry cannot be written: the call to
    [_log_cleanup_result] stands after the [try] block. Whatever else
    fails, the call returns; [errors] then counts the messages of the
    consistency check, plus one when the handler recorded
    [details.cleanup_error], and the messages are in [details.errors]. *)
Theorem cleanup_raises_only_from_log self flt clk dry_run max_orphans w :
  is_raise (fst (cleanup_orphan_metadata self flt clk dry_run max_orphans w)) =
    negb dry_run && log_write_fails flt (fst w) ∧
  ∀ result,
    fst (cleanup_orphan_metadata self flt clk dry_run max_orphans w) = Ok result →
    CleanupResult.errors result =
      Z.of_nat (length (c_errors (check_consistency self flt (fst w) (snd w)))) +
      match d_cleanup_error (CleanupResult.details result) with Some _ => 1 | None => 0 end ∧
    (c_errors (check_consistency self flt (fst w) (snd w)) ≠ [] →
     d_errors (CleanupResult.details result) =
       Some (c_errors (check_consistency self flt (fst w) (snd w)))).
Proof.
  unfold cleanup_orphan_metadata.
  pose proof (cleanup_attempt_log self flt clk dry_run
    (default (CleanupConfig.max_orphans_per_run (config self)) max_orphans)
    (fst w) (snd w)) as Hlog.
  pose proof (cleanup_attempt_errors self flt clk dry_run
    (default (CleanupConfig.max_orphans_per_run (config self)) max_orphans)
    (fst w) (snd w)) as Herr.
  destruct (cleanup_attempt _ _ _ _ _ _ _) as [[[[[a b] c] d] e] [s fs]].
  simpl in Hlog.
  destruct dry_run; simpl.
  { split; [done|]. by intros result [= <-]. }
  unfold _log_cleanup_result, log_write_fails. rewrite <- Hlog.
  destruct (db_unavailable flt); simpl; [split; [done|by intros]|].
  destruct (cleanup_log s); simpl.
  - destruct (log_insert_raises flt); simpl; [split; [done|by intros]|].
    split; [done|]. by intros result [= <-].
  - split; [done|by intros].
Qed.

(** C2 fails as stated. With the database unreachable, or with the
    [cleanup_log] table never created, a run that is not a dry run raises
    to its caller. *)
Lemma cleanup_raises_counterexample :
  fst (cleanup_orphan_metadata sample_manager db_down sample_clock false None
         (empty_store, sample_fs)) = Raise OperationalError ∧
  fst (cleanup_orphan_metadata sample_manager no_faults sample_clock false None
         (uninitialised_store, sample_fs)) = Raise OperationalError.
Proof. split; compute_done. Qed.

Example cleanup_sample_backup_fails :
  cleanup_orphan_metadata sample_manager disk_full sample_clock false None
    (sample_store, sample_fs) =
  (Ok (CleanupResult.mk "manual" 4 2 0 1 "2024-06-01T12:00:00" "2024-06-01T12:00:02"
         (Details None None None None None (Some OSError))),
   (logged (CleanupResult.mk "manual" 4 2 0 1 "2024-06-01T12:00:00" "2024-06-01T12:00:02"
              (Details None None None None None (Some OSError))) sample_store,
    sample_fs)).
Proof. compute_done. Qed.

(** A deletion that fails for one orphan is skipped: the run cleans the
    other one, leaves the row (its tags are gone), and counts no error. *)
Example cleanup_sample_row_locked :
  cleanup_orphan_metadata sample_manager row_two_locked sample_clock false None
    (sample_store, sample_fs) =
  (Ok (CleanupResult.mk "manual" 4 2 1 0 "2024-06-01T12:00:00" "2024-06-01T12:00:02"
         (Details None
            (Some (BackupInfo "storage/files/metadata_backup_20240601_120000.json" 2))
            None None (Some ["gone.txt"; "old/gone.txt"]) None)),
   (Store [sample_row 1 "kept.txt"; sample_row 2 "gone.txt";
           sample_row 3 "cache/upload.tmp"] 4 [] []
      (Some [CleanupResult.mk "manual" 4 2 1 0 "2024-06-01T12:00:00" "2024-06-01T12:00:02"
               (Details None
                  (Some (BackupInfo "storage/files/metadata_backup_20240601_120000.json" 2))
                  None None (Some ["gone.txt"; "old/gone.txt"]) None)]),
    sample_fs ++ [FsEntry "metadata_backup_20240601_120000.json" true])).
Proof. compute_done. Qed.

(** ** Runs that delete *)

Lemma writes_succeed_no_faults : writes_succeed no_faults.
Proof. repeat split. Qed.

Lemma foldl_delete_orphan flt orphans n tags rows :
  (∀ i, delete_tags_raises flt i = false) →
  (∀ i, delete_row_raises flt i = false) →
  foldl (delete_orphan flt) (n, tags, rows) orphans =
  (n + Z.of_nat (length orphans),
   filter (λ r, ft_file_id r ∉ o_id <$> orphans) tags,
   filter (λ r, fm_id r ∉ o_id <$> orphans) rows).
Proof.
  intros Ht Hr. revert n tags rows.
  induction orphans as [|o orphans IH]; intros n tags rows.
  - simpl. rewrite !filter_all by (intros ? _; apply not_elem_of_nil).
    by rewrite Z.add_0_r.
  - simpl. rewrite Ht, Hr, IH. f_equal; [f_equal|].
    + lia.
    + rewrite list_filter_filter. apply list_filter_iff.
      intros x. rewrite not_elem_of_cons. tauto.
    + rewrite list_filter_filter. apply list_filter_iff.
      intros x. rewrite not_elem_of_cons. tauto.
Qed.

Lemma delete_orphan_metadata_ok flt s orphans :
  writes_succeed flt →
  _delete_orphan_metadata flt s orphans =
  Ok (Z.of_nat (length orphans), without (o_id <$> orphans) s).
Proof.
  intros (Hdb & _ & Ht & Hr & Hc & _). unfold _delete_orphan_metadata.
  rewrite Hdb, foldl_delete_orphan, Hc by done. done.
Qed.

Lemma without_nil s : without [] s = s.
Proof.
  unfold without. rewrite !filter_all by (intros ? _; apply not_elem_of_nil).
  by destruct s.
Qed.

(** The storage root after the backup file is written. *)
Lemma backup_orphan_metadata_ok self flt clk s fs orphans :
  writes_succeed flt →
  ∃ info fs',
    _backup_orphan_metadata self flt clk s fs orphans = Ok (info, fs') ∧
    ∀ p, fs_exists fs' p =
         fs_exists fs p || bool_decide (normal p = normal (backup_name clk)).
Proof.
  intros (Hdb & Hb & _). unfold _backup_orphan_metadata. rewrite Hdb, Hb.
  eexists _, _. split; [done|]. intros p.
  destruct (fs_exists fs (backup_name clk)) eqn:E.
  - unfold fs_exists in *. apply bool_decide_eq_true in E.
    repeat case_bool_decide; try done. congruence.
  - unfold fs_exists. rewrite fmap_app. simpl.
    rewrite <- bool_decide_or. apply bool_decide_ext.
    by rewrite elem_of_app, list_elem_of_singleton.
Qed.

(** What a run that deletes leaves behind, when the writes go through. *)
Lemma cleanup_attempt_ok self flt clk max_orphans s fs :
  writes_succeed flt →
  ∃ checked found errors details fs',
    cleanup_attempt self flt clk false max_orphans s fs =
      ((checked, found,
        Z.of_nat (length (slice_to max_orphans
                            (c_orphan_metadata (check_consistency self flt s fs)))),
        errors, details),
       (without (o_id <$> slice_to max_orphans
                            (c_orphan_metadata (check_consistency self flt s fs))) s,
        fs')) ∧
    found = Z.of_nat (length (c_orphan_metadata (check_consistency self flt s fs))) ∧
    (fs' = fs ∨
     CleanupConfig.backup_before_cleanup (config self) = true ∧
     ∀ p, fs_exists fs' p =
          fs_exists fs p || bool_decide (normal p = normal (backup_name clk))).
Proof.
  intros Hw. unfold cleanup_attempt.
  destruct (slice_to _ _) as [|o os] eqn:E.
  - rewrite without_nil. eexists _, _, _, _, _. split; [done|]. split; [done|by left].
  - rewrite delete_orphan_metadata_ok by done.
    destruct (CleanupConfig.backup_before_cleanup (config self)) eqn:Eb.
    + destruct (backup_orphan_metadata_ok self flt clk s fs (o :: os) Hw)
        as (info & fs' & -> & Hfs).
      simpl. eexists _, _, _, _, _. split; [done|]. split; [done|by right].
    + simpl. eexists _, _, _, _, _. split; [done|]. split; [done|by left].
Qed.

Lemma log_cleanup_result_ok flt s result :
  writes_succeed flt → cleanup_log s ≠ None →
  _log_cleanup_result flt s result = Ok (logged result s).
Proof.
  intros (Hdb & _ & _ & _ & _ & Hl) Hlog. unfold _log_cleanup_result, logged.
  rewrite Hdb. destruct (cleanup_log s); [|done]. by rewrite Hl.
Qed.

(** A run that deletes, as a whole. *)
Lemma cleanup_orphan_metadata_ok self flt clk max_orphans s fs :
  writes_succeed flt → cleanup_log s ≠ None →
  ∃ result fs',
    cleanup_orphan_metadata self flt clk false max_orphans (s, fs) =
      (Ok result,
       (logged result
          (without (o_id <$> slice_to
                      (default (CleanupConfig.max_orphans_per_run (config self)) max_orphans)
                      (c_orphan_metadata (check_consistency self flt s fs))) s),
        fs')) ∧
    CleanupResult.orphans_found result =
      Z.of_nat (length (c_orphan_metadata (check_consistency self flt s fs))) ∧
    CleanupResult.orphans_cleaned result =
      Z.of_nat (length (slice_to
                  (default (CleanupConfig.max_orphans_per_run (config self)) max_orphans)
                  (c_orphan_metadata (check_consistency self flt s fs)))) ∧
    (fs' = fs ∨
     CleanupConfig.backup_before_cleanup (config self) = true ∧
     ∀ p, fs_exists fs' p =
          fs_exists fs p || bool_decide (normal p = normal (backup_name clk))).
Proof.
  intros Hw Hlog. unfold cleanup_orphan_metadata. simpl fst. simpl snd.
  destruct (cleanup_attempt_ok self flt clk
              (default (CleanupConfig.max_orphans_per_run (config self)) max_orphans)
              s fs Hw) as (checked & found & errors & details & fs' & -> & -> & Hfs).
  rewrite log_cleanup_result_ok by done.
  eexists _, _. split; [done|]. done.
Qed.

(** After every orphan is deleted, and with nothing removed from disk, no
    orphan is left. *)
Lemma no_orphans_left self flt s fs fs' :
  db_unavailable flt = false →
  (∀ p, fs_exists fs p = true → fs_exists fs' p = true) →
  c_orphan_metadata
    (check_consistency self flt
       (without (o_id <$> c_orphan_metadata (check_consistency self flt s fs)) s) fs')
  = [].
Proof.
  intros Hdb Hfs. rewrite !check_consistency_orphans, Hdb. simpl.
  rewrite orphan_ids, filter_none; [done|].
  intros r Hr (H1 & H2 & H3).
  apply list_elem_of_filter in Hr as [Hid Hr]. apply Hid.
  apply list_elem_of_fmap_2, list_elem_of_filter. split; [|done].
  split; [done|]. split; [|done].
  destruct (fs_exists fs (fm_file_path r)) eqn:E; [|done].
  apply Hfs in E. congruence.
Qed.

Example cleanup_sample :
  cleanup_orphan_metadata sample_manager no_faults sample_clock false None
    (sample_store, sample_fs) =
  (Ok (CleanupResult.mk "manual" 4 2 2 0 "2024-06-01T12:00:00" "2024-06-01T12:00:02"
         (Details None
            (Some (BackupInfo "storage/files/metadata_backup_20240601_120000.json" 2))
            None None (Some ["gone.txt"; "old/gone.txt"]) None)),
   (Store [sample_row 1 "kept.txt"; sample_row 3 "cache/upload.tmp"] 4 [] []
      (Some [CleanupResult.mk "manual" 4 2 2 0 "2024-06-01T12:00:00" "2024-06-01T12:00:02"
               (Details None
                  (Some (BackupInfo "storage/files/metadata_backup_20240601_120000.json" 2))
                  None None (Some ["gone.txt"; "old/gone.txt"]) None)]),
    sample_fs ++ [FsEntry "metadata_backup_20240601_120000.json" true])).
Proof. compute_done. Qed.

(** C6. When the writes of the two runs go through and [cleanup_log]
    exists: if [N] rows of [file_metadata] are orphans (the file of the
    row is absent from the storage root, its path matches no exclude
    pattern and the check of its file does not fail), with [N] at most
    [max_orphans_per_run], then [cleanup_orphan_metadata(dry_run=False)]
    finds [N] orphans and returns [orphans_cleaned = N], no row of the
    database it leaves is an orphan, and a second run on the state the
    first one left finds no orphan and returns [orphans_cleaned = 0]. *)
Theorem cleanup_twice self flt clk1 clk2 s fs (N : nat) :
  writes_succeed flt →
  cleanup_log s ≠ None →
  length (filter (is_orphan self flt fs) (file_metadata s)) = N →
  Z.of_nat N ≤ CleanupConfig.max_orphans_per_run (config self) →
  ∃ r1 s1 fs1 r2 w2,
    cleanup_orphan_metadata self flt clk1 false None (s, fs) = (Ok r1, (s1, fs1)) ∧
    CleanupResult.orphans_found r1 = Z.of_nat N ∧
    CleanupResult.orphans_cleaned r1 = Z.of_nat N ∧
    filter (is_orphan self flt fs1) (file_metadata s1) = [] ∧
    cleanup_orphan_metadata self flt clk2 false None (s1, fs1) = (Ok r2, w2) ∧
    CleanupResult.orphans_found r2 = 0 ∧
    CleanupResult.orphans_cleaned r2 = 0.
Proof.
  intros Hw Hlog HN Hmax.
  assert (Hdb : db_unavailable flt = false) by apply Hw.
  assert (Hcount : length (c_orphan_metadata (check_consistency self flt s fs)) = N).
  { by rewrite check_consistency_orphans, Hdb, length_fmap. }
  destruct (cleanup_orphan_metadata_ok self flt clk1 None s fs Hw Hlog)
    as (r1 & fs1 & Hrun1 & Hfound1 & Hcleaned1 & Hfs1).
  simpl in Hrun1, Hcleaned1.
  rewrite slice_to_all in Hrun1, Hcleaned1 by (by rewrite Hcount).
  rewrite Hcount in Hfound1, Hcleaned1.
  set (s1 := logged r1 _) in Hrun1.
  assert (Hlog1 : cleanup_log s1 ≠ None).
  { subst s1. simpl. by destruct (cleanup_log s). }
  destruct (cleanup_orphan_metadata_ok self flt clk2 None s1 fs1 Hw Hlog1)
    as (r2 & fs2 & Hrun2 & Hfound2 & Hcleaned2 & _).
  assert (Hnone : c_orphan_metadata (check_consistency self flt s1 fs1) = []).
  { subst s1. rewrite check_consistency_logged.
    apply no_orphans_left; [done|].
    intros p Hp. destruct Hfs1 as [->|[_ ->]]; [done|]. by rewrite Hp. }
  rewrite Hnone in Hfound2, Hcleaned2. simpl in Hcleaned2.
  rewrite slice_to_nil in Hcleaned2.
  eexists r1, s1, fs1, r2, _. split; [exact Hrun1|]. split; [done|]. split; [done|].
  split; [|split; [exact Hrun2|done]].
  rewrite check_consistency_orphans, Hdb in Hnone.
  by apply fmap_nil_inv in Hnone.
Qed.

(** Over [sample_fs], two rows of [sample_store] are orphans: the first
    run cleans 2, the second 0. *)
Lemma cleanup_twice_witness :
  length (filter (is_orphan sample_manager no_faults sample_fs)
            (file_metadata sample_store)) = 2%nat ∧
  ∃ r1 s1 fs1 r2 w2,
    cleanup_orphan_metadata sample_manager no_faults sample_clock false None
      (sample_store, sample_fs) = (Ok r1, (s1, fs1)) ∧
    CleanupResult.orphans_found r1 = 2 ∧
    CleanupResult.orphans_cleaned r1 = 2 ∧
    filter (is_orphan sample_manager no_faults fs1) (file_metadata s1) = [] ∧
    cleanup_orphan_metadata sample_manager no_faults later_clock false None (s1, fs1)
      = (Ok r2, w2) ∧
    CleanupResult.orphans_found r2 = 0 ∧
    CleanupResult.orphans_cleaned r2 = 0.
Proof.
  split; [reflexivity|].
  apply (cleanup_twice sample_manager no_faults sample_clock later_clock
           sample_store sample_fs 2).
  - apply writes_succeed_no_faults.
  - done.
  - reflexivity.
  - compute_done.
Defined.



Example cleanup_capped_sample :
  o_file_path <$> c_orphan_metadata
    (check_consistency sample_manager no_faults
       (fst (snd (cleanup_orphan_metadata sample_manager no_faults sample_clock false (Some 3)
                    (ten_orphans_store, sample_fs))))
       (snd (snd (cleanup_orphan_metadata sample_manager no_faults sample_clock false (Some 3)
                    (ten_orphans_store, sample_fs)))))
  = ["lost/d.txt"; "lost/e.txt"; "lost/f.txt"; "lost/g.txt"; "lost/h.txt";
     "lost/i.txt"; "lost/j.txt"].
Proof. compute_done. Qed.

(** * More of the metadata manager *)

(** ** What one operation leaves alone *)

(** [load_metadata] reads the rows of the path and the tags of their id,
    nothing else. *)
Lemma load_metadata_frame s s' q :
  filter (λ r, fm_file_path r = q) (file_metadata s') =
    filter (λ r, fm_file_path r = q) (file_metadata s) →
  (∀ r, r ∈ file_metadata s → fm_file_path r = q →
        filter (λ t, ft_file_id t = fm_id r) (file_tags s') =
        filter (λ t, ft_file_id t = fm_id r) (file_tags s)) →
  load_metadata s' q = load_metadata s q.
Proof.
  intros Hrows Htags. unfold load_metadata, _get_file_id. rewrite Hrows.
  destruct (filter _ (file_metadata s)) as [|r0 rest] eqn:Hf; [done|]. simpl.
  assert (r0 ∈ file_metadata s ∧ fm_file_path r0 = q) as [Hin Hq].
  { assert (r0 ∈ filter (λ r, fm_file_path r = q) (file_metadata s)) as H0
      by (rewrite Hf; left).
    apply list_elem_of_filter in H0. tauto. }
  case_decide; [done|]. unfold select_tags. by rewrite (Htags r0 Hin Hq).
Qed.

Lemma row_of_path s r0 rest p :
  filter (λ r, fm_file_path r = p) (file_metadata s) = r0 :: rest →
  r0 ∈ file_metadata s ∧ fm_file_path r0 = p.
Proof.
  intros Hf.
  assert (r0 ∈ filter (λ r, fm_file_path r = p) (file_metadata s)) as H0
    by (rewrite Hf; left).
  apply list_elem_of_filter in H0. tauto.
Qed.

Lemma wf_same_id s r1 r2 :
  wf_store s → r1 ∈ file_metadata s → r2 ∈ file_metadata s →
  fm_id r1 = fm_id r2 → r1 = r2.
Proof.
  intros Hwf H1 H2 Hid.
  pose proof (head_filter_unique fm_id (file_metadata s) r1 (wf_ids_unique s Hwf) H1) as E1.
  pose proof (head_filter_unique fm_id (file_metadata s) r2 (wf_ids_unique s Hwf) H2) as E2.
  rewrite Hid in E1. rewrite E1 in E2. by injection E2.
Qed.

(** [save_metadata] on one path changes no other path's record. *)
Lemma save_metadata_frame now s p r s' q :
  wf_store s → snd (save_metadata now s p r) = Ok s' → q ≠ p →
  load_metadata s' q = load_metadata s q.
Proof.
  intros Hwf Hsave Hq. revert Hsave. unfold save_metadata. simpl.
  case_decide as Hsize; [|done].
  destruct (truthy_id (_get_file_id s p)) as [file_id|] eqn:Et.
  - apply truthy_id_Some in Et as [Hid Hnz].
    apply get_file_id_Some in Hid as (r0 & rest & Hf & Hid).
    apply row_of_path in Hf as [Hr0 Hp0].
    destruct (insert_tags _ _ _ _) as [tbl|] eqn:Ei; simpl; [|done].
    intros [= <-]. apply insert_tags_ok_inv in Ei as ->.
    apply load_metadata_frame; simpl.
    + rewrite filter_fmap_stable by (intros x; by case_decide).
      transitivity (id <$> filter (λ r1, fm_file_path r1 = q) (file_metadata s));
        [|by rewrite list_fmap_id].
      apply list_fmap_ext. intros i x Hx.
      apply list_elem_of_lookup_2 in Hx. apply list_elem_of_filter in Hx as [Hxq Hx].
      case_decide as Hxid; [|done]. exfalso.
      assert (x = r0) by (apply (wf_same_id s); congruence). congruence.
    + intros x Hx Hxq. rewrite filter_app.
      rewrite (filter_none _ (tag_rows _ _ _)).
      * rewrite app_nil_r, list_filter_filter. apply filter_iff_elem.
        intros t _. split; [tauto|]. intros Ht. split; [done|].
        intros Hteq. assert (x = r0) by (apply (wf_same_id s); congruence). congruence.
      * intros t Ht Hteq. unfold tag_rows in Ht.
        apply list_elem_of_fmap in Ht as (tg & -> & _). simpl in Hteq.
        assert (x = r0) by (apply (wf_same_id s); congruence). congruence.
  - apply truthy_id_None_wf in Et; [|done].
    apply get_file_id_None in Et.
    rewrite decide_False by done.
    destruct (insert_tags _ _ _ _) as [tbl|] eqn:Ei; simpl; [|done].
    intros [= <-]. apply insert_tags_ok_inv in Ei as ->.
    apply load_metadata_frame; simpl.
    + rewrite filter_app, filter_cons, decide_False by (simpl; congruence).
      by rewrite app_nil_r.
    + intros x Hx Hxq. rewrite filter_app.
      rewrite (filter_none _ (tag_rows _ _ _)); [by rewrite app_nil_r|].
      intros t Ht Hteq. unfold tag_rows in Ht.
      apply list_elem_of_fmap in Ht as (tg & -> & _). simpl in Hteq.
      pose proof (next_rowid_fresh s x Hx). lia.
Qed.

Lemma load_metadata_None s p :
  load_metadata s p = None ↔ p ∉ fm_file_path <$> file_metadata s.
Proof.
  unfold load_metadata.
  destruct (filter _ _) as [|r0 rest] eqn:Hf; simpl.
  - split; [|done]. intros _ Hin.
    apply list_elem_of_fmap in Hin as (r & -> & Hr).
    assert (r ∈ filter (λ r0, fm_file_path r0 = fm_file_path r) (file_metadata s)) as H0
      by (by apply list_elem_of_filter).
    rewrite Hf in H0. by apply elem_of_nil in H0.
  - split; [done|]. intros Hn. exfalso. apply Hn.
    apply row_of_path in Hf as [Hr0 <-]. by apply list_elem_of_fmap_2.
Qed.

Lemma is_not_None_load s p :
  is_not_None (load_metadata s p) = bool_decide (p ∈ fm_file_path <$> file_metadata s).
Proof.
  destruct (load_metadata s p) eqn:E; simpl; symmetry.
  - apply bool_decide_eq_true. destruct (decide (p ∈ fm_file_path <$> file_metadata s)); [done|].
    apply load_metadata_None in n. congruence.
  - apply bool_decide_eq_false. by apply load_metadata_None.
Qed.

(** The tags of one file are pairwise distinct when the pairs are. *)
Lemma tags_of_id_nodup (tbl : list tag_row) file_id :
  NoDup ((λ r, (ft_file_id r, ft_tag r)) <$> tbl) →
  NoDup (ft_tag <$> filter (λ r, ft_file_id r = file_id) tbl).
Proof.
  induction tbl as [|t tbl IH]; [constructor|].
  rewrite fmap_cons. intros [Ht Hnd]%NoDup_cons. rewrite filter_cons.
  case_decide as Hid; [|by apply IH].
  rewrite fmap_cons. constructor; [|by apply IH].
  intros Hin. apply Ht. apply list_elem_of_fmap in Hin as (t' & Htag & Hin).
  apply list_elem_of_filter in Hin as [Hid' Hin].
  apply list_elem_of_fmap. exists t'. split; [|done]. congruence.
Qed.

Lemma merge_sort_idemp (l : list string) :
  merge_sort String.le (merge_sort String.le l) = merge_sort String.le l.
Proof.
  apply (Sorted_unique String.le).
  - apply Sorted_merge_sort, _.
  - apply Sorted_merge_sort, _.
  - apply merge_sort_Permutation.
Qed.

(** A record that was loaded from a database that satisfies the schema has
    its tags in order, each once. *)
Lemma load_metadata_tags s p m :
  wf_store s → load_metadata s p = Some m →
  merge_sort String.le (FileMetadata.tags m) = FileMetadata.tags m ∧
  NoDup (FileMetadata.tags m).
Proof.
  intros Hwf. unfold load_metadata.
  destruct (head _) as [row|]; simpl; [|done]. intros [= <-]. simpl.
  destruct (truthy_id _) as [file_id|].
  - unfold select_tags. split; [apply merge_sort_idemp|].
    rewrite merge_sort_Permutation. apply tags_of_id_nodup, (wf_tags_unique s Hwf).
  - split; [done|constructor].
Qed.

Lemma load_metadata_size s p m :
  load_metadata s p = Some m →
  ∃ r, r ∈ file_metadata s ∧ fm_file_path r = p ∧ FileMetadata.size m = fm_size r.
Proof.
  unfold load_metadata.
  destruct (filter _ _) as [|r0 rest] eqn:Hf; simpl; [done|].
  intros [= <-]. apply row_of_path in Hf as [? ?]. by exists r0.
Qed.

Lemma first_setting_dirs s s' dirs :
  directory_metadata s' = directory_metadata s →
  first_setting s' dirs = first_setting s dirs.
Proof.
  intros Hd. induction dirs as [|d dirs IH]; [done|]. simpl.
  unfold select_is_public. by rewrite Hd, IH.
Qed.

(** The permission of a directory is read off [directory_metadata] alone. *)
Lemma get_directory_permission_dirs s s' d :
  directory_metadata s' = directory_metadata s →
  get_directory_permission s' d = get_directory_permission s d.
Proof.
  intros Hd. rewrite !get_directory_permission_chain.
  by rewrite (first_setting_dirs s s').
Qed.

Lemma save_metadata_dirs now s p r s' :
  snd (save_metadata now s p r) = Ok s' →
  directory_metadata s' = directory_metadata s ∧ cleanup_log s' = cleanup_log s.
Proof.
  unfold save_metadata. simpl. case_decide; [|done].
  destruct (truthy_id _).
  - destruct (insert_tags _ _ _ _); simpl; [|done]. by intros [= <-].
  - case_decide; [done|].
    destruct (insert_tags _ _ _ _); simpl; [|done]. by intros [= <-].
Qed.

(** ** [save_metadata] touches one path *)

(** X1. Over a database that satisfies the schema, a [save_metadata(p, r)]
    that commits changes the record of [p] only: every other path loads
    the record it loaded before, and no directory setting, inherited or
    not, and no entry of the clean-up log changes. *)
Theorem save_metadata_touches_one_path now s p r s' :
  wf_store s → snd (save_metadata now s p r) = Ok s' →
  (∀ q, q ≠ p → load_metadata s' q = load_metadata s q) ∧
  (∀ d, get_directory_permission s' d = get_directory_permission s d) ∧
  directory_metadata s' = directory_metadata s ∧
  cleanup_log s' = cleanup_log s.
Proof.
  intros Hwf Hsave. destruct (save_metadata_dirs _ _ _ _ _ Hsave) as [Hd Hl].
  split; [|split; [|done]].
  - intros q Hq. by eapply save_metadata_frame.
  - intros d. by apply get_directory_permission_dirs.
Qed.

Lemma wf_sample_store : wf_store sample_store.
Proof.
  constructor; simpl.
  - done.
  - apply Forall_forall. compute_done.
  - compute_done.
  - compute_done.
  - compute_done.
  - apply Forall_forall. compute_done.
  - constructor.
Qed.

(** The hypotheses of [save_metadata_touches_one_path] hold for a save on
    [gone.txt] in [sample_store]. *)
Lemma save_metadata_touches_one_path_witness :
  ∃ s',
    snd (save_metadata "2024-06-01T12:00:00" sample_store "gone.txt" sample_record) = Ok s' ∧
    (∀ q, q ≠ "gone.txt" → load_metadata s' q = load_metadata sample_store q) ∧
    (∀ d, get_directory_permission s' d = get_directory_permission sample_store d) ∧
    directory_metadata s' = directory_metadata sample_store ∧
    cleanup_log s' = cleanup_log sample_store.
Proof.
  eexists. split; [vm_compute; reflexivity|].
  apply (save_metadata_touches_one_path "2024-06-01T12:00:00" sample_store
           "gone.txt" sample_record).
  - apply wf_sample_store.
  - vm_compute. reflexivity.
Defined.

(** ** [update_metadata] and the two setters *)

Lemma update_metadata_None now s p updates :
  load_metadata s p = None → update_metadata now s p updates = Ok (None, s).
Proof. unfold update_metadata. by intros ->. Qed.

Lemma update_metadata_Some now s p updates m :
  wf_store s → load_metadata s p = Some m →
  NoDup (FileMetadata.tags (foldl apply_update m updates)) →
  int64 (FileMetadata.size (foldl apply_update m updates)) →
  ∃ s',
    update_metadata now s p updates =
      Ok (Some (FileMetadata.set_last_modified now (foldl apply_update m updates)), s') ∧
    snd (save_metadata now s p (foldl apply_update m updates)) = Ok s' ∧
    load_metadata s' p = Some (stored now (foldl apply_update m updates)) ∧
    ∀ q, q ≠ p → load_metadata s' q = load_metadata s q.
Proof.
  intros Hwf Hload Hnd Hsize. unfold update_metadata. rewrite Hload.
  destruct (save_succeeds now s p _ Hwf Hnd Hsize) as [s' Hs'].
  exists s'. rewrite (surjective_pairing (save_metadata _ _ _ _)).
  rewrite Hs', save_metadata_stamp. simpl.
  split; [done|]. split; [done|]. split.
  - by eapply save_load.
  - intros q Hq. by eapply save_metadata_frame.
Qed.

Lemma update_metadata_Raise now s p updates m :
  load_metadata s p = Some m →
  ¬ (NoDup (FileMetadata.tags (foldl apply_update m updates)) ∧
     int64 (FileMetadata.size (foldl apply_update m updates))) →
  is_raise (update_metadata now s p updates) = true.
Proof.
  intros Hload Hbad. unfold update_metadata. rewrite Hload.
  rewrite (surjective_pairing (save_metadata _ _ _ _)).
  destruct (snd (save_metadata _ _ _ _)) as [s'|e] eqn:Hs; [|done].
  exfalso. apply Hbad. revert Hs. unfold save_metadata. simpl.
  case_decide as Hsize; [|done]. split; [|done].
  destruct (truthy_id _).
  - destruct (insert_tags _ _ _ _) eqn:Ei; [|done].
    by apply insert_tags_nodup in Ei.
  - case_decide; [done|].
    destruct (insert_tags _ _ _ _) eqn:Ei; [|done].
    by apply insert_tags_nodup in Ei.
Qed.

(** X2. Over a database that satisfies the schema, [update_metadata(p,
    **updates)] returns [None] and writes nothing when [p] has no record.
    Otherwise it applies the updates to the loaded record; when the
    resulting tags are pairwise distinct and the size fits an INTEGER
    column it commits, returns the record stamped with the clock reading,
    [load_metadata(p)] then returns that record with its tags in order,
    and every other path loads what it loaded before. When not, the
    exception of [save_metadata] reaches the caller. A [last_modified]
    among the updates is overwritten by the stamp. *)
Theorem update_metadata_stores now s p updates :
  wf_store s →
  match load_metadata s p with
  | None => update_metadata now s p updates = Ok (None, s)
  | Some m =>
      let m' := foldl apply_update m updates in
      if decide (NoDup (FileMetadata.tags m') ∧ int64 (FileMetadata.size m')) then
        ∃ s',
          update_metadata now s p updates =
            Ok (Some (FileMetadata.set_last_modified now m'), s') ∧
          load_metadata s' p = Some (stored now m') ∧
          ∀ q, q ≠ p → load_metadata s' q = load_metadata s q
      else is_raise (update_metadata now s p updates) = true
  end.
Proof.
  intros Hwf. destruct (load_metadata s p) as [m|] eqn:Hload.
  - simpl. case_decide as Hok.
    + destruct Hok as [Hnd Hsize].
      destruct (update_metadata_Some now s p updates m Hwf Hload Hnd Hsize)
        as (s' & Hu & _ & Hl & Hframe).
      by exists s'.
    + by eapply update_metadata_Raise.
  - by apply update_metadata_None.
Qed.

(** [update_metadata_stores] on [gone.txt] in [sample_store], with new
    tags, a lock and a [last_modified] that the stamp overwrites. *)
Lemma update_metadata_stores_witness :
  ∃ s',
    update_metadata "2024-06-01T12:00:00" sample_store "gone.txt"
      [SetTags ["b"; "a"]; SetLocked true; SetLastModified "1999-01-01T00:00:00"] =
      Ok (Some (FileMetadata.mk "gone.txt" 1024 "2024-05-01T09:30:00" "2024-06-01T12:00:00"
                  false "application/octet-stream" None ["b"; "a"] "" "" None true), s') ∧
    load_metadata s' "gone.txt" =
      Some (FileMetadata.mk "gone.txt" 1024 "2024-05-01T09:30:00" "2024-06-01T12:00:00"
              false "application/octet-stream" None ["a"; "b"] "" "" None true) ∧
    ∀ q, q ≠ "gone.txt" → load_metadata s' q = load_metadata sample_store q.
Proof.
  exact (update_metadata_stores "2024-06-01T12:00:00" sample_store "gone.txt"
           [SetTags ["b"; "a"]; SetLocked true; SetLastModified "1999-01-01T00:00:00"]
           wf_sample_store).
Defined.

Lemma stored_loaded now s p m u :
  wf_store s → load_metadata s p = Some m →
  FileMetadata.tags (apply_update m u) = FileMetadata.tags m →
  stored now (apply_update m u) = FileMetadata.set_last_modified now (apply_update m u).
Proof.
  intros Hwf Hload Htags. unfold stored, FileMetadata.set_last_modified.
  rewrite Htags. by destruct (load_metadata_tags s p m Hwf Hload) as [-> _].
Qed.

Lemma update_one_field now s p m u :
  wf_store s → sizes_int64 s → load_metadata s p = Some m →
  FileMetadata.tags (apply_update m u) = FileMetadata.tags m →
  FileMetadata.size (apply_update m u) = FileMetadata.size m →
  ∃ s',
    update_metadata now s p [u] =
      Ok (Some (FileMetadata.set_last_modified now (apply_update m u)), s') ∧
    load_metadata s' p = Some (FileMetadata.set_last_modified now (apply_update m u)) ∧
    ∀ q, q ≠ p → load_metadata s' q = load_metadata s q.
Proof.
  intros Hwf Hsizes Hload Htags Hsz.
  destruct (load_metadata_tags s p m Hwf Hload) as [_ Hnd].
  destruct (load_metadata_size s p m Hload) as (r & Hr & _ & Hsize).
  destruct (update_metadata_Some now s p [u] m Hwf Hload) as (s' & Hu & _ & Hl & Hframe).
  { simpl. by rewrite Htags. }
  { simpl. rewrite Hsz, Hsize. by apply Hsizes. }
  exists s'. simpl in *. by rewrite (stored_loaded now s p m u) in Hl.
Qed.

(** X3. Over a database that satisfies the schema and holds 64-bit sizes:
    [set_file_permission(p, v)] returns [False] and writes nothing when
    [p] has no record. Otherwise it returns [True]; afterwards
    [get_file_permission(p)] is [v], the record of [p] is the one it was
    with [is_public = v] and the clock reading as [last_modified] (its
    lock, tags and every other field as before), and every other path
    loads what it loaded before. *)
Theorem set_file_permission_sets now s p v :
  wf_store s → sizes_int64 s →
  match load_metadata s p with
  | None => set_file_permission now s p v = Ok (false, s)
  | Some m =>
      ∃ s',
        set_file_permission now s p v = Ok (true, s') ∧
        load_metadata s' p =
          Some (FileMetadata.set_last_modified now (apply_update m (SetIsPublic v))) ∧
        get_file_permission s' p = Some v ∧
        is_file_locked s' p = is_file_locked s p ∧
        ∀ q, q ≠ p → load_metadata s' q = load_metadata s q
  end.
Proof.
  intros Hwf Hsizes. destruct (load_metadata s p) as [m|] eqn:Hload.
  - destruct (update_one_field now s p m (SetIsPublic v) Hwf Hsizes Hload)
      as (s' & Hu & Hl & Hframe); [by destruct m..|].
    exists s'. unfold set_file_permission, get_file_permission, is_file_locked.
    rewrite Hu, Hl, Hload. simpl. by destruct m.
  - unfold set_file_permission. by rewrite update_metadata_None.
Qed.

Lemma sizes_sample_store : sizes_int64 sample_store.
Proof. unfold sizes_int64. apply Forall_forall. compute_done. Qed.

(** [set_file_permission_sets] on [gone.txt] in [sample_store]. *)
Lemma set_file_permission_sets_witness :
  ∃ s',
    set_file_permission "2024-06-01T12:00:00" sample_store "gone.txt" true = Ok (true, s') ∧
    load_metadata s' "gone.txt" =
      Some (FileMetadata.mk "gone.txt" 1024 "2024-05-01T09:30:00" "2024-06-01T12:00:00"
              true "application/octet-stream" None ["draft"] "" "" None false) ∧
    get_file_permission s' "gone.txt" = Some true ∧
    is_file_locked s' "gone.txt" = is_file_locked sample_store "gone.txt" ∧
    ∀ q, q ≠ "gone.txt" → load_metadata s' q = load_metadata sample_store q.
Proof.
  exact (set_file_permission_sets "2024-06-01T12:00:00" sample_store "gone.txt" true
           wf_sample_store sizes_sample_store).
Defined.

(** X4. Over a database that satisfies the schema and holds 64-bit sizes:
    [set_file_lock(p, v)] returns [False] and writes nothing when [p] has
    no record, and [is_file_locked(p)] is [False] for such a path.
    Otherwise it returns [True]; afterwards [is_file_locked(p)] and
    [get_file_lock(p)] give [v], the permission of [p] is what it was,
    and every other path loads what it loaded before. *)
Theorem set_file_lock_sets now s p v :
  wf_store s → sizes_int64 s →
  match load_metadata s p with
  | None =>
      set_file_lock now s p v = Ok (false, s) ∧
      is_file_locked s p = false ∧ get_file_lock s p = None
  | Some m =>
      ∃ s',
        set_file_lock now s p v = Ok (true, s') ∧
        load_metadata s' p =
          Some (FileMetadata.set_last_modified now (apply_update m (SetLocked v))) ∧
        is_file_locked s' p = v ∧
        get_file_lock s' p = Some v ∧
        get_file_permission s' p = get_file_permission s p ∧
        ∀ q, q ≠ p → load_metadata s' q = load_metadata s q
  end.
Proof.
  intros Hwf Hsizes. destruct (load_metadata s p) as [m|] eqn:Hload.
  - destruct (update_one_field now s p m (SetLocked v) Hwf Hsizes Hload)
      as (s' & Hu & Hl & Hframe); [by destruct m..|].
    exists s'. unfold set_file_lock, get_file_permission, get_file_lock, is_file_locked.
    rewrite Hu, Hl, Hload. simpl. by destruct m.
  - unfold set_file_lock, is_file_locked, get_file_lock.
    by rewrite update_metadata_None, Hload.
Qed.

(** [set_file_lock_sets] on [gone.txt] in [sample_store]. *)
Lemma set_file_lock_sets_witness :
  ∃ s',
    set_file_lock "2024-06-01T12:00:00" sample_store "gone.txt" true = Ok (true, s') ∧
    load_metadata s' "gone.txt" =
      Some (FileMetadata.mk "gone.txt" 1024 "2024-05-01T09:30:00" "2024-06-01T12:00:00"
              false "application/octet-stream" None ["draft"] "" "" None true) ∧
    is_file_locked s' "gone.txt" = true ∧
    get_file_lock s' "gone.txt" = Some true ∧
    get_file_permission s' "gone.txt" = get_file_permission sample_store "gone.txt" ∧
    ∀ q, q ≠ "gone.txt" → load_metadata s' q = load_metadata sample_store q.
Proof.
  exact (set_file_lock_sets "2024-06-01T12:00:00" sample_store "gone.txt" true
           wf_sample_store sizes_sample_store).
Defined.

(** ** [delete_metadata] and [move_metadata] *)

Lemma filter_ne_eq {A B} `{EqDecision B} (f : A → B) (p q : B) (l : list A) :
  q ≠ p → filter (λ r, f r = q) (filter (λ r, f r ≠ p) l) = filter (λ r, f r = q) l.
Proof.
  intros Hq. rewrite list_filter_filter. apply filter_iff_elem.
  intros x _. split; [tauto|]. intros Hx. split; [done|]. congruence.
Qed.

Lemma delete_metadata_load s p q :
  load_metadata (snd (delete_metadata false s p)) q =
  if decide (q = p) then None else load_metadata s q.
Proof.
  case_decide as Hq.
  - subst q. apply load_metadata_None. simpl.
    intros Hin. apply list_elem_of_fmap in Hin as (r & Hp & Hr).
    by apply list_elem_of_filter in Hr as [Hne _].
  - apply load_metadata_frame; simpl; [by apply filter_ne_eq|done].
Qed.

(** X5. [delete_metadata(p)] returns [True] whether or not [p] had a
    record, and [False] only when the database operation raises, in which
    case nothing changes. After it [load_metadata(p)] is [None], every
    other path loads what it loaded before, and deleting [p] again changes
    nothing. *)
Theorem delete_metadata_forgets s p :
  delete_metadata true s p = (false, s) ∧
  fst (delete_metadata false s p) = true ∧
  load_metadata (snd (delete_metadata false s p)) p = None ∧
  (∀ q, q ≠ p → load_metadata (snd (delete_metadata false s p)) q = load_metadata s q) ∧
  delete_metadata false (snd (delete_metadata false s p)) p = delete_metadata false s p.
Proof.
  split; [done|]. split; [done|]. split; [|split].
  - rewrite delete_metadata_load. by rewrite decide_True.
  - intros q Hq. rewrite delete_metadata_load. by rewrite decide_False.
  - unfold delete_metadata. simpl. f_equal. f_equal.
    rewrite list_filter_filter. apply filter_iff_elem. tauto.
Qed.

Lemma delete_metadata_wf s p : wf_store s → wf_store (snd (delete_metadata false s p)).
Proof.
  intros [H1 H2 H3 H4 H5 H6 H7]. constructor; simpl; try done.
  - intros r Hr. apply list_elem_of_filter in Hr as [_ Hr]. by apply H2.
  - eapply sublist_NoDup; [exact H3|]. apply fmap_sublist, sublist_filter.
  - eapply sublist_NoDup; [exact H4|]. apply fmap_sublist, sublist_filter.
Qed.

(** What [save_metadata] writes for a path that has no row. *)
Lemma save_metadata_new now s p r s' :
  p ∉ fm_file_path <$> file_metadata s →
  snd (save_metadata now s p r) = Ok s' →
  s' = Store (file_metadata s ++
              [inserted_row (next_rowid s) p (FileMetadata.set_last_modified now r) now])
         (next_rowid s)
         (file_tags s ++ tag_rows (next_rowid s) now (FileMetadata.tags r))
         (directory_metadata s) (cleanup_log s).
Proof.
  intros Hp. unfold save_metadata. simpl. case_decide; [|done].
  assert (_get_file_id s p = None) as ->.
  { unfold _get_file_id.
    destruct (filter _ _) as [|r0 rest] eqn:Hf; [done|].
    apply row_of_path in Hf as [Hr0 <-]. exfalso. apply Hp.
    by apply list_elem_of_fmap_2. }
  simpl. rewrite decide_False by done.
  destruct (insert_tags _ _ _ _) as [tbl|] eqn:Ei; simpl; [|done].
  intros [= <-]. by apply insert_tags_ok_inv in Ei as ->.
Qed.

(** X6. Over a database that satisfies the schema: after
    [delete_metadata(p)], a [create_metadata(p, ..., tags=T)] with
    pairwise distinct tags and a size that fits commits, and
    [load_metadata(p)] returns the new record with exactly the tags [T],
    in order. The rows that the deleted record left in [file_tags] are
    still in the table, and none of them is read for the new record: its
    id is one that was never used. *)
Theorem delete_then_create now_create now_save s p file_size is_public
    content_type created_by tags description notes locked :
  wf_store s → NoDup (default [] tags) → int64 file_size →
  ∃ m s2,
    create_metadata now_create now_save (snd (delete_metadata false s p)) p file_size
      is_public content_type created_by tags description notes locked = (m, Ok s2) ∧
    load_metadata s2 p =
      Some (apply_update m (SetTags (merge_sort String.le (default [] tags)))) ∧
    (∀ t, t ∈ file_tags s → t ∈ file_tags s2) ∧
    (∀ r, r ∈ file_metadata s → fm_file_path r = p → fm_id r ∉ fm_id <$> file_metadata s2).
Proof.
  intros Hwf Hnd Hsize.
  pose proof (delete_metadata_wf s p Hwf) as Hwf1.
  set (s1 := snd (delete_metadata false s p)) in *.
  unfold create_metadata.
  set (r := FileMetadata.mk _ _ _ _ _ _ _ _ _ _ _ _).
  destruct (save_succeeds now_save s1 p r Hwf1 Hnd Hsize) as [s2 Hs2].
  exists (FileMetadata.set_last_modified now_save r), s2.
  assert (p ∉ fm_file_path <$> file_metadata s1) as Hnone.
  { apply load_metadata_None. unfold s1.
    rewrite delete_metadata_load. by rewrite decide_True. }
  pose proof (save_metadata_new now_save s1 p r s2 Hnone Hs2) as Hs2'.
  split; [|split; [|split]].
  - rewrite (surjective_pairing (save_metadata _ _ _ _)).
    by rewrite Hs2, save_metadata_stamp.
  - by rewrite (save_load now_save s1 p r s2 Hwf1 Hs2).
  - intros t Ht. rewrite Hs2'. simpl. apply elem_of_app. by left.
  - intros r0 Hr0 Hp Hin. rewrite Hs2' in Hin. simpl in Hin.
    rewrite fmap_app, elem_of_app in Hin. destruct Hin as [Hin|Hin].
    + apply list_elem_of_fmap in Hin as (r1 & Hid & Hr1).
      apply list_elem_of_filter in Hr1 as [Hne Hr1].
      assert (r0 = r1) by (by apply (wf_same_id s)). congruence.
    + simpl in Hin. apply list_elem_of_singleton in Hin.
      pose proof (wf_ids s Hwf r0 Hr0) as Hid.
      pose proof (next_rowid_seq s1) as Hseq. simpl in Hseq. lia.
Qed.

(** [delete_then_create] on [gone.txt], which has the tag [draft] in
    [sample_store]. *)
Lemma delete_then_create_witness :
  ∃ m s2,
    create_metadata "2024-06-01T12:00:00" "2024-06-01T12:00:01"
      (snd (delete_metadata false sample_store "gone.txt")) "gone.txt" 10
      false None None (Some ["new"]) "" "" false = (m, Ok s2) ∧
    load_metadata s2 "gone.txt" =
      Some (apply_update m (SetTags (merge_sort String.le ["new"]))) ∧
    (∀ t, t ∈ file_tags sample_store → t ∈ file_tags s2) ∧
    (∀ r, r ∈ file_metadata sample_store → fm_file_path r = "gone.txt" →
          fm_id r ∉ fm_id <$> file_metadata s2).
Proof.
  apply (delete_then_create "2024-06-01T12:00:00" "2024-06-01T12:00:01" sample_store
           "gone.txt" 10 false None None (Some ["new"]) "" "" false).
  - apply wf_sample_store.
  - compute_done.
  - compute_done.
Defined.

(** X7. What [move_metadata] returns, for every database: [True] exactly
    when the database operation does not raise, [old_path] has a record
    and [new_path] is [old_path] or has no record. When it returns
    [False] the database is as it was: a record at [new_path] is never
    overwritten. *)
Theorem move_metadata_result raises now s old_path new_path :
  fst (move_metadata raises now s old_path new_path) =
    negb raises && is_not_None (load_metadata s old_path) &&
    (bool_decide (new_path = old_path) || negb (is_not_None (load_metadata s new_path))) ∧
  (fst (move_metadata raises now s old_path new_path) = false →
   snd (move_metadata raises now s old_path new_path) = s).
Proof.
  unfold move_metadata. destruct raises; [done|]. simpl.
  rewrite (is_not_None_load s new_path).
  destruct (load_metadata s old_path) as [m|] eqn:Hold.
  - destruct (filter _ _) as [|r0 rest] eqn:Hf.
    { exfalso. revert Hold. unfold load_metadata. by rewrite Hf. }
    simpl. case_decide as Hc; simpl.
    + destruct Hc as [Hne Hin]. rewrite bool_decide_eq_false_2 by done.
      by rewrite bool_decide_eq_true_2 by done.
    + split; [|done]. symmetry. apply orb_true_iff.
      destruct (decide (new_path = old_path)) as [->|Hne].
      * left. by apply bool_decide_eq_true.
      * right. apply negb_true_iff, bool_decide_eq_false. tauto.
  - apply load_metadata_None in Hold.
    destruct (filter _ _) as [|r0 rest] eqn:Hf; [done|].
    apply row_of_path in Hf as [Hr0 <-]. exfalso. apply Hold.
    by apply list_elem_of_fmap_2.
Qed.

Lemma moved_rows_filter now old_path new_path q (rows : list file_row) :
  filter (λ r, fm_file_path r = q)
    ((λ r, if decide (fm_file_path r = old_path)
           then moved_row new_path now r else r) <$> rows) =
  (λ r, if decide (fm_file_path r = old_path) then moved_row new_path now r else r) <$>
  filter (λ r, (fm_file_path r = old_path ∧ q = new_path) ∨
               (fm_file_path r ≠ old_path ∧ fm_file_path r = q)) rows.
Proof.
  induction rows as [|r rows IH]; [done|].
  rewrite fmap_cons, !filter_cons, IH.
  destruct (decide (fm_file_path r = old_path)) as [Ho|Ho]; simpl.
  - destruct (decide (new_path = q)) as [<-|Hq].
    + rewrite decide_True by tauto. rewrite fmap_cons. by rewrite decide_True.
    + by rewrite decide_False by (intros [[? ?]|[? ?]]; congruence).
  - destruct (decide (fm_file_path r = q)) as [Hq|Hq].
    + rewrite decide_True by tauto. rewrite fmap_cons. by rewrite decide_False.
    + by rewrite decide_False by tauto.
Qed.

(** X8. When [old_path] has a record and [new_path] is [old_path] or has
    none, [move_metadata] returns [True]; afterwards [load_metadata
    (new_path)] returns the record that [old_path] had, tags and
    [last_modified] included, with [filename] set to the base name of
    [new_path]; [old_path] has no record any more (unless it is
    [new_path]); and every other path loads what it loaded before. *)
Theorem move_metadata_moves now s old_path new_path m :
  load_metadata s old_path = Some m →
  new_path = old_path ∨ load_metadata s new_path = None →
  ∃ s',
    move_metadata false now s old_path new_path = (true, s') ∧
    load_metadata s' new_path =
      Some (apply_update m (SetFilename (basename new_path))) ∧
    (new_path ≠ old_path → load_metadata s' old_path = None) ∧
    (∀ q, q ≠ old_path → q ≠ new_path → load_metadata s' q = load_metadata s q).
Proof.
  intros Hold Hnew.
  assert (new_path ≠ old_path → new_path ∉ fm_file_path <$> file_metadata s) as Hfree.
  { intros Hne. destruct Hnew as [?|Hnew]; [done|]. by apply load_metadata_None. }
  unfold move_metadata.
  destruct (filter _ _) as [|r0 rest] eqn:Hf.
  { exfalso. revert Hold. unfold load_metadata. by rewrite Hf. }
  rewrite decide_False by (intros [? ?]; by apply Hfree).
  eexists. split; [done|]. split; [|split].
  - revert Hold. unfold load_metadata, _get_file_id. simpl.
    rewrite moved_rows_filter, Hf.
    rewrite (filter_iff_elem _ (λ r, fm_file_path r = old_path)).
    + rewrite Hf. simpl. pose proof (row_of_path _ _ _ _ Hf) as [_ Hp0].
      intros [= <-]. by rewrite (decide_True (P := fm_file_path r0 = old_path)) by done.
    + intros x Hx. split; [|tauto]. intros [[? _]|[Hxo Hxn]]; [done|].
      destruct (decide (new_path = old_path)) as [|Hne]; [congruence|].
      exfalso. apply (Hfree Hne). rewrite <- Hxn. by apply list_elem_of_fmap_2.
  - intros Hne. apply load_metadata_None. simpl. intros Hin.
    apply list_elem_of_fmap in Hin as (r & Hp & Hr).
    apply list_elem_of_fmap in Hr as (r' & -> & Hr').
    case_decide as Ho; simpl in Hp; congruence.
  - intros q Hqo Hqn. apply load_metadata_frame; simpl; [|done].
    rewrite moved_rows_filter.
    rewrite (filter_iff_elem _ (λ r, fm_file_path r = q)).
    + transitivity (id <$> filter (λ r, fm_file_path r = q) (file_metadata s));
        [|by rewrite list_fmap_id].
      apply list_fmap_ext. intros i x Hx.
      apply list_elem_of_lookup_2, list_elem_of_filter in Hx as [Hxq _].
      rewrite decide_False by congruence. done.
    + intros x _. split; [intros [[_ ?]|[_ ?]]; congruence|].
      intros Hx. right. split; congruence.
Qed.

(** [move_metadata_moves] from [gone.txt] to [archive/2024/gone.bak] in
    [sample_store]. *)
Lemma move_metadata_moves_witness :
  ∃ s',
    move_metadata false "2024-06-01T12:00:00" sample_store "gone.txt" "archive/2024/gone.bak"
      = (true, s') ∧
    load_metadata s' "archive/2024/gone.bak" =
      Some (FileMetadata.mk "gone.bak" 1024 "2024-05-01T09:30:00" "2024-05-01T09:30:00"
              false "application/octet-stream" None ["draft"] "" "" None false) ∧
    ("archive/2024/gone.bak" ≠ "gone.txt" → load_metadata s' "gone.txt" = None) ∧
    (∀ q, q ≠ "gone.txt" → q ≠ "archive/2024/gone.bak" →
          load_metadata s' q = load_metadata sample_store q).
Proof.
  apply (move_metadata_moves "2024-06-01T12:00:00" sample_store "gone.txt"
           "archive/2024/gone.bak"
           (FileMetadata.mk "gone.txt" 1024 "2024-05-01T09:30:00" "2024-05-01T09:30:00"
              false "application/octet-stream" None ["draft"] "" "" None false)).
  - reflexivity.
  - right. reflexivity.
Defined.

(** * Directory settings *)

(** The row that a look-up of [x] finds after the update-or-insert that
    [set_directory_permission] and [set_directory_lock] make for [d]. *)
Lemma upsert_head (f : dir_row → dir_row) (new : dir_row) d (tbl : list dir_row) x :
  (∀ r, dm_directory_path (f r) = dm_directory_path r) →
  dm_directory_path new = d →
  head (filter (λ r, dm_directory_path r = x)
          (match filter (λ r, dm_directory_path r = d) tbl with
           | _ :: _ => (λ r, if decide (dm_directory_path r = d) then f r else r) <$> tbl
           | [] => tbl ++ [new]
           end)) =
  if decide (x = d)
  then Some (match head (filter (λ r, dm_directory_path r = d) tbl) with
             | Some r => f r
             | None => new
             end)
  else head (filter (λ r, dm_directory_path r = x) tbl).
Proof.
  intros Hf Hnew. destruct (filter (λ r, dm_directory_path r = d) tbl) as [|r0 rest] eqn:Hd.
  - rewrite filter_app, filter_cons, filter_nil.
    destruct (decide (x = d)) as [Hx|Hx].
    + subst x. rewrite Hd. by rewrite decide_True.
    + rewrite decide_False by congruence. by rewrite app_nil_r.
  - rewrite filter_fmap_stable.
    2:{ intros r. case_decide; [by rewrite Hf|done]. }
    destruct (decide (x = d)) as [Hx|Hx].
    + subst x. rewrite Hd. simpl.
      assert (dm_directory_path r0 = d) as Hr0.
      { assert (r0 ∈ filter (λ r, dm_directory_path r = d) tbl) as H0 by (rewrite Hd; left).
        by apply list_elem_of_filter in H0 as [? _]. }
      by rewrite decide_True.
    + destruct (filter (λ r, dm_directory_path r = x) tbl) as [|r1 rest1] eqn:Hx1; [done|].
      simpl.
      assert (dm_directory_path r1 = x) as Hr1.
      { assert (r1 ∈ filter (λ r, dm_directory_path r = x) tbl) as H1 by (rewrite Hx1; left).
        by apply list_elem_of_filter in H1 as [? _]. }
      by rewrite decide_False by congruence.
Qed.

Lemma set_directory_permission_false raises now now_at wflt s fs d v :
  set_directory_permission raises now now_at wflt s fs d v false =
  set_directory_permission_flat raises now s fs d v.
Proof.
  unfold set_directory_permission.
  destruct (set_directory_permission_flat _ _ _ _ _ _) as [ok s'].
  by rewrite andb_false_r.
Qed.

Lemma set_directory_lock_false raises now now_at wflt s fs d v :
  set_directory_lock raises now now_at wflt s fs d v false =
  set_directory_lock_flat raises now s fs d v.
Proof.
  unfold set_directory_lock.
  destruct (set_directory_lock_flat _ _ _ _ _ _) as [ok s'].
  by rewrite andb_false_r.
Qed.

(** When the call writes, the directory is not the root, the tables of
    the files are left alone, and a look-up of [x] finds the row below. *)
Lemma set_directory_permission_flat_true raises now s fs d v :
  fst (set_directory_permission_flat raises now s fs d v) = true →
  ¬ (d = "" ∨ d = ".") ∧
  file_metadata (snd (set_directory_permission_flat raises now s fs d v)) = file_metadata s ∧
  file_metadata_seq (snd (set_directory_permission_flat raises now s fs d v)) =
    file_metadata_seq s ∧
  file_tags (snd (set_directory_permission_flat raises now s fs d v)) = file_tags s ∧
  cleanup_log (snd (set_directory_permission_flat raises now s fs d v)) = cleanup_log s ∧
  ∀ x,
    head (filter (λ r, dm_directory_path r = x)
            (directory_metadata (snd (set_directory_permission_flat raises now s fs d v)))) =
    if decide (x = d)
    then Some (match head (filter (λ r, dm_directory_path r = d) (directory_metadata s)) with
               | Some r => with_is_public v now r
               | None => DirRow d (Some (int_of_bool v)) 0 "" None now now
               end)
    else head (filter (λ r, dm_directory_path r = x) (directory_metadata s)).
Proof.
  unfold set_directory_permission_flat.
  case_decide as Hroot; [done|]. destruct raises; [done|].
  destruct (negb _ || negb _); [done|]. simpl. intros _.
  repeat (split; [done|]). intros x. by apply upsert_head.
Qed.

Lemma set_directory_lock_flat_true raises now s fs d v :
  fst (set_directory_lock_flat raises now s fs d v) = true →
  ¬ (d = "" ∨ d = ".") ∧
  file_metadata (snd (set_directory_lock_flat raises now s fs d v)) = file_metadata s ∧
  file_metadata_seq (snd (set_directory_lock_flat raises now s fs d v)) =
    file_metadata_seq s ∧
  file_tags (snd (set_directory_lock_flat raises now s fs d v)) = file_tags s ∧
  cleanup_log (snd (set_directory_lock_flat raises now s fs d v)) = cleanup_log s ∧
  ∀ x,
    head (filter (λ r, dm_directory_path r = x)
            (directory_metadata (snd (set_directory_lock_flat raises now s fs d v)))) =
    if decide (x = d)
    then Some (match head (filter (λ r, dm_directory_path r = d) (directory_metadata s)) with
               | Some r => with_locked v now r
               | None => DirRow d None (int_of_bool v) "" None now now
               end)
    else head (filter (λ r, dm_directory_path r = x) (directory_metadata s)).
Proof.
  unfold set_directory_lock_flat.
  case_decide as Hroot; [done|]. destruct raises; [done|].
  destruct (negb _ || negb _); [done|]. simpl. intros _.
  repeat (split; [done|]). intros x. by apply upsert_head.
Qed.

Lemma get_directory_permission_unfold s p :
  get_directory_permission s p =
  if decide (p = "" ∨ p = ".") then None
  else match select_is_public s p with
       | Some v => Some (bool_of_int v)
       | None => if decide (path_parent p ≠ p)
                 then get_directory_permission s (path_parent p) else None
       end.
Proof.
  rewrite !get_directory_permission_chain. unfold lookup_chain at 1.
  unfold depth_bound. simpl. case_decide as Hroot; [done|].
  simpl. destruct (select_is_public s p) as [v|]; [done|].
  case_decide as Hpar; [|done].
  unfold lookup_chain. f_equal. f_equal.
  pose proof (path_parent_measure p ltac:(tauto) ltac:(tauto) Hpar) as Hm.
  transitivity (lookup_chain_fuel
                  (Nat.max (String.length p) (depth_bound (path_parent p)))
                  (path_parent p)).
  - symmetry. apply lookup_chain_fuel_mono; [exact Hm | lia].
  - apply lookup_chain_fuel_mono; [apply depth_bound_measure | lia].
Qed.

Lemma set_directory_permission_flat_fst raises now s fs d v :
  fst (set_directory_permission_flat raises now s fs d v) =
  negb (bool_decide (d = "" ∨ d = ".")) && negb raises &&
  fs_exists fs d && fs_is_dir fs d.
Proof.
  unfold set_directory_permission_flat. case_decide as Hroot.
  - by rewrite bool_decide_eq_true_2.
  - rewrite bool_decide_eq_false_2 by done. destruct raises; [done|].
    by destruct (fs_exists fs d), (fs_is_dir fs d).
Qed.

Lemma set_directory_permission_flat_false raises now s fs d v :
  fst (set_directory_permission_flat raises now s fs d v) = false →
  snd (set_directory_permission_flat raises now s fs d v) = s.
Proof.
  unfold set_directory_permission_flat. case_decide; [done|].
  destruct raises; [done|]. by destruct (negb _ || negb _).
Qed.

Lemma set_directory_lock_flat_fst raises now s fs d v :
  fst (set_directory_lock_flat raises now s fs d v) =
  negb (bool_decide (d = "" ∨ d = ".")) && negb raises &&
  fs_exists fs d && fs_is_dir fs d.
Proof.
  unfold set_directory_lock_flat. case_decide as Hroot.
  - by rewrite bool_decide_eq_true_2.
  - rewrite bool_decide_eq_false_2 by done. destruct raises; [done|].
    by destruct (fs_exists fs d), (fs_is_dir fs d).
Qed.

Lemma set_directory_lock_flat_false raises now s fs d v :
  fst (set_directory_lock_flat raises now s fs d v) = false →
  snd (set_directory_lock_flat raises now s fs d v) = s.
Proof.
  unfold set_directory_lock_flat. case_decide; [done|].
  destruct raises; [done|]. by destruct (negb _ || negb _).
Qed.

(** What a look-up of [is_public] finds after the setting was written. *)
Lemma select_is_public_after_set raises now s fs d v x :
  fst (set_directory_permission_flat raises now s fs d v) = true →
  select_is_public (snd (set_directory_permission_flat raises now s fs d v)) x =
  if decide (x = d) then Some (int_of_bool v) else select_is_public s x.
Proof.
  intros Hok. apply set_directory_permission_flat_true in Hok as (_ & _ & _ & _ & _ & Hhead).
  unfold select_is_public. rewrite Hhead.
  destruct (decide (x = d)) as [->|Hx]; [|done].
  simpl. by destruct (head _).
Qed.

Lemma select_is_public_after_lock raises now s fs d v x :
  fst (set_directory_lock_flat raises now s fs d v) = true →
  select_is_public (snd (set_directory_lock_flat raises now s fs d v)) x =
  select_is_public s x.
Proof.
  intros Hok. apply set_directory_lock_flat_true in Hok as (_ & _ & _ & _ & _ & Hhead).
  unfold select_is_public. rewrite Hhead.
  destruct (decide (x = d)) as [->|Hx]; [|done].
  simpl. by destruct (head _).
Qed.

Lemma get_directory_lock_after_set raises now s fs d v x :
  fst (set_directory_permission_flat raises now s fs d v) = true →
  get_directory_lock (snd (set_directory_permission_flat raises now s fs d v)) x =
  get_directory_lock s x.
Proof.
  intros Hok. apply set_directory_permission_flat_true in Hok as (_ & _ & _ & _ & _ & Hhead).
  unfold get_directory_lock. case_decide; [done|]. rewrite Hhead.
  destruct (decide (x = d)) as [->|Hx]; [|done]. by destruct (head _).
Qed.

Lemma get_directory_lock_after_lock raises now s fs d v x :
  fst (set_directory_lock_flat raises now s fs d v) = true →
  get_directory_lock (snd (set_directory_lock_flat raises now s fs d v)) x =
  if decide (x = d) then Some v else get_directory_lock s x.
Proof.
  intros Hok. apply set_directory_lock_flat_true in Hok as (Hroot & _ & _ & _ & _ & Hhead).
  unfold get_directory_lock. rewrite Hhead.
  destruct (decide (x = d)) as [->|Hx]; [|done].
  rewrite decide_False by done.
  destruct (head _); simpl; by rewrite bool_of_int_of_bool.
Qed.

Lemma first_setting_ext s s' dirs :
  (∀ x, x ∈ dirs → select_is_public s' x = select_is_public s x) →
  first_setting s' dirs = first_setting s dirs.
Proof.
  induction dirs as [|x dirs IH]; intros Hsame; [done|]. simpl.
  rewrite Hsame by left. rewrite IH; [done|].
  intros y Hy. apply Hsame. by right.
Qed.

Lemma load_metadata_files s s' q :
  file_metadata s' = file_metadata s → file_tags s' = file_tags s →
  load_metadata s' q = load_metadata s q.
Proof. intros H1 H2. apply load_metadata_frame; by rewrite ?H1, ?H2. Qed.

(** X9. [set_directory_permission(d, v)] returns [True] exactly when [d]
    is neither empty nor ["."], no operation raises, and the path
    [storage_root / d] exists and is a directory. That the path lies
    below the storage root is not checked: the call succeeds for [..] or
    an absolute path when that is a directory. When it returns [False]
    nothing is written; when it returns [True],
    [get_directory_permission(d)] is [v] afterwards. *)
Theorem set_directory_permission_result raises now now_at wflt s fs d v :
  let r := set_directory_permission raises now now_at wflt s fs d v false in
  fst r = negb (bool_decide (d = "" ∨ d = ".")) && negb raises &&
          fs_exists fs d && fs_is_dir fs d ∧
  (fst r = false → snd r = s) ∧
  (fst r = true → get_directory_permission (snd r) d = Some v).
Proof.
  simpl. rewrite set_directory_permission_false.
  split; [apply set_directory_permission_flat_fst|].
  split; [apply set_directory_permission_flat_false|].
  intros Hok. rewrite get_directory_permission_unfold.
  rewrite (select_is_public_after_set _ _ _ _ _ _ d Hok).
  apply set_directory_permission_flat_true in Hok as (Hroot & _).
  rewrite decide_False by done. rewrite decide_True by done.
  by rewrite bool_of_int_of_bool.
Qed.

(** [inbox] is a directory of [sample_tree] and has no row in
    [sample_library]: the call inserts one. With the parent of the
    storage root among the entries, the call for [..] returns [True] as
    well and records a setting for it. *)
Lemma set_directory_permission_result_witness :
  get_directory_permission
    (snd (set_directory_permission false "2024-06-01T12:00:00" (λ _, "2024-06-01T12:00:01")
            no_walk_faults sample_library sample_tree "inbox" true false)) "inbox"
    = Some true ∧
  fst (set_directory_permission false "2024-06-01T12:00:00" (λ _, "2024-06-01T12:00:01")
         no_walk_faults sample_library (FsEntry ".." false :: sample_tree) ".." true false)
    = true ∧
  get_directory_permission
    (snd (set_directory_permission false "2024-06-01T12:00:00" (λ _, "2024-06-01T12:00:01")
            no_walk_faults sample_library (FsEntry ".." false :: sample_tree)
            ".." true false)) ".."
    = Some true.
Proof.
  split; [|split].
  - apply (set_directory_permission_result false "2024-06-01T12:00:00"
             (λ _, "2024-06-01T12:00:01") no_walk_faults sample_library sample_tree
             "inbox" true).
    reflexivity.
  - reflexivity.
  - apply (set_directory_permission_result false "2024-06-01T12:00:00"
             (λ _, "2024-06-01T12:00:01") no_walk_faults sample_library
             (FsEntry ".." false :: sample_tree) ".." true).
    reflexivity.
Defined.

(** X10. After a [set_directory_permission(d, v)] that returned [True]:
    every directory whose chain of look-ups reaches [d] before any
    directory with a setting of its own now has the permission [v]; a
    directory whose chain does not pass [d] has the permission it had;
    no record of a file changes (files that are already there keep their
    own [is_public]); and no directory lock changes. *)
Theorem set_directory_permission_inherited raises now now_at wflt s fs d v :
  fst (set_directory_permission raises now now_at wflt s fs d v false) = true →
  let s' := snd (set_directory_permission raises now now_at wflt s fs d v false) in
  (∀ p below above,
     lookup_chain p = below ++ d :: above →
     (∀ x, x ∈ below → unset s x) →
     get_directory_permission s' p = Some v) ∧
  (∀ p, d ∉ lookup_chain p →
        get_directory_permission s' p = get_directory_permission s p) ∧
  (∀ q, load_metadata s' q = load_metadata s q) ∧
  (∀ x, get_directory_lock s' x = get_directory_lock s x).
Proof.
  rewrite set_directory_permission_false. intros Hok. simpl.
  pose proof (λ x, select_is_public_after_set _ _ _ _ _ _ x Hok) as Hsel.
  split; [|split; [|split]].
  - intros p below above Hchain Hbelow.
    rewrite get_directory_permission_chain, Hchain.
    assert (first_setting (set_directory_permission_flat raises now s fs d v).2
              (below ++ d :: above) = Some (int_of_bool v)) as ->.
    { clear Hchain. induction below as [|x below IH]; simpl.
      - by rewrite (Hsel d), decide_True.
      - rewrite (Hsel x). case_decide; [done|].
        rewrite select_is_public_unset by (apply Hbelow; left).
        apply IH. intros y Hy. apply Hbelow. by right. }
    simpl. by rewrite bool_of_int_of_bool.
  - intros p Hp. rewrite !get_directory_permission_chain. f_equal.
    apply first_setting_ext. intros x Hx. rewrite (Hsel x).
    by rewrite decide_False by congruence.
  - intros q. apply set_directory_permission_flat_true in Hok as (_ & H1 & _ & H2 & _).
    by apply load_metadata_files.
  - intros x. by apply get_directory_lock_after_set.
Qed.

(** In [sample_library] over [sample_tree], [docs] is made public:
    [docs/reports], which has no setting, is public afterwards. *)
Lemma set_directory_permission_inherited_witness :
  let s' := snd (set_directory_permission false "2024-06-01T12:00:00"
                   (λ _, "2024-06-01T12:00:01") no_walk_faults sample_library sample_tree "docs" true false) in
  (∀ p below above,
     lookup_chain p = below ++ "docs" :: above →
     (∀ x, x ∈ below → unset sample_library x) →
     get_directory_permission s' p = Some true) ∧
  (∀ p, "docs" ∉ lookup_chain p →
        get_directory_permission s' p = get_directory_permission sample_library p) ∧
  (∀ q, load_metadata s' q = load_metadata sample_library q) ∧
  (∀ x, get_directory_lock s' x = get_directory_lock sample_library x).
Proof.
  apply (set_directory_permission_inherited false "2024-06-01T12:00:00"
           (λ _, "2024-06-01T12:00:01") no_walk_faults sample_library sample_tree "docs" true).
  reflexivity.
Defined.

Lemma upsert_paths (f : dir_row → dir_row) (new : dir_row) d (tbl : list dir_row) :
  (∀ r, dm_directory_path (f r) = dm_directory_path r) →
  dm_directory_path new = d →
  NoDup (dm_directory_path <$> tbl) →
  NoDup (dm_directory_path <$>
           match filter (λ r, dm_directory_path r = d) tbl with
           | _ :: _ => (λ r, if decide (dm_directory_path r = d) then f r else r) <$> tbl
           | [] => tbl ++ [new]
           end).
Proof.
  intros Hf Hnew Hnd. destruct (filter _ _) as [|r0 rest] eqn:Hd.
  - rewrite fmap_app. apply NoDup_app. split; [done|]. split; [|apply NoDup_singleton].
    intros x Hx Hx'. simpl in Hx'. apply list_elem_of_singleton in Hx'.
    apply list_elem_of_fmap in Hx as (r & -> & Hr).
    assert (r ∈ filter (λ r, dm_directory_path r = d) tbl) as H0
      by (apply list_elem_of_filter; split; congruence).
    rewrite Hd in H0. by apply elem_of_nil in H0.
  - rewrite <- list_fmap_compose.
    erewrite list_fmap_ext; [exact Hnd|].
    intros i r _. simpl. case_decide; [by rewrite Hf|done].
Qed.

Lemma set_directory_permission_flat_wf raises now s fs d v :
  wf_store s → wf_store (snd (set_directory_permission_flat raises now s fs d v)).
Proof.
  intros Hwf. unfold set_directory_permission_flat.
  case_decide; [done|]. destruct raises; [done|].
  destruct (negb _ || negb _); [done|]. simpl.
  destruct Hwf as [H1 H2 H3 H4 H5 H6 H7]. constructor; simpl; try done.
  by apply upsert_paths.
Qed.

Lemma set_directory_lock_flat_wf raises now s fs d v :
  wf_store s → wf_store (snd (set_directory_lock_flat raises now s fs d v)).
Proof.
  intros Hwf. unfold set_directory_lock_flat.
  case_decide; [done|]. destruct raises; [done|].
  destruct (negb _ || negb _); [done|]. simpl.
  destruct Hwf as [H1 H2 H3 H4 H5 H6 H7]. constructor; simpl; try done.
  by apply upsert_paths.
Qed.


Lemma wf_sample_library : wf_store sample_library.
Proof.
  constructor; simpl.
  - done.
  - apply Forall_forall. compute_done.
  - compute_done.
  - compute_done.
  - compute_done.
  - apply Forall_forall. compute_done.
  - compute_done.
Qed.


(** X12. [set_directory_lock(d, v)] returns [True] exactly when [d] is
    neither empty nor ["."], no operation raises, and the path
    [storage_root / d] exists and is a directory; that the path lies below
    the storage root is not checked ([..] or an absolute path is accepted
    when it is a directory). When it returns [False] nothing is written.
    When it returns [True], [get_directory_lock(d)] and
    [is_directory_locked(d)] give [v]; the lock of every other directory,
    those below [d] included, is what it was (a lock is not inherited);
    the permission of every directory, inherited or not, is what it was;
    and no record of a file changes. *)
Theorem set_directory_lock_result raises now now_at wflt s fs d v :
  let r := set_directory_lock raises now now_at wflt s fs d v false in
  fst r = negb (bool_decide (d = "" ∨ d = ".")) && negb raises &&
          fs_exists fs d && fs_is_dir fs d ∧
  (fst r = false → snd r = s) ∧
  (fst r = true →
   get_directory_lock (snd r) d = Some v ∧
   is_directory_locked (snd r) d = v ∧
   (∀ x, x ≠ d → get_directory_lock (snd r) x = get_directory_lock s x) ∧
   (∀ p, get_directory_permission (snd r) p = get_directory_permission s p) ∧
   (∀ q, load_metadata (snd r) q = load_metadata s q)).
Proof.
  simpl. rewrite set_directory_lock_false.
  split; [apply set_directory_lock_flat_fst|].
  split; [apply set_directory_lock_flat_false|].
  intros Hok.
  pose proof (λ x, get_directory_lock_after_lock _ _ _ _ _ _ x Hok) as Hlock.
  split; [|split; [|split; [|split]]].
  - by rewrite Hlock, decide_True.
  - unfold is_directory_locked. by rewrite Hlock, decide_True.
  - intros x Hx. by rewrite Hlock, decide_False.
  - intros p. rewrite !get_directory_permission_chain. f_equal.
    apply first_setting_ext. intros x _. by apply select_is_public_after_lock.
  - intros q. apply set_directory_lock_flat_true in Hok as (_ & H1 & _ & H2 & _).
    by apply load_metadata_files.
Qed.

(** [docs/reports] has no row in [sample_library]; locking it inserts one
    with no [is_public], so the directory stays private as [docs] is.
    With the parent of the storage root among the entries, the call for
    [..] returns [True] as well. *)
Lemma set_directory_lock_result_witness :
  (let s' := snd (set_directory_lock false "2024-06-01T12:00:00" (λ _, "2024-06-01T12:00:01")
                    no_walk_faults sample_library sample_tree "docs/reports" true false) in
   get_directory_lock s' "docs/reports" = Some true ∧
   is_directory_locked s' "docs/reports" = true ∧
   (∀ x, x ≠ "docs/reports" → get_directory_lock s' x = get_directory_lock sample_library x) ∧
   (∀ p, get_directory_permission s' p = get_directory_permission sample_library p) ∧
   (∀ q, load_metadata s' q = load_metadata sample_library q)) ∧
  fst (set_directory_lock false "2024-06-01T12:00:00" (λ _, "2024-06-01T12:00:01")
         no_walk_faults sample_library (FsEntry ".." false :: sample_tree) ".." true false)
    = true.
Proof.
  split; [|reflexivity].
  apply (set_directory_lock_result false "2024-06-01T12:00:00" (λ _, "2024-06-01T12:00:01")
           no_walk_faults sample_library sample_tree "docs/reports" true).
  reflexivity.
Defined.

(** * Applying a directory setting to what is below *)

Lemma save_metadata_sizes now s p r s' :
  sizes_int64 s → snd (save_metadata now s p r) = Ok s' → sizes_int64 s'.
Proof.
  intros Hs. unfold save_metadata. simpl. case_decide as Hsize; [|done].
  destruct (truthy_id _) as [file_id|].
  - destruct (insert_tags _ _ _ _); simpl; [|done]. intros [= <-].
    intros x Hx. simpl in Hx. apply list_elem_of_fmap in Hx as (y & -> & Hy).
    case_decide; [done|by apply Hs].
  - case_decide; [done|].
    destruct (insert_tags _ _ _ _); simpl; [|done]. intros [= <-].
    intros x Hx. simpl in Hx. apply elem_of_app in Hx as [Hx|Hx]; [by apply Hs|].
    by apply list_elem_of_singleton in Hx as ->.
Qed.

(** One call of a setter, as the walks below use it. *)
Lemma setter_step now s p u :
  wf_store s → sizes_int64 s →
  (∀ m, FileMetadata.tags (apply_update m u) = FileMetadata.tags m) →
  (∀ m, FileMetadata.size (apply_update m u) = FileMetadata.size m) →
  ∃ s',
    update_metadata now s p [u] =
      Ok ((λ m, FileMetadata.set_last_modified now (apply_update m u)) <$> load_metadata s p, s') ∧
    wf_store s' ∧ sizes_int64 s' ∧
    directory_metadata s' = directory_metadata s ∧
    (∀ q, q ≠ p → load_metadata s' q = load_metadata s q) ∧
    load_metadata s' p =
      (λ m, FileMetadata.set_last_modified now (apply_update m u)) <$> load_metadata s p.
Proof.
  intros Hwf Hsizes Htags Hsz.
  destruct (load_metadata s p) as [m|] eqn:Hload.
  - destruct (load_metadata_tags s p m Hwf Hload) as [_ Hnd].
    destruct (load_metadata_size s p m Hload) as (r & Hr & _ & Hsize).
    destruct (update_metadata_Some now s p [u] m Hwf Hload) as (s' & Hu & Hsave & Hl & Hframe).
    { simpl. by rewrite Htags. }
    { simpl. rewrite Hsz, Hsize. by apply Hsizes. }
    exists s'.
    pose proof (save_metadata_wf _ _ _ _ _ Hwf Hsave) as Hwf'.
    pose proof (save_metadata_sizes _ _ _ _ _ Hsizes Hsave) as Hsizes'.
    pose proof (save_metadata_dirs _ _ _ _ _ Hsave) as [Hdirs _].
    simpl in Hu, Hl.
    rewrite (stored_loaded now s p m u Hwf Hload (Htags m)) in Hl.
    done.
  - exists s. rewrite update_metadata_None by done. simpl. by rewrite Hload.
Qed.

(** The files and the directories that a walk handles. *)
Lemma items_not_root fs d item :
  item ∈ rglob fs d → ¬ (e_path item = "" ∨ e_path item = ".").
Proof.
  intros Hin. apply list_elem_of_filter in Hin as [(_ & _ & _ & Hrest & _) _].
  intros [E|E]; rewrite E in Hrest; apply Hrest.
  - change (tail (parse "")) with (@nil string). by rewrite drop_nil.
  - change (tail (parse ".")) with (@nil string). by rewrite drop_nil.
Qed.

Lemma item_is_dir fs item :
  normal_keys fs → item ∈ fs → e_is_file item = false →
  fs_exists fs (e_path item) = true ∧ fs_is_dir fs (e_path item) = true.
Proof.
  intros Hkeys Hin Hfile. unfold fs_exists, fs_is_dir.
  rewrite (Hkeys item Hin). split; apply bool_decide_eq_true.
  - by apply list_elem_of_fmap_2.
  - destruct item as [p f]. simpl in *. by subst f.
Qed.

Lemma get_directory_lock_dirs s s' x :
  directory_metadata s' = directory_metadata s →
  get_directory_lock s' x = get_directory_lock s x.
Proof. intros Hd. unfold get_directory_lock. by rewrite Hd. Qed.

Lemma select_is_public_dirs s s' x :
  directory_metadata s' = directory_metadata s →
  select_is_public s' x = select_is_public s x.
Proof. intros Hd. unfold select_is_public. by rewrite Hd. Qed.

Lemma set_directory_permission_flat_sizes raises now s fs d v :
  sizes_int64 s → sizes_int64 (snd (set_directory_permission_flat raises now s fs d v)).
Proof.
  intros Hs. unfold set_directory_permission_flat.
  case_decide; [done|]. destruct raises; [done|].
  by destruct (negb _ || negb _).
Qed.

Lemma set_directory_lock_flat_sizes raises now s fs d v :
  sizes_int64 s → sizes_int64 (snd (set_directory_lock_flat raises now s fs d v)).
Proof.
  intros Hs. unfold set_directory_lock_flat.
  case_decide; [done|]. destruct raises; [done|].
  by destruct (negb _ || negb _).
Qed.

Lemma rglob_items fs d i :
  i ∈ rglob fs d → i ∈ fs ∧ ¬ (e_path i = "" ∨ e_path i = ".").
Proof.
  intros Hi. split; [|by eapply items_not_root].
  by apply list_elem_of_filter in Hi as [_ ?].
Qed.

Lemma fmap_const_twice {A} (v : A) (o : option A) :
  (λ _, v) <$> ((λ _, v) <$> o) = (λ _, v) <$> o.
Proof. by destruct o. Qed.

(** ** The walk of [_apply_permission_to_children] *)

(** After the walk has been stopped, the loop does nothing. *)
Lemma permission_stopped now_at wflt fs v s items :
  foldl (permission_child now_at wflt fs v) (s, true) items = (s, true).
Proof. induction items as [|i items IH]; [done|]. exact IH. Qed.

(** One round of the loop, over a database that satisfies the schema. *)
Lemma permission_child_step now_at wflt fs v s0 i :
  normal_keys fs → i ∈ fs → ¬ (e_path i = "" ∨ e_path i = ".") →
  wf_store s0 → sizes_int64 s0 →
  ∃ s',
    permission_child now_at wflt fs v (s0, false) i = (s', walk_stops wflt i) ∧
    wf_store s' ∧ sizes_int64 s' ∧
    (call_goes_through wflt i = false → s' = s0) ∧
    (call_goes_through wflt i = true →
     walk_stops wflt i = false ∧
     (∀ q, get_file_lock s' q = get_file_lock s0 q) ∧
     (∀ x, get_directory_lock s' x = get_directory_lock s0 x) ∧
     if e_is_file i
     then (∀ q, q ≠ e_path i → load_metadata s' q = load_metadata s0 q) ∧
          get_file_permission s' (e_path i) =
            (λ _, v) <$> get_file_permission s0 (e_path i) ∧
          (∀ x, select_is_public s' x = select_is_public s0 x)
     else (∀ q, load_metadata s' q = load_metadata s0 q) ∧
          (∀ x, select_is_public s' x =
                if decide (x = e_path i) then Some (int_of_bool v)
                else select_is_public s0 x)).
Proof.
  intros Hkeys Hifs Hiroot Hwf Hsizes.
  unfold permission_child, walk_stops, call_goes_through.
  destruct (walk_raises wflt (e_path i)) eqn:Ew.
  { exists s0. simpl. by split_and!. }
  destruct (skipped_name (name (e_path i))) eqn:Es.
  { exists s0. simpl. by split_and!. }
  destruct (e_is_file i) eqn:Ef.
  - destruct (call_raises wflt (e_path i)) eqn:Ec.
    { exists s0. simpl. by split_and!. }
    destruct (setter_step (now_at (e_path i)) s0 (e_path i) (SetIsPublic v) Hwf Hsizes)
      as (s' & Hu & Hwf' & Hsizes' & Hdirs & Hframe & Hload); [by intros []..|].
    unfold set_file_permission. rewrite Hu. simpl. exists s'.
    split_and!; try done. intros _. split_and!; try done.
    + intros q. unfold get_file_lock. destruct (decide (q = e_path i)) as [->|Hne].
      * rewrite Hload. by destruct (load_metadata s0 (e_path i)) as [[]|].
      * by rewrite Hframe.
    + intros x. by apply get_directory_lock_dirs.
    + unfold get_file_permission. rewrite Hload.
      by destruct (load_metadata s0 (e_path i)) as [[]|].
    + intros x. by apply select_is_public_dirs.
  - destruct (item_is_dir fs i Hkeys Hifs Ef) as [Hex Hisdir].
    pose proof (set_directory_permission_flat_fst (call_raises wflt (e_path i))
                  (now_at (e_path i)) s0 fs (e_path i) v) as Hfst.
    rewrite Hex, Hisdir, bool_decide_eq_false_2, !andb_true_r in Hfst by done.
    simpl in Hfst.
    pose proof (set_directory_permission_flat_wf (call_raises wflt (e_path i))
                  (now_at (e_path i)) s0 fs (e_path i) v Hwf) as Hwf'.
    pose proof (set_directory_permission_flat_sizes (call_raises wflt (e_path i))
                  (now_at (e_path i)) s0 fs (e_path i) v Hsizes) as Hsizes'.
    set (s' := snd (set_directory_permission_flat _ _ s0 fs (e_path i) v)) in *.
    exists s'. rewrite andb_false_r. simpl.
    destruct (call_raises wflt (e_path i)) eqn:Ec; simpl in Hfst.
    + assert (s' = s0) as -> by (by apply set_directory_permission_flat_false).
      by split_and!.
    + split_and!; try done. intros _. split_and!; try done.
      * intros q. unfold get_file_lock.
        apply set_directory_permission_flat_true in Hfst as (_ & H1 & _ & H2 & _).
        by rewrite (load_metadata_files s0 s').
      * intros x. by apply get_directory_lock_after_set.
      * intros q. apply set_directory_permission_flat_true in Hfst as (_ & H1 & _ & H2 & _).
        by apply load_metadata_files.
      * intros x. by apply select_is_public_after_set.
Qed.

(** The items for which a call went through are those that the walk
    reaches and handles. *)
Lemma call_goes_through_true wflt j :
  call_goes_through wflt j = true ↔
  walk_raises wflt (e_path j) = false ∧ call_raises wflt (e_path j) = false ∧
  skipped_name (name (e_path j)) = false.
Proof.
  unfold call_goes_through. rewrite !andb_true_iff, !negb_true_iff. tauto.
Qed.

Lemma call_goes_through_walks wflt j :
  call_goes_through wflt j = true → walk_stops wflt j = false.
Proof.
  intros (Hw & Hc & Hs)%call_goes_through_true. unfold walk_stops.
  by rewrite Hw, Hc, andb_false_r.
Qed.

Lemma walked_prefix wflt before j after :
  (∀ i, i ∈ before → walk_stops wflt i = false) →
  call_goes_through wflt j = true →
  j ∈ walked wflt (before ++ j :: after).
Proof.
  intros Hbefore Hj. induction before as [|b before IH]; simpl.
  - rewrite (call_goes_through_walks wflt j Hj), Hj. left.
  - rewrite (Hbefore b) by left.
    assert (j ∈ walked wflt (before ++ j :: after)) as Hin
      by (apply IH; intros i Hi; apply Hbefore; by right).
    destruct (call_goes_through wflt b); [by right|done].
Qed.

Lemma walked_inv wflt items j :
  j ∈ walked wflt items →
  ∃ before after,
    items = before ++ j :: after ∧
    (∀ i, i ∈ before → walk_stops wflt i = false) ∧
    call_goes_through wflt j = true.
Proof.
  induction items as [|b items IH]; simpl; [by intros ?%elem_of_nil|].
  destruct (walk_stops wflt b) eqn:Eb; [by intros ?%elem_of_nil|].
  intros Hj.
  assert (j ∈ walked wflt items →
          ∃ before after, b :: items = before ++ j :: after ∧
            (∀ i, i ∈ before → walk_stops wflt i = false) ∧
            call_goes_through wflt j = true) as Hrest.
  { intros (before & after & -> & Hb & Hc)%IH. exists (b :: before), after.
    split; [done|]. split; [|done].
    intros i [->|Hi]%elem_of_cons; [done|by apply Hb]. }
  destruct (call_goes_through wflt b) eqn:Ec; [|by apply Hrest].
  apply elem_of_cons in Hj as [->|Hj]; [|by apply Hrest].
  exists [], items. split; [done|]. split; [|done]. by intros i ?%elem_of_nil.
Qed.

Lemma nodup_decomposition {A B} (f : A → B) (l b1 a1 b2 a2 : list A) x y :
  NoDup (f <$> l) → l = b1 ++ x :: a1 → l = b2 ++ y :: a2 → f x = f y →
  b1 = b2 ∧ x = y.
Proof.
  intros Hnd -> Heq Hf. revert b2 Heq Hnd.
  induction b1 as [|z b1 IH]; intros [|z' b2] Heq Hnd.
  - by injection Heq as -> _.
  - injection Heq as -> ->. exfalso.
    change (NoDup (f z' :: (f <$> b2 ++ y :: a2))) in Hnd.
    apply NoDup_cons in Hnd as [Hx _]. apply Hx.
    rewrite Hf. apply list_elem_of_fmap_2, elem_of_app. right. left.
  - injection Heq as <- <-. exfalso.
    change (NoDup (f z :: (f <$> b1 ++ x :: a1))) in Hnd.
    apply NoDup_cons in Hnd as [Hy _]. apply Hy.
    rewrite <- Hf. apply list_elem_of_fmap_2, elem_of_app. right. left.
  - injection Heq as -> Heq.
    change (NoDup (f z' :: (f <$> b1 ++ x :: a1))) in Hnd.
    apply NoDup_cons in Hnd as [_ Hnd].
    destruct (IH b2 Heq Hnd) as [-> ->]. done.
Qed.

(** Where no two entries share a path, an item that the walk does not
    reach or does not handle is not the path of one it handles. *)
Lemma not_walked wflt items before item after j :
  NoDup (e_path <$> items) →
  items = before ++ item :: after →
  (∃ i, i ∈ before ∧ walk_stops wflt i = true) ∨
  walk_raises wflt (e_path item) = true ∨
  call_raises wflt (e_path item) = true ∨
  skipped_name (name (e_path item)) = true →
  j ∈ walked wflt items → e_path j ≠ e_path item.
Proof.
  intros Hnd Heq Hbad (b' & a' & Heq' & Hb' & Hc)%walked_inv Hp.
  destruct (nodup_decomposition e_path items b' a' before after j item Hnd Heq' Heq Hp)
    as [-> ->].
  apply call_goes_through_true in Hc as (Hw & Hcr & Hs).
  destruct Hbad as [(i & Hi & Hstop)|[?|[?|?]]]; [|congruence..].
  rewrite Hb' in Hstop by done. done.
Qed.

(** What the walk has done when it ends. *)
Lemma permission_walk now_at wflt fs v items :
  normal_keys fs →
  (∀ i, i ∈ items → i ∈ fs ∧ ¬ (e_path i = "" ∨ e_path i = ".")) →
  ∀ s0, wf_store s0 → sizes_int64 s0 →
  ∃ s1 stopped,
    foldl (permission_child now_at wflt fs v) (s0, false) items = (s1, stopped) ∧
    (∀ q, (∀ j, j ∈ walked wflt items → e_path j ≠ q) →
          load_metadata s1 q = load_metadata s0 q) ∧
    (∀ j, j ∈ walked wflt items → e_is_file j = true →
          get_file_permission s1 (e_path j) =
            (λ _, v) <$> get_file_permission s0 (e_path j)) ∧
    (∀ q, get_file_permission s1 q = get_file_permission s0 q ∨
          get_file_permission s1 q = (λ _, v) <$> get_file_permission s0 q) ∧
    (∀ q, get_file_lock s1 q = get_file_lock s0 q) ∧
    (∀ j, j ∈ walked wflt items → e_is_file j = false →
          select_is_public s1 (e_path j) = Some (int_of_bool v)) ∧
    (∀ x, (∀ j, j ∈ walked wflt items → e_path j ≠ x) →
          select_is_public s1 x = select_is_public s0 x) ∧
    (∀ x, select_is_public s1 x = select_is_public s0 x ∨
          select_is_public s1 x = Some (int_of_bool v)) ∧
    (∀ x, get_directory_lock s1 x = get_directory_lock s0 x).
Proof.
  intros Hkeys. induction items as [|i items IH]; intros Hitems s0 Hwf Hsizes.
  { exists s0, false. split_and!; try done; try (by left);
      by intros j ?%elem_of_nil. }
  destruct (Hitems i ltac:(left)) as [Hifs Hiroot].
  destruct (permission_child_step now_at wflt fs v s0 i Hkeys Hifs Hiroot Hwf Hsizes)
    as (s' & Hstep & Hwf' & Hsizes' & Hnone & Hsome).
  cbn [foldl walked]. rewrite Hstep.
  destruct (walk_stops wflt i) eqn:Estop.
  { assert (call_goes_through wflt i = false) as Hc.
    { destruct (call_goes_through wflt i) eqn:E; [|done].
      apply call_goes_through_walks in E. congruence. }
    rewrite permission_stopped, (Hnone Hc). exists s0, true.
    split_and!; try done; try (by left); by intros j ?%elem_of_nil. }
  destruct (IH (λ i0 Hi0, Hitems i0 ltac:(by right)) s' Hwf' Hsizes')
    as (s1 & stopped & Hfold & Hfr1 & Hperm1 & Htwo1 & Hlock1 & Hdir1 & Hsel1 & Hstwo1 & Hdlock1).
  exists s1, stopped. split; [done|].
  destruct (call_goes_through wflt i) eqn:Ec.
  2:{ rewrite (Hnone eq_refl) in *. by split_and!. }
  destruct (Hsome eq_refl) as (_ & Hlock & Hdlock & Hkind).
  assert (∀ q, get_file_permission s' q = get_file_permission s0 q ∨
               get_file_permission s' q = (λ _, v) <$> get_file_permission s0 q) as Htwo.
  { intros q. destruct (e_is_file i).
    - destruct Hkind as (Hframe & Hp & _).
      destruct (decide (q = e_path i)) as [->|Hne]; [by right|left].
      unfold get_file_permission. by rewrite Hframe.
    - destruct Hkind as (Hsame & _). left. unfold get_file_permission. by rewrite Hsame. }
  assert (∀ x, select_is_public s' x = select_is_public s0 x ∨
               select_is_public s' x = Some (int_of_bool v)) as Hstwo.
  { intros x. destruct (e_is_file i).
    - destruct Hkind as (_ & _ & Hsel). by left.
    - destruct Hkind as (_ & Hsel). rewrite Hsel.
      destruct (decide (x = e_path i)); [by right|by left]. }
  split_and!.
  - intros q Hq. rewrite Hfr1 by (intros j Hj; apply Hq; by right).
    assert (e_path i ≠ q) as Hne by (apply Hq; left).
    destruct (e_is_file i).
    + destruct Hkind as (Hframe & _). by apply Hframe.
    + destruct Hkind as (Hsame & _). apply Hsame.
  - intros j [->|Hj]%elem_of_cons Hfile.
    + rewrite Hfile in Hkind. destruct Hkind as (_ & Hp & _).
      destruct (Htwo1 (e_path i)) as [->| ->]; rewrite Hp, ?fmap_const_twice; done.
    + rewrite (Hperm1 j Hj Hfile).
      destruct (Htwo (e_path j)) as [->| ->]; rewrite ?fmap_const_twice; done.
  - intros q. destruct (Htwo1 q) as [->| ->]; destruct (Htwo q) as [->| ->];
      rewrite ?fmap_const_twice; auto.
  - intros q. by rewrite Hlock1.
  - intros j [->|Hj]%elem_of_cons Hfile; [|by apply Hdir1].
    rewrite Hfile in Hkind. destruct Hkind as (_ & Hsel).
    destruct (Hstwo1 (e_path i)) as [->|?]; [|done]. by rewrite Hsel, decide_True.
  - intros x Hx. rewrite Hsel1 by (intros j Hj; apply Hx; by right).
    assert (e_path i ≠ x) as Hne by (apply Hx; left).
    destruct (e_is_file i).
    + destruct Hkind as (_ & _ & Hsel). apply Hsel.
    + destruct Hkind as (_ & Hsel). by rewrite Hsel, decide_False.
  - intros x. destruct (Hstwo1 x) as [->|?]; [apply Hstwo|by right].
  - intros x. by rewrite Hdlock1.
Qed.

Lemma rglob_not_self fs d item : item ∈ rglob fs d → e_path item ≠ d.
Proof.
  intros [(_ & _ & _ & Hrest & _) _]%list_elem_of_filter Heq.
  rewrite Heq in Hrest. apply Hrest. by rewrite drop_all.
Qed.

Lemma rglob_nodup fs d : NoDup (e_path <$> fs) → NoDup (e_path <$> rglob fs d).
Proof.
  intros Hnd. eapply sublist_NoDup; [exact Hnd|]. apply fmap_sublist, sublist_filter.
Qed.

(** X13. [set_directory_permission(d, v, apply_to_children=True)] over a
    database that satisfies the schema and holds 64-bit sizes, and a
    storage root whose entries are keyed by their normal path, no two by
    the same, whatever goes wrong during the walk. The call returns
    [True] exactly when the call without [apply_to_children] does: no
    failure of the walk is reported. When it returns [False] nothing is
    written. When it returns [True], [d] has the setting [v], and for
    every entry below [d]: if the walk reaches it (nothing has stopped
    the walk before it), does not skip it by name, and the call made for
    it goes through, then a file that has a record has [is_public = v] (a
    file without a record still has none) and a directory has [v] as its
    own setting; if not, its record and its setting are what they were.
    No lock changes, and every path that is not below [d] has the record
    and the setting it had. *)
Theorem set_directory_permission_children raises now now_at wflt s fs d v :
  wf_store s → sizes_int64 s → normal_keys fs → NoDup (e_path <$> fs) →
  let r := set_directory_permission raises now now_at wflt s fs d v true in
  fst r = negb (bool_decide (d = "" ∨ d = ".")) && negb raises &&
          fs_exists fs d && fs_is_dir fs d ∧
  (fst r = false → snd r = s) ∧
  (fst r = true →
   select_is_public (snd r) d = Some (int_of_bool v) ∧
   get_directory_permission (snd r) d = Some v ∧
   (∀ before item after,
      rglob fs d = before ++ item :: after →
      ((∀ i, i ∈ before → walk_stops wflt i = false) →
       walk_raises wflt (e_path item) = false →
       call_raises wflt (e_path item) = false →
       skipped_name (name (e_path item)) = false →
       if e_is_file item
       then get_file_permission (snd r) (e_path item) =
            (λ _, v) <$> get_file_permission s (e_path item)
       else select_is_public (snd r) (e_path item) = Some (int_of_bool v)) ∧
      ((∃ i, i ∈ before ∧ walk_stops wflt i = true) ∨
       walk_raises wflt (e_path item) = true ∨
       call_raises wflt (e_path item) = true ∨
       skipped_name (name (e_path item)) = true →
       load_metadata (snd r) (e_path item) = load_metadata s (e_path item) ∧
       select_is_public (snd r) (e_path item) = select_is_public s (e_path item))) ∧
   (∀ q, get_file_lock (snd r) q = get_file_lock s q) ∧
   (∀ x, get_directory_lock (snd r) x = get_directory_lock s x) ∧
   (∀ q, q ∉ e_path <$> rglob fs d →
         load_metadata (snd r) q = load_metadata s q ∧
         (q ≠ d → select_is_public (snd r) q = select_is_public s q))).
Proof.
  intros Hwf Hsizes Hkeys Hnd r. unfold r, set_directory_permission.
  pose proof (set_directory_permission_flat_fst raises now s fs d v) as Hfst.
  pose proof (set_directory_permission_flat_false raises now s fs d v) as Hfalse.
  pose proof (set_directory_permission_flat_true raises now s fs d v) as Htrue.
  pose proof (set_directory_permission_flat_wf raises now s fs d v Hwf) as Hwf1.
  pose proof (set_directory_permission_flat_sizes raises now s fs d v Hsizes) as Hsizes1.
  pose proof (λ x, select_is_public_after_set raises now s fs d v x) as Hsel0.
  pose proof (λ x, get_directory_lock_after_set raises now s fs d v x) as Hdl0.
  destruct (set_directory_permission_flat raises now s fs d v) as [ok s1].
  simpl in *. destruct ok; simpl.
  2:{ split; [done|]. split; [done|]. done. }
  split; [done|]. split; [done|]. intros _.
  destruct (Htrue eq_refl) as (Hroot & H1 & _ & H2 & _).
  assert (∀ q, load_metadata s1 q = load_metadata s q) as Hsame
    by (intros q; by apply load_metadata_files).
  unfold _apply_permission_to_children.
  destruct (permission_walk now_at wflt fs v (rglob fs d) Hkeys (rglob_items fs d)
              s1 Hwf1 Hsizes1)
    as (s2 & stopped & -> & Hfr & Hperm & _ & Hlock & Hdir & Hsel & Hstwo & Hdlock).
  simpl.
  assert (select_is_public s2 d = Some (int_of_bool v)) as Hd.
  { destruct (Hstwo d) as [->|?]; [|done]. by rewrite Hsel0, decide_True. }
  split; [done|]. split_and!.
  - rewrite get_directory_permission_unfold, decide_False, Hd by done.
    by rewrite bool_of_int_of_bool.
  - intros before item after Heq. split.
    + intros Hbefore Hw Hc Hs.
      assert (item ∈ walked wflt (rglob fs d)) as Hin.
      { rewrite Heq. apply walked_prefix; [done|]. by apply call_goes_through_true. }
      destruct (e_is_file item) eqn:Ef.
      * rewrite (Hperm item Hin Ef). unfold get_file_permission. by rewrite Hsame.
      * by apply Hdir.
    + intros Hbad.
      assert (∀ j, j ∈ walked wflt (rglob fs d) → e_path j ≠ e_path item) as Hout.
      { intros j Hj. eapply not_walked; [by apply rglob_nodup|exact Heq|exact Hbad|exact Hj]. }
      split.
      * rewrite Hfr by done. apply Hsame.
      * rewrite Hsel by done. rewrite Hsel0 by done. rewrite decide_False; [done|].
        apply (rglob_not_self fs d). rewrite Heq. apply elem_of_app. right. left.
  - intros q. rewrite Hlock. unfold get_file_lock. by rewrite Hsame.
  - intros x. rewrite Hdlock. by apply Hdl0.
  - intros q Hq.
    assert (∀ j, j ∈ walked wflt (rglob fs d) → e_path j ≠ q) as Hout.
    { intros j (b & a & Heq & _)%walked_inv <-. apply Hq.
      apply list_elem_of_fmap_2. rewrite Heq. apply elem_of_app. right. left. }
    split.
    + rewrite Hfr by done. apply Hsame.
    + intros Hne. rewrite Hsel by done. rewrite Hsel0 by done.
      by rewrite decide_False.
Qed.

Lemma normal_keys_sample_tree : normal_keys sample_tree.
Proof. unfold normal_keys. apply Forall_forall. compute_done. Qed.

Lemma nodup_sample_tree : NoDup (e_path <$> sample_tree).
Proof. compute_done. Qed.

Lemma sizes_sample_library : sizes_int64 sample_library.
Proof. unfold sizes_int64. apply Forall_forall. compute_done. Qed.

(** [docs] is made public with everything below it, in [sample_library]
    over [sample_tree], while the nested call for [docs/reports] fails:
    the call returns [True], the files below are public, and
    [docs/reports] gets no row of its own. *)
Lemma set_directory_permission_children_witness :
  let r := set_directory_permission false "2024-06-01T12:00:00"
             (λ _, "2024-06-01T12:00:01") reports_call_fails
             sample_library sample_tree "docs" true true in
  (fst r = true ∧
   get_file_permission (snd r) <$>
     ["docs/readme.md"; "docs/reports/q1.txt"; "docs/reports/q2.txt"] =
     [Some true; Some true; None] ∧
   select_is_public (snd r) "docs/reports" = None) ∧
  (fst r = true →
   select_is_public (snd r) "docs" = Some 1 ∧
   get_directory_permission (snd r) "docs" = Some true ∧
   (∀ before item after,
      rglob sample_tree "docs" = before ++ item :: after →
      ((∀ i, i ∈ before → walk_stops reports_call_fails i = false) →
       walk_raises reports_call_fails (e_path item) = false →
       call_raises reports_call_fails (e_path item) = false →
       skipped_name (name (e_path item)) = false →
       if e_is_file item
       then get_file_permission (snd r) (e_path item) =
            (λ _, true) <$> get_file_permission sample_library (e_path item)
       else select_is_public (snd r) (e_path item) = Some 1) ∧
      ((∃ i, i ∈ before ∧ walk_stops reports_call_fails i = true) ∨
       walk_raises reports_call_fails (e_path item) = true ∨
       call_raises reports_call_fails (e_path item) = true ∨
       skipped_name (name (e_path item)) = true →
       load_metadata (snd r) (e_path item) = load_metadata sample_library (e_path item) ∧
       select_is_public (snd r) (e_path item) =
         select_is_public sample_library (e_path item))) ∧
   (∀ q, get_file_lock (snd r) q = get_file_lock sample_library q) ∧
   (∀ x, get_directory_lock (snd r) x = get_directory_lock sample_library x) ∧
   (∀ q, q ∉ e_path <$> rglob sample_tree "docs" →
         load_metadata (snd r) q = load_metadata sample_library q ∧
         (q ≠ "docs" → select_is_public (snd r) q = select_is_public sample_library q))).
Proof.
  intros r. split; [by vm_compute|].
  apply (set_directory_permission_children false "2024-06-01T12:00:00"
           (λ _, "2024-06-01T12:00:01") reports_call_fails
           sample_library sample_tree "docs" true).
  - apply wf_sample_library.
  - apply sizes_sample_library.
  - apply normal_keys_sample_tree.
  - apply nodup_sample_tree.
Defined.

(** The same call, computed, when nothing fails and when the iteration
    raises at [docs/reports/q1.txt]: in the second run the entries before
    it are set, those from it on are as they were, and the call still
    returns [True]. *)
Example set_directory_permission_children_sample :
  let run wflt := set_directory_permission false "2024-06-01T12:00:00"
                    (λ _, "2024-06-01T12:00:01") wflt
                    sample_library sample_tree "docs" true true in
  e_path <$> rglob sample_tree "docs" =
    ["docs/readme.md"; "docs/reports"; "docs/reports/q1.txt";
     "docs/reports/q1.txt.meta"; "docs/reports/q2.txt"] ∧
  fst (run no_walk_faults) = true ∧
  get_file_permission (snd (run no_walk_faults)) <$>
    ["docs/readme.md"; "docs/reports/q1.txt"; "docs/reports/q2.txt"] =
    [Some true; Some true; None] ∧
  dm_directory_path <$> directory_metadata (snd (run no_walk_faults)) =
    ["docs"; "docs/reports"] ∧
  get_directory_permission (snd (run no_walk_faults)) "inbox" = None ∧
  fst (run walk_fails_at_q1) = true ∧
  get_file_permission (snd (run walk_fails_at_q1)) <$>
    ["docs/readme.md"; "docs/reports/q1.txt"; "docs/reports/q2.txt"] =
    [Some true; Some false; None] ∧
  dm_directory_path <$> directory_metadata (snd (run walk_fails_at_q1)) =
    ["docs"; "docs/reports"].
Proof. by vm_compute. Qed.

(** ** The walk of [_apply_lock_to_children] *)

Lemma lock_stopped now_at wflt fs v s items :
  foldl (lock_child now_at wflt fs v) (s, true) items = (s, true).
Proof. induction items as [|i items IH]; [done|]. exact IH. Qed.

Lemma lock_child_step now_at wflt fs v s0 i :
  normal_keys fs → i ∈ fs → ¬ (e_path i = "" ∨ e_path i = ".") →
  wf_store s0 → sizes_int64 s0 →
  ∃ s',
    lock_child now_at wflt fs v (s0, false) i = (s', walk_stops wflt i) ∧
    wf_store s' ∧ sizes_int64 s' ∧
    (call_goes_through wflt i = false → s' = s0) ∧
    (call_goes_through wflt i = true →
     (∀ q, get_file_permission s' q = get_file_permission s0 q) ∧
     (∀ x, select_is_public s' x = select_is_public s0 x) ∧
     if e_is_file i
     then (∀ q, q ≠ e_path i → load_metadata s' q = load_metadata s0 q) ∧
          get_file_lock s' (e_path i) = (λ _, v) <$> get_file_lock s0 (e_path i) ∧
          (∀ x, get_directory_lock s' x = get_directory_lock s0 x)
     else (∀ q, load_metadata s' q = load_metadata s0 q) ∧
          (∀ x, get_directory_lock s' x =
                if decide (x = e_path i) then Some v else get_directory_lock s0 x)).
Proof.
  intros Hkeys Hifs Hiroot Hwf Hsizes.
  unfold lock_child, walk_stops, call_goes_through.
  destruct (walk_raises wflt (e_path i)) eqn:Ew.
  { exists s0. simpl. by split_and!. }
  destruct (skipped_name (name (e_path i))) eqn:Es.
  { exists s0. simpl. by split_and!. }
  destruct (e_is_file i) eqn:Ef.
  - destruct (call_raises wflt (e_path i)) eqn:Ec.
    { exists s0. simpl. by split_and!. }
    destruct (setter_step (now_at (e_path i)) s0 (e_path i) (SetLocked v) Hwf Hsizes)
      as (s' & Hu & Hwf' & Hsizes' & Hdirs & Hframe & Hload); [by intros []..|].
    unfold set_file_lock. rewrite Hu. simpl. exists s'.
    split_and!; try done. intros _. split_and!; try done.
    + intros q. unfold get_file_permission. destruct (decide (q = e_path i)) as [->|Hne].
      * rewrite Hload. by destruct (load_metadata s0 (e_path i)) as [[]|].
      * by rewrite Hframe.
    + intros x. by apply select_is_public_dirs.
    + unfold get_file_lock. rewrite Hload.
      by destruct (load_metadata s0 (e_path i)) as [[]|].
    + intros x. by apply get_directory_lock_dirs.
  - destruct (item_is_dir fs i Hkeys Hifs Ef) as [Hex Hisdir].
    pose proof (set_directory_lock_flat_fst (call_raises wflt (e_path i))
                  (now_at (e_path i)) s0 fs (e_path i) v) as Hfst.
    rewrite Hex, Hisdir, bool_decide_eq_false_2, !andb_true_r in Hfst by done.
    simpl in Hfst.
    pose proof (set_directory_lock_flat_wf (call_raises wflt (e_path i))
                  (now_at (e_path i)) s0 fs (e_path i) v Hwf) as Hwf'.
    pose proof (set_directory_lock_flat_sizes (call_raises wflt (e_path i))
                  (now_at (e_path i)) s0 fs (e_path i) v Hsizes) as Hsizes'.
    set (s' := snd (set_directory_lock_flat _ _ s0 fs (e_path i) v)) in *.
    exists s'. rewrite andb_false_r. simpl.
    destruct (call_raises wflt (e_path i)) eqn:Ec; simpl in Hfst.
    + assert (s' = s0) as -> by (by apply set_directory_lock_flat_false).
      by split_and!.
    + split_and!; try done. intros _. split_and!; try done.
      * intros q. unfold get_file_permission.
        apply set_directory_lock_flat_true in Hfst as (_ & H1 & _ & H2 & _).
        by rewrite (load_metadata_files s0 s').
      * intros x. by apply select_is_public_after_lock.
      * intros q. apply set_directory_lock_flat_true in Hfst as (_ & H1 & _ & H2 & _).
        by apply load_metadata_files.
      * intros x. by apply get_directory_lock_after_lock.
Qed.

Lemma lock_walk now_at wflt fs v items :
  normal_keys fs →
  (∀ i, i ∈ items → i ∈ fs ∧ ¬ (e_path i = "" ∨ e_path i = ".")) →
  ∀ s0, wf_store s0 → sizes_int64 s0 →
  ∃ s1 stopped,
    foldl (lock_child now_at wflt fs v) (s0, false) items = (s1, stopped) ∧
    (∀ q, (∀ j, j ∈ walked wflt items → e_path j ≠ q) →
          load_metadata s1 q = load_metadata s0 q) ∧
    (∀ j, j ∈ walked wflt items → e_is_file j = true →
          get_file_lock s1 (e_path j) = (λ _, v) <$> get_file_lock s0 (e_path j)) ∧
    (∀ q, get_file_lock s1 q = get_file_lock s0 q ∨
          get_file_lock s1 q = (λ _, v) <$> get_file_lock s0 q) ∧
    (∀ q, get_file_permission s1 q = get_file_permission s0 q) ∧
    (∀ j, j ∈ walked wflt items → e_is_file j = false →
          get_directory_lock s1 (e_path j) = Some v) ∧
    (∀ x, (∀ j, j ∈ walked wflt items → e_path j ≠ x) →
          get_directory_lock s1 x = get_directory_lock s0 x) ∧
    (∀ x, get_directory_lock s1 x = get_directory_lock s0 x ∨
          get_directory_lock s1 x = Some v) ∧
    (∀ x, select_is_public s1 x = select_is_public s0 x).
Proof.
  intros Hkeys. induction items as [|i items IH]; intros Hitems s0 Hwf Hsizes.
  { exists s0, false. split_and!; try done; try (by left);
      by intros j ?%elem_of_nil. }
  destruct (Hitems i ltac:(left)) as [Hifs Hiroot].
  destruct (lock_child_step now_at wflt fs v s0 i Hkeys Hifs Hiroot Hwf Hsizes)
    as (s' & Hstep & Hwf' & Hsizes' & Hnone & Hsome).
  cbn [foldl walked]. rewrite Hstep.
  destruct (walk_stops wflt i) eqn:Estop.
  { assert (call_goes_through wflt i = false) as Hc.
    { destruct (call_goes_through wflt i) eqn:E; [|done].
      apply call_goes_through_walks in E. congruence. }
    rewrite lock_stopped, (Hnone Hc). exists s0, true.
    split_and!; try done; try (by left); by intros j ?%elem_of_nil. }
  destruct (IH (λ i0 Hi0, Hitems i0 ltac:(by right)) s' Hwf' Hsizes')
    as (s1 & stopped & Hfold & Hfr1 & Hlk1 & Htwo1 & Hperm1 & Hdir1 & Hdl1 & Hdtwo1 & Hsel1).
  exists s1, stopped. split; [done|].
  destruct (call_goes_through wflt i) eqn:Ec.
  2:{ rewrite (Hnone eq_refl) in *. by split_and!. }
  destruct (Hsome eq_refl) as (Hperm & Hsel & Hkind).
  assert (∀ q, get_file_lock s' q = get_file_lock s0 q ∨
               get_file_lock s' q = (λ _, v) <$> get_file_lock s0 q) as Htwo.
  { intros q. destruct (e_is_file i).
    - destruct Hkind as (Hframe & Hp & _).
      destruct (decide (q = e_path i)) as [->|Hne]; [by right|left].
      unfold get_file_lock. by rewrite Hframe.
    - destruct Hkind as (Hsame & _). left. unfold get_file_lock. by rewrite Hsame. }
  assert (∀ x, get_directory_lock s' x = get_directory_lock s0 x ∨
               get_directory_lock s' x = Some v) as Hdtwo.
  { intros x. destruct (e_is_file i).
    - destruct Hkind as (_ & _ & Hdl). by left.
    - destruct Hkind as (_ & Hdl). rewrite Hdl.
      destruct (decide (x = e_path i)); [by right|by left]. }
  split_and!.
  - intros q Hq. rewrite Hfr1 by (intros j Hj; apply Hq; by right).
    assert (e_path i ≠ q) as Hne by (apply Hq; left).
    destruct (e_is_file i).
    + destruct Hkind as (Hframe & _). by apply Hframe.
    + destruct Hkind as (Hsame & _). apply Hsame.
  - intros j [->|Hj]%elem_of_cons Hfile.
    + rewrite Hfile in Hkind. destruct Hkind as (_ & Hp & _).
      destruct (Htwo1 (e_path i)) as [->| ->]; rewrite Hp, ?fmap_const_twice; done.
    + rewrite (Hlk1 j Hj Hfile).
      destruct (Htwo (e_path j)) as [->| ->]; rewrite ?fmap_const_twice; done.
  - intros q. destruct (Htwo1 q) as [->| ->]; destruct (Htwo q) as [->| ->];
      rewrite ?fmap_const_twice; auto.
  - intros q. by rewrite Hperm1.
  - intros j [->|Hj]%elem_of_cons Hfile; [|by apply Hdir1].
    rewrite Hfile in Hkind. destruct Hkind as (_ & Hdl).
    destruct (Hdtwo1 (e_path i)) as [->|?]; [|done]. by rewrite Hdl, decide_True.
  - intros x Hx. rewrite Hdl1 by (intros j Hj; apply Hx; by right).
    assert (e_path i ≠ x) as Hne by (apply Hx; left).
    destruct (e_is_file i).
    + destruct Hkind as (_ & _ & Hdl). apply Hdl.
    + destruct Hkind as (_ & Hdl). by rewrite Hdl, decide_False.
  - intros x. destruct (Hdtwo1 x) as [->|?]; [apply Hdtwo|by right].
  - intros x. by rewrite Hsel1.
Qed.

(** X14. [set_directory_lock(d, v, apply_to_children=True)] over a
    database that satisfies the schema and holds 64-bit sizes, and a
    storage root whose entries are keyed by their normal path, no two by
    the same, whatever goes wrong during the walk. The call returns
    [True] exactly when the call without [apply_to_children] does: no
    failure of the walk is reported. When it returns [False] nothing is
    written. When it returns [True], [d] has the lock [v], and for every
    entry below [d]: if the walk reaches it (nothing has stopped the walk
    before it), does not skip it by name, and the call made for it goes
    through, then a file that has a record has [locked = v] and a
    directory has the lock [v]; if not, its record and its lock are what
    they were. No permission changes, of a file or of a directory, and
    every path that is not below [d] has the record and the lock it
    had. *)
Theorem set_directory_lock_children raises now now_at wflt s fs d v :
  wf_store s → sizes_int64 s → normal_keys fs → NoDup (e_path <$> fs) →
  let r := set_directory_lock raises now now_at wflt s fs d v true in
  fst r = negb (bool_decide (d = "" ∨ d = ".")) && negb raises &&
          fs_exists fs d && fs_is_dir fs d ∧
  (fst r = false → snd r = s) ∧
  (fst r = true →
   get_directory_lock (snd r) d = Some v ∧
   (∀ before item after,
      rglob fs d = before ++ item :: after →
      ((∀ i, i ∈ before → walk_stops wflt i = false) →
       walk_raises wflt (e_path item) = false →
       call_raises wflt (e_path item) = false →
       skipped_name (name (e_path item)) = false →
       if e_is_file item
       then get_file_lock (snd r) (e_path item) =
            (λ _, v) <$> get_file_lock s (e_path item)
       else get_directory_lock (snd r) (e_path item) = Some v) ∧
      ((∃ i, i ∈ before ∧ walk_stops wflt i = true) ∨
       walk_raises wflt (e_path item) = true ∨
       call_raises wflt (e_path item) = true ∨
       skipped_name (name (e_path item)) = true →
       load_metadata (snd r) (e_path item) = load_metadata s (e_path item) ∧
       get_directory_lock (snd r) (e_path item) = get_directory_lock s (e_path item))) ∧
   (∀ q, get_file_permission (snd r) q = get_file_permission s q) ∧
   (∀ p, get_directory_permission (snd r) p = get_directory_permission s p) ∧
   (∀ q, q ∉ e_path <$> rglob fs d →
         load_metadata (snd r) q = load_metadata s q ∧
         (q ≠ d → get_directory_lock (snd r) q = get_directory_lock s q))).
Proof.
  intros Hwf Hsizes Hkeys Hnd r. unfold r, set_directory_lock.
  pose proof (set_directory_lock_flat_fst raises now s fs d v) as Hfst.
  pose proof (set_directory_lock_flat_false raises now s fs d v) as Hfalse.
  pose proof (set_directory_lock_flat_true raises now s fs d v) as Htrue.
  pose proof (set_directory_lock_flat_wf raises now s fs d v Hwf) as Hwf1.
  pose proof (set_directory_lock_flat_sizes raises now s fs d v Hsizes) as Hsizes1.
  pose proof (λ x, select_is_public_after_lock raises now s fs d v x) as Hsel0.
  pose proof (λ x, get_directory_lock_after_lock raises now s fs d v x) as Hdl0.
  destruct (set_directory_lock_flat raises now s fs d v) as [ok s1].
  simpl in *. destruct ok; simpl.
  2:{ split; [done|]. split; [done|]. done. }
  split; [done|]. split; [done|]. intros _.
  destruct (Htrue eq_refl) as (Hroot & H1 & _ & H2 & _).
  assert (∀ q, load_metadata s1 q = load_metadata s q) as Hsame
    by (intros q; by apply load_metadata_files).
  unfold _apply_lock_to_children.
  destruct (lock_walk now_at wflt fs v (rglob fs d) Hkeys (rglob_items fs d)
              s1 Hwf1 Hsizes1)
    as (s2 & stopped & -> & Hfr & Hlk & _ & Hperm & Hdir & Hdl & Hdtwo & Hsel).
  simpl. split_and!.
  - destruct (Hdtwo d) as [->|?]; [|done]. rewrite Hdl0 by done. by rewrite decide_True.
  - intros before item after Heq. split.
    + intros Hbefore Hw Hc Hs.
      assert (item ∈ walked wflt (rglob fs d)) as Hin.
      { rewrite Heq. apply walked_prefix; [done|]. by apply call_goes_through_true. }
      destruct (e_is_file item) eqn:Ef.
      * rewrite (Hlk item Hin Ef). unfold get_file_lock. by rewrite Hsame.
      * by apply Hdir.
    + intros Hbad.
      assert (∀ j, j ∈ walked wflt (rglob fs d) → e_path j ≠ e_path item) as Hout.
      { intros j Hj. eapply not_walked; [by apply rglob_nodup|exact Heq|exact Hbad|exact Hj]. }
      split.
      * rewrite Hfr by done. apply Hsame.
      * rewrite Hdl by done. rewrite Hdl0 by done. rewrite decide_False; [done|].
        apply (rglob_not_self fs d). rewrite Heq. apply elem_of_app. right. left.
  - intros q. rewrite Hperm. unfold get_file_permission. by rewrite Hsame.
  - intros p. rewrite !get_directory_permission_chain. f_equal.
    apply first_setting_ext. intros x _. rewrite Hsel. by apply Hsel0.
  - intros q Hq.
    assert (∀ j, j ∈ walked wflt (rglob fs d) → e_path j ≠ q) as Hout.
    { intros j (b & a & Heq & _)%walked_inv <-. apply Hq.
      apply list_elem_of_fmap_2. rewrite Heq. apply elem_of_app. right. left. }
    split.
    + rewrite Hfr by done. apply Hsame.
    + intros Hne. rewrite Hdl by done. rewrite Hdl0 by done.
      by rewrite decide_False.
Qed.

(** [docs] is locked with everything below it, in [sample_library] over
    [sample_tree], while the iteration raises at [docs/reports/q1.txt]:
    the call returns [True], what comes before that file is locked, and
    the file is not. *)
Lemma set_directory_lock_children_witness :
  let r := set_directory_lock false "2024-06-01T12:00:00"
             (λ _, "2024-06-01T12:00:01") walk_fails_at_q1
             sample_library sample_tree "docs" true true in
  (fst r = true ∧
   get_file_lock (snd r) <$>
     ["docs/readme.md"; "docs/reports/q1.txt"; "docs/reports/q2.txt"] =
     [Some true; Some false; None] ∧
   get_directory_lock (snd r) <$> ["docs"; "docs/reports"; "inbox"] =
     [Some true; Some true; Some false]) ∧
  (fst r = true →
   get_directory_lock (snd r) "docs" = Some true ∧
   (∀ before item after,
      rglob sample_tree "docs" = before ++ item :: after →
      ((∀ i, i ∈ before → walk_stops walk_fails_at_q1 i = false) →
       walk_raises walk_fails_at_q1 (e_path item) = false →
       call_raises walk_fails_at_q1 (e_path item) = false →
       skipped_name (name (e_path item)) = false →
       if e_is_file item
       then get_file_lock (snd r) (e_path item) =
            (λ _, true) <$> get_file_lock sample_library (e_path item)
       else get_directory_lock (snd r) (e_path item) = Some true) ∧
      ((∃ i, i ∈ before ∧ walk_stops walk_fails_at_q1 i = true) ∨
       walk_raises walk_fails_at_q1 (e_path item) = true ∨
       call_raises walk_fails_at_q1 (e_path item) = true ∨
       skipped_name (name (e_path item)) = true →
       load_metadata (snd r) (e_path item) = load_metadata sample_library (e_path item) ∧
       get_directory_lock (snd r) (e_path item) =
         get_directory_lock sample_library (e_path item))) ∧
   (∀ q, get_file_permission (snd r) q = get_file_permission sample_library q) ∧
   (∀ p, get_directory_permission (snd r) p = get_directory_permission sample_library p) ∧
   (∀ q, q ∉ e_path <$> rglob sample_tree "docs" →
         load_metadata (snd r) q = load_metadata sample_library q ∧
         (q ≠ "docs" → get_directory_lock (snd r) q = get_directory_lock sample_library q))).
Proof.
  intros r. split; [by vm_compute|].
  apply (set_directory_lock_children false "2024-06-01T12:00:00"
           (λ _, "2024-06-01T12:00:01") walk_fails_at_q1
           sample_library sample_tree "docs" true).
  - apply wf_sample_library.
  - apply sizes_sample_library.
  - apply normal_keys_sample_tree.
  - apply nodup_sample_tree.
Defined.

(** * More of the clean-up manager *)

(** ** What a run deletes, whichever operations fail *)

(** The loop of [_delete_orphan_metadata], with any of its statements
    raising: the count, and what is left of the two tables. *)
Lemma delete_orphan_fold flt orphans n tags rows n' tags' rows' :
  foldl (delete_orphan flt) (n, tags, rows) orphans = (n', tags', rows') →
  n ≤ n' ≤ n + Z.of_nat (length orphans) ∧
  (∀ r, r ∈ rows' → r ∈ rows) ∧
  (∀ r, r ∈ rows → fm_id r ∉ o_id <$> orphans → r ∈ rows') ∧
  (∀ t, t ∈ tags' → t ∈ tags) ∧
  (∀ t r, t ∈ tags' → r ∈ rows → fm_id r = ft_file_id t → r ∈ rows').
Proof.
  revert n tags rows. induction orphans as [|o orphans IH]; intros n tags rows.
  { simpl. intros [= <- <- <-]. split; [lia|]. done. }
  simpl.
  destruct (delete_tags_raises flt (o_id o)) eqn:Et.
  - intros Hfold. apply IH in Hfold as (Hn & H1 & H2 & H3 & H4).
    split; [lia|]. split; [done|]. split; [|done].
    intros r Hr Hid. apply H2; [done|]. intros Hin. apply Hid. by right.
  - destruct (delete_row_raises flt (o_id o)) eqn:Er.
    + intros Hfold. apply IH in Hfold as (Hn & H1 & H2 & H3 & H4).
      split; [lia|]. split; [done|].
      split; [|split].
      * intros r Hr Hid. apply H2; [done|]. intros Hin. apply Hid. by right.
      * intros t Ht. apply H3 in Ht. by apply list_elem_of_filter in Ht as [_ ?].
      * done.
    + intros Hfold. apply IH in Hfold as (Hn & H1 & H2 & H3 & H4).
      split; [lia|]. split; [|split; [|split]].
      * intros r Hr. apply H1 in Hr. by apply list_elem_of_filter in Hr as [_ ?].
      * intros r Hr Hid. apply H2.
        -- apply list_elem_of_filter. split; [|done]. intros E. apply Hid.
           rewrite E. left.
        -- intros Hin. apply Hid. by right.
      * intros t Ht. apply H3 in Ht. by apply list_elem_of_filter in Ht as [_ ?].
      * intros t r Ht Hr Hid. apply (H4 t r Ht); [|done].
        apply list_elem_of_filter. split; [|done].
        apply H3, list_elem_of_filter in Ht as [Hne _]. congruence.
Qed.

Lemma filter_drops_one {A B} `{EqDecision B} (f : A → B) (x : B) (l : list A) :
  NoDup (f <$> l) → x ∈ f <$> l →
  S (length (filter (λ r, f r ≠ x) l)) = length l.
Proof.
  induction l as [|a l IH]; intros Hnd Hx; [by apply elem_of_nil in Hx|].
  rewrite fmap_cons in Hnd, Hx. apply NoDup_cons in Hnd as [Ha Hnd].
  rewrite filter_cons. destruct (decide (f a = x)) as [E|E].
  - rewrite decide_False by tauto. simpl. f_equal.
    f_equal. apply filter_all. intros y Hy Hfy. apply Ha. rewrite E, <- Hfy.
    by apply list_elem_of_fmap_2.
  - rewrite decide_True by done. simpl. f_equal. apply IH; [done|].
    apply elem_of_cons in Hx as [?|?]; [congruence|done].
Qed.

(** With one row per id, every deletion that is counted removes one row. *)
Lemma delete_orphan_fold_count flt orphans n tags rows n' tags' rows' :
  NoDup (fm_id <$> rows) → NoDup (o_id <$> orphans) →
  (∀ o, o ∈ orphans → o_id o ∈ fm_id <$> rows) →
  foldl (delete_orphan flt) (n, tags, rows) orphans = (n', tags', rows') →
  Z.of_nat (length rows) = Z.of_nat (length rows') + (n' - n).
Proof.
  revert n tags rows. induction orphans as [|o orphans IH]; intros n tags rows Hnd Hno Hin.
  { simpl. intros [= <- <- <-]. lia. }
  rewrite fmap_cons in Hno. apply NoDup_cons in Hno as [Ho Hno].
  assert (∀ o0, o0 ∈ orphans → o_id o0 ∈ fm_id <$> rows) as Hin'
    by (intros o0 Ho0; apply Hin; by right).
  simpl.
  destruct (delete_tags_raises flt (o_id o)); [by apply IH|].
  destruct (delete_row_raises flt (o_id o)); [by apply IH|].
  intros Hfold. apply IH in Hfold.
  - pose proof (filter_drops_one fm_id (o_id o) rows Hnd (Hin o ltac:(left))). lia.
  - eapply sublist_NoDup; [exact Hnd|]. apply fmap_sublist, sublist_filter.
  - done.
  - intros o0 Ho0. specialize (Hin' o0 Ho0).
    apply list_elem_of_fmap in Hin' as (r & Hid & Hr).
    apply list_elem_of_fmap. exists r. split; [done|].
    apply list_elem_of_filter. split; [|done].
    intros E. apply Ho. rewrite <- E, <- Hid. by apply list_elem_of_fmap_2.
Qed.

Lemma slice_to_sublist {A} (n : Z) (l : list A) : slice_to n l `sublist_of` l.
Proof. unfold slice_to. case_decide; apply sublist_take. Qed.

Lemma slice_to_length {A} (n : Z) (l : list A) :
  (length (slice_to n l) ≤ length l)%nat ∧
  (0 ≤ n → Z.of_nat (length (slice_to n l)) ≤ n).
Proof.
  unfold slice_to. case_decide; rewrite length_take; split; lia.
Qed.

(** The entries that a run sets out to clean are entries for rows of the
    table. *)
Lemma to_clean_rows self flt s fs max_orphans o :
  o ∈ slice_to max_orphans (c_orphan_metadata (check_consistency self flt s fs)) →
  ∃ r, r ∈ file_metadata s ∧ is_orphan self flt fs r ∧ o = orphan_of self r.
Proof.
  intros Ho. eapply elem_of_sublist in Ho; [|apply slice_to_sublist].
  rewrite check_consistency_orphans in Ho.
  destruct (db_unavailable flt); [by apply elem_of_nil in Ho|].
  apply list_elem_of_fmap in Ho as (r & -> & Hr).
  apply list_elem_of_filter in Hr as [? ?]. by exists r.
Qed.

Lemma backup_data_length self flt s fs max_orphans :
  length (backup_data s
            (slice_to max_orphans (c_orphan_metadata (check_consistency self flt s fs)))) =
  length (slice_to max_orphans (c_orphan_metadata (check_consistency self flt s fs))).
Proof.
  unfold backup_data.
  pose proof (to_clean_rows self flt s fs max_orphans) as Hrows.
  induction (slice_to max_orphans _) as [|o os IH]; [done|].
  simpl. destruct (Hrows o ltac:(left)) as (r & Hr & _ & ->). simpl.
  destruct (filter (λ r0, fm_id r0 = fm_id r) (file_metadata s)) as [|r0 rest] eqn:Hf.
  - exfalso. assert (r ∈ filter (λ r0, fm_id r0 = fm_id r) (file_metadata s)) as H0
      by (by apply list_elem_of_filter).
    rewrite Hf in H0. by apply elem_of_nil in H0.
  - simpl. f_equal. apply IH. intros o' Ho'. apply Hrows. by right.
Qed.

(** What the [try] block of a run leaves: either nothing was deleted, or
    the loop of [_delete_orphan_metadata] ran and was committed, after the
    backup, when one is configured, had been written. *)
Lemma cleanup_attempt_effect self flt clk dry_run max_orphans s fs
    checked found cleaned errors det s' fs' :
  cleanup_attempt self flt clk dry_run max_orphans s fs =
    ((checked, found, cleaned, errors, det), (s', fs')) →
  checked = c_files_checked (check_consistency self flt s fs) ∧
  found = Z.of_nat (length (c_orphan_metadata (check_consistency self flt s fs))) ∧
  ((cleaned = 0 ∧ s' = s) ∨
   (∃ tags rows,
      foldl (delete_orphan flt) (0, file_tags s, file_metadata s)
        (slice_to max_orphans (c_orphan_metadata (check_consistency self flt s fs))) =
        (cleaned, tags, rows) ∧
      s' = Store rows (file_metadata_seq s) tags (directory_metadata s) (cleanup_log s) ∧
      dry_run = false ∧
      (CleanupConfig.backup_before_cleanup (config self) = true →
       ∃ info, d_backup det = Some info ∧
               backup_count info =
                 Z.of_nat (length (slice_to max_orphans
                             (c_orphan_metadata (check_consistency self flt s fs)))) ∧
               fs_exists fs' (backup_name clk) = true))).
Proof.
  unfold cleanup_attempt.
  pose proof (backup_data_length self flt s fs max_orphans) as Hlen.
  destruct (slice_to _ _) as [|o os] eqn:Hslice.
  { intros [= <- <- <- <- <- <- <-]. split; [done|]. split; [done|]. by left. }
  destruct dry_run.
  { intros [= <- <- <- <- <- <- <-]. split; [done|]. split; [done|]. by left. }
  unfold _backup_orphan_metadata, _delete_orphan_metadata.
  remember (backup_data s (o :: os)) as data eqn:Hdata.
  destruct (foldl _ _ _) as [[c t] r] eqn:Hfold.
  destruct (CleanupConfig.backup_before_cleanup (config self)) eqn:Hb;
    destruct (db_unavailable flt) eqn:Hdb; simpl;
    try (intros [= <- <- <- <- <- <- <-]; split; [done|]; split; [done|]; by left).
  - destruct (backup_write_fails flt); simpl.
    { intros [= <- <- <- <- <- <- <-]. split; [done|]. split; [done|]. by left. }
    destruct (commit_raises flt); simpl.
    { intros [= <- <- <- <- <- <- <-]. split; [done|]. split; [done|]. by left. }
    intros [= <- <- <- <- <- <- <-]. split; [done|]. split; [done|].
    right. exists t, r. split; [done|]. split; [done|]. split; [done|]. intros _.
    eexists. split; [reflexivity|]. simpl. split; [by rewrite Hlen|].
    unfold fs_exists at 1. apply bool_decide_eq_true.
    destruct (fs_exists fs (backup_name clk)) eqn:Hex.
    + by apply bool_decide_eq_true in Hex.
    + rewrite fmap_app, elem_of_app. right. simpl. left.
  - destruct (commit_raises flt); simpl.
    { intros [= <- <- <- <- <- <- <-]. split; [done|]. split; [done|]. by left. }
    intros [= <- <- <- <- <- <- <-]. split; [done|]. split; [done|].
    right. exists t, r. split; [done|]. split; [done|]. split; [done|]. done.
Qed.

(** A run, seen from its [try] block: the tables of the files are as the
    block left them, and the result carries the block's counters. *)
Lemma cleanup_orphan_metadata_run self flt clk dry_run max_orphans w :
  ∃ checked found cleaned errors det s1 fs1,
    cleanup_attempt self flt clk dry_run
      (default (CleanupConfig.max_orphans_per_run (config self)) max_orphans)
      (fst w) (snd w) = ((checked, found, cleaned, errors, det), (s1, fs1)) ∧
    snd (snd (cleanup_orphan_metadata self flt clk dry_run max_orphans w)) = fs1 ∧
    file_metadata (fst (snd (cleanup_orphan_metadata self flt clk dry_run max_orphans w))) =
      file_metadata s1 ∧
    file_tags (fst (snd (cleanup_orphan_metadata self flt clk dry_run max_orphans w))) =
      file_tags s1 ∧
    directory_metadata (fst (snd (cleanup_orphan_metadata self flt clk dry_run max_orphans w))) =
      directory_metadata s1 ∧
    ∀ result,
      fst (cleanup_orphan_metadata self flt clk dry_run max_orphans w) = Ok result →
      CleanupResult.files_checked result = checked ∧
      CleanupResult.orphans_found result = found ∧
      CleanupResult.orphans_cleaned result = cleaned ∧
      CleanupResult.details result = det.
Proof.
  unfold cleanup_orphan_metadata.
  destruct (cleanup_attempt _ _ _ _ _ _ _) as [[[[[a b] c] d] e] [s1 fs1]].
  exists a, b, c, d, e, s1, fs1. split; [done|].
  destruct dry_run; simpl.
  { repeat (split; [done|]). by intros result [= <-]. }
  unfold _log_cleanup_result.
  destruct (db_unavailable flt); simpl; [repeat (split; [done|]); done|].
  destruct (cleanup_log s1); simpl; [|repeat (split; [done|]); done].
  destruct (log_insert_raises flt); simpl; [repeat (split; [done|]); done|].
  repeat (split; [done|]). by intros result [= <-].
Qed.

Lemma foldl_check_row_checked self flt fs rows acc :
  c_files_checked (foldl (check_row self flt fs) acc rows) =
  c_files_checked acc + Z.of_nat (length rows).
Proof.
  revert acc. induction rows as [|r rows IH]; intros acc; simpl; [lia|].
  rewrite IH. unfold check_row.
  destruct (exists_raises flt _); simpl; [lia|].
  destruct (negb _ && negb _); simpl; lia.
Qed.

Lemma foldl_check_file_checked flt s files acc :
  c_files_checked (foldl (check_file flt s) acc files) = c_files_checked acc.
Proof.
  revert acc. induction files as [|f files IH]; intros acc; simpl; [done|].
  rewrite IH. unfold check_file.
  destruct (load_raises flt f); [done|]. by destruct (load_metadata s f).
Qed.

Lemma check_consistency_checked self flt s fs :
  c_files_checked (check_consistency self flt s fs) =
  if db_unavailable flt then 0 else Z.of_nat (length (file_metadata s)).
Proof.
  unfold check_consistency. destruct (db_unavailable flt); [done|].
  destruct (fs_exists fs ".").
  - by rewrite foldl_check_file_checked, foldl_check_row_checked.
  - by rewrite foldl_check_row_checked.
Qed.

Lemma orphans_at_most_rows self flt s fs :
  Z.of_nat (length (c_orphan_metadata (check_consistency self flt s fs))) ≤
  c_files_checked (check_consistency self flt s fs).
Proof.
  rewrite check_consistency_checked, check_consistency_orphans.
  destruct (db_unavailable flt); [done|].
  rewrite length_fmap. pose proof (length_filter (is_orphan self flt fs) (file_metadata s)).
  lia.
Qed.

(** X15. For every database, storage root, [dry_run], [max_orphans] and
    whichever operations fail: a result that [cleanup_orphan_metadata]
    returns has [0 <= orphans_cleaned <= orphans_found <= files_checked];
    [orphans_cleaned] is at most [max_orphans] (the configured
    [max_orphans_per_run] when none is passed) when that is not negative,
    and is 0 in a dry run. *)
Theorem cleanup_counters_ordered self flt clk dry_run max_orphans w result :
  fst (cleanup_orphan_metadata self flt clk dry_run max_orphans w) = Ok result →
  0 ≤ CleanupResult.orphans_cleaned result ≤ CleanupResult.orphans_found result ∧
  CleanupResult.orphans_found result ≤ CleanupResult.files_checked result ∧
  (0 ≤ default (CleanupConfig.max_orphans_per_run (config self)) max_orphans →
   CleanupResult.orphans_cleaned result ≤
     default (CleanupConfig.max_orphans_per_run (config self)) max_orphans) ∧
  (dry_run = true → CleanupResult.orphans_cleaned result = 0).
Proof.
  intros Hres.
  destruct (cleanup_orphan_metadata_run self flt clk dry_run max_orphans w)
    as (checked & found & cleaned & errors & det & s1 & fs1 & Hatt & _ & _ & _ & _ & Hr).
  destruct (Hr result Hres) as (-> & -> & -> & _).
  set (m := default (CleanupConfig.max_orphans_per_run (config self)) max_orphans) in *.
  apply cleanup_attempt_effect in Hatt as (-> & -> & Hcases).
  pose proof (orphans_at_most_rows self flt (fst w) (snd w)) as Hle.
  pose proof (slice_to_length m
                (c_orphan_metadata (check_consistency self flt (fst w) (snd w))))
    as [Hlen Hmax].
  destruct Hcases as [[-> _]|(tags & rows & Hfold & _ & Hdry & _)].
  - split; [lia|]. split; [done|]. split; [done|]. done.
  - apply delete_orphan_fold in Hfold as (Hn & _).
    split; [lia|]. split; [done|]. split; [|by rewrite Hdry].
    intros Hm. specialize (Hmax Hm). lia.
Qed.

(** [cleanup_counters_ordered] for a run over [ten_orphans_store] with
    [max_orphans = 3]. *)
Lemma cleanup_counters_ordered_witness :
  ∃ result,
    fst (cleanup_orphan_metadata sample_manager no_faults sample_clock false (Some 3)
           (ten_orphans_store, sample_fs)) = Ok result ∧
    0 ≤ CleanupResult.orphans_cleaned result ≤ CleanupResult.orphans_found result ∧
    CleanupResult.orphans_found result ≤ CleanupResult.files_checked result ∧
    (0 ≤ default (CleanupConfig.max_orphans_per_run (config sample_manager)) (Some 3) →
     CleanupResult.orphans_cleaned result ≤
       default (CleanupConfig.max_orphans_per_run (config sample_manager)) (Some 3)) ∧
    (false = true → CleanupResult.orphans_cleaned result = 0).
Proof.
  eexists. split; [vm_compute; reflexivity|].
  apply (cleanup_counters_ordered sample_manager no_faults sample_clock false (Some 3)
           (ten_orphans_store, sample_fs)).
  vm_compute. reflexivity.
Defined.

(** X16. For every storage root, [dry_run], [max_orphans] and whichever
    operations fail, whether the call returns or raises: a run of
    [cleanup_orphan_metadata] adds no row to [file_metadata] or
    [file_tags] and leaves [directory_metadata] alone; it leaves no tag
    row behind for a file row that it deleted; and, where the ids of
    [file_metadata] are unique, every row that the consistency check does
    not report as an orphan (its file exists, its path is excluded, or
    the check of its file failed) is still in the table. *)
Theorem cleanup_deletes_only_orphans self flt clk dry_run max_orphans w :
  let s' := fst (snd (cleanup_orphan_metadata self flt clk dry_run max_orphans w)) in
  (∀ r, r ∈ file_metadata s' → r ∈ file_metadata (fst w)) ∧
  (∀ t, t ∈ file_tags s' → t ∈ file_tags (fst w)) ∧
  directory_metadata s' = directory_metadata (fst w) ∧
  (∀ t r, t ∈ file_tags s' → r ∈ file_metadata (fst w) →
          fm_id r = ft_file_id t → r ∈ file_metadata s') ∧
  (NoDup (fm_id <$> file_metadata (fst w)) →
   ∀ r, r ∈ file_metadata (fst w) → ¬ is_orphan self flt (snd w) r →
        r ∈ file_metadata s').
Proof.
  simpl.
  destruct (cleanup_orphan_metadata_run self flt clk dry_run max_orphans w)
    as (checked & found & cleaned & errors & det & s1 & fs1 & Hatt & _ & -> & -> & -> & _).
  set (m := default (CleanupConfig.max_orphans_per_run (config self)) max_orphans) in *.
  pose proof (to_clean_rows self flt (fst w) (snd w) m) as Hrows.
  apply cleanup_attempt_effect in Hatt as (_ & _ & Hcases).
  destruct Hcases as [[_ ->]|(tags & rows & Hfold & -> & _ & _)]; [done|].
  apply delete_orphan_fold in Hfold as (_ & H1 & H2 & H3 & H4). simpl.
  split; [done|]. split; [done|]. split; [done|]. split; [done|].
  intros Hnd r Hr Hno. apply H2; [done|].
  intros Hin. apply list_elem_of_fmap in Hin as (o & Hid & Ho).
  destruct (Hrows o Ho) as (r' & Hr' & Horph & ->). simpl in Hid.
  assert (r = r') as ->; [|done].
  pose proof (head_filter_unique fm_id _ r Hnd Hr) as E1.
  pose proof (head_filter_unique fm_id _ r' Hnd Hr') as E2.
  rewrite Hid in E1. rewrite E1 in E2. by injection E2.
Qed.

(** In [sample_store] over [sample_fs] the file of [kept.txt] exists: its
    row survives a run in which nothing fails. *)
Lemma cleanup_deletes_only_orphans_witness :
  sample_row 1 "kept.txt" ∈
    file_metadata (fst (snd (cleanup_orphan_metadata sample_manager no_faults sample_clock
                               false None (sample_store, sample_fs)))).
Proof.
  apply (cleanup_deletes_only_orphans sample_manager no_faults sample_clock false None
           (sample_store, sample_fs)).
  - compute_done.
  - simpl. left.
  - intros (_ & Hgone & _). by vm_compute in Hgone.
Defined.

Lemma to_clean_ids self flt s fs max_orphans :
  NoDup (fm_id <$> file_metadata s) →
  NoDup (o_id <$> slice_to max_orphans
                    (c_orphan_metadata (check_consistency self flt s fs))).
Proof.
  intros Hnd. eapply sublist_NoDup; [|apply fmap_sublist, slice_to_sublist].
  rewrite check_consistency_orphans. destruct (db_unavailable flt); [constructor|].
  rewrite orphan_ids. eapply sublist_NoDup; [exact Hnd|].
  apply fmap_sublist, sublist_filter.
Qed.

(** X17. Where the ids of [file_metadata] are unique, and whichever
    operations fail: the [orphans_cleaned] of a result that
    [cleanup_orphan_metadata] returns is the number of rows that the run
    removed from [file_metadata]. *)
Theorem cleanup_counts_deleted_rows self flt clk dry_run max_orphans w result :
  NoDup (fm_id <$> file_metadata (fst w)) →
  fst (cleanup_orphan_metadata self flt clk dry_run max_orphans w) = Ok result →
  Z.of_nat (length (file_metadata (fst w))) =
  Z.of_nat (length (file_metadata
                      (fst (snd (cleanup_orphan_metadata self flt clk dry_run max_orphans w))))) +
  CleanupResult.orphans_cleaned result.
Proof.
  intros Hnd Hres.
  destruct (cleanup_orphan_metadata_run self flt clk dry_run max_orphans w)
    as (checked & found & cleaned & errors & det & s1 & fs1 & Hatt & _ & -> & _ & _ & Hr).
  destruct (Hr result Hres) as (_ & _ & -> & _).
  set (m := default (CleanupConfig.max_orphans_per_run (config self)) max_orphans) in *.
  pose proof (to_clean_rows self flt (fst w) (snd w) m) as Hrows.
  pose proof (to_clean_ids self flt (fst w) (snd w) m Hnd) as Hids.
  apply cleanup_attempt_effect in Hatt as (_ & _ & Hcases).
  destruct Hcases as [[-> ->]|(tags & rows & Hfold & -> & _ & _)]; [lia|].
  apply delete_orphan_fold_count in Hfold; [simpl; lia|done|done|].
  intros o Ho. destruct (Hrows o Ho) as (r & Hr' & _ & ->). simpl.
  by apply list_elem_of_fmap_2.
Qed.

(** [cleanup_counts_deleted_rows] for the run in which the [DELETE] on
    the row with id 2 fails: two orphans are found, one row goes. *)
Lemma cleanup_counts_deleted_rows_witness :
  ∃ result,
    fst (cleanup_orphan_metadata sample_manager row_two_locked sample_clock false None
           (sample_store, sample_fs)) = Ok result ∧
    CleanupResult.orphans_found result = 2 ∧
    Z.of_nat (length (file_metadata sample_store)) =
    Z.of_nat (length (file_metadata
                        (fst (snd (cleanup_orphan_metadata sample_manager row_two_locked
                                     sample_clock false None (sample_store, sample_fs)))))) +
    CleanupResult.orphans_cleaned result.
Proof.
  eexists. split; [vm_compute; reflexivity|]. split; [reflexivity|].
  apply (cleanup_counts_deleted_rows sample_manager row_two_locked sample_clock false None
           (sample_store, sample_fs)).
  - compute_done.
  - vm_compute. reflexivity.
Defined.

Lemma slice_to_fmap_length {A B} (f : A → B) (n : Z) (l : list A) :
  length (slice_to n (f <$> l)) = length (slice_to n l).
Proof.
  unfold slice_to. rewrite length_fmap. case_decide; by rewrite !length_take, length_fmap.
Qed.

(** X18. With [backup_before_cleanup] on, and whichever operations fail:
    when a result of [cleanup_orphan_metadata] reports that rows were
    deleted, [details.backup] is there and its [backup_count] is the
    number of entries the run set out to clean: the orphan rows of
    [file_metadata], cut to [max_orphans] (the configured
    [max_orphans_per_run] when none is passed) as [orphans[:max_orphans]]
    cuts them. That number is at least [orphans_cleaned] and at most
    [orphans_found], and the backup file exists in the storage root.
    Nothing is deleted unless the backup was written first. *)
Theorem cleanup_backs_up_first self flt clk dry_run max_orphans w result :
  CleanupConfig.backup_before_cleanup (config self) = true →
  fst (cleanup_orphan_metadata self flt clk dry_run max_orphans w) = Ok result →
  0 < CleanupResult.orphans_cleaned result →
  ∃ info,
    d_backup (CleanupResult.details result) = Some info ∧
    backup_count info =
      Z.of_nat (length (slice_to
                  (default (CleanupConfig.max_orphans_per_run (config self)) max_orphans)
                  (filter (is_orphan self flt (snd w)) (file_metadata (fst w))))) ∧
    CleanupResult.orphans_cleaned result ≤ backup_count info ∧
    backup_count info ≤ CleanupResult.orphans_found result ∧
    fs_exists (snd (snd (cleanup_orphan_metadata self flt clk dry_run max_orphans w)))
      (backup_name clk) = true.
Proof.
  intros Hb Hres Hpos.
  destruct (cleanup_orphan_metadata_run self flt clk dry_run max_orphans w)
    as (checked & found & cleaned & errors & det & s1 & fs1 & Hatt & -> & _ & _ & _ & Hr).
  destruct (Hr result Hres) as (_ & Hfound & Hcl & Hdet).
  rewrite Hfound, Hcl, Hdet in *.
  set (m := default (CleanupConfig.max_orphans_per_run (config self)) max_orphans) in *.
  pose proof (slice_to_length m
                (c_orphan_metadata (check_consistency self flt (fst w) (snd w))))
    as [Hlen _].
  apply cleanup_attempt_effect in Hatt as (_ & -> & Hcases).
  destruct Hcases as [[-> _]|(tags & rows & Hfold & _ & _ & Hbk)]; [lia|].
  destruct (Hbk Hb) as (info & Hinfo & Hcount & Hex).
  apply delete_orphan_fold in Hfold as (Hn & _).
  exists info. split; [done|]. split; [|split; [lia|split; [lia|done]]].
  rewrite Hcount, check_consistency_orphans.
  destruct (db_unavailable flt) eqn:Hdb.
  - exfalso. rewrite check_consistency_orphans, Hdb in Hn.
    assert (slice_to m (@nil orphan) = []) as Hnil
      by (unfold slice_to; case_decide; apply take_nil).
    rewrite Hnil in Hn. simpl in Hn. lia.
  - by rewrite slice_to_fmap_length.
Qed.

(** [cleanup_backs_up_first] for the run over [sample_store] in which
    nothing fails: two rows are orphans, and the backup holds 2 entries. *)
Lemma cleanup_backs_up_first_witness :
  ∃ result info,
    fst (cleanup_orphan_metadata sample_manager no_faults sample_clock false None
           (sample_store, sample_fs)) = Ok result ∧
    CleanupResult.orphans_cleaned result = 2 ∧
    d_backup (CleanupResult.details result) = Some info ∧
    backup_count info = 2 ∧
    CleanupResult.orphans_cleaned result ≤ backup_count info ∧
    backup_count info ≤ CleanupResult.orphans_found result ∧
    fs_exists (snd (snd (cleanup_orphan_metadata sample_manager no_faults sample_clock
                           false None (sample_store, sample_fs))))
      (backup_name sample_clock) = true.
Proof.
  eexists.
  destruct (cleanup_backs_up_first sample_manager no_faults sample_clock false None
              (sample_store, sample_fs) _ eq_refl eq_refl eq_refl)
    as (info & Hinfo & Hcount & H).
  exists info. split; [reflexivity|]. split; [reflexivity|]. split; [exact Hinfo|].
  split; [exact Hcount|]. exact H.
Defined.

(** ** What the consistency check reports *)

Lemma foldl_check_row_missing self flt fs rows acc :
  c_missing_metadata (foldl (check_row self flt fs) acc rows) = c_missing_metadata acc.
Proof.
  revert acc. induction rows as [|r rows IH]; intros acc; simpl; [done|].
  rewrite IH. unfold check_row.
  destruct (exists_raises flt _); simpl; [done|].
  by destruct (negb _ && negb _).
Qed.

Lemma foldl_check_file_missing flt s files acc :
  c_missing_metadata (foldl (check_file flt s) acc files) =
  c_missing_metadata acc ++
  filter (λ p, load_raises flt p = false ∧ load_metadata s p = None) files.
Proof.
  revert acc. induction files as [|f files IH]; intros acc; simpl.
  { by rewrite app_nil_r. }
  rewrite IH, filter_cons. unfold check_file.
  case_decide as Hd.
  - destruct Hd as [Hl Hm]. rewrite Hl, Hm. simpl. by rewrite <- app_assoc.
  - destruct (load_raises flt f) eqn:Hl; simpl; [done|].
    destruct (load_metadata s f) eqn:Hm; simpl; [done|].
    exfalso. by apply Hd.
Qed.

Lemma check_consistency_missing self flt s fs :
  c_missing_metadata (check_consistency self flt s fs) =
  if db_unavailable flt then []
  else if fs_exists fs "." then
    filter (λ p, load_raises flt p = false ∧ load_metadata s p = None)
      (_scan_filesystem self fs)
  else [].
Proof.
  unfold check_consistency. destruct (db_unavailable flt); [done|].
  destruct (fs_exists fs ".").
  - by rewrite foldl_check_file_missing, foldl_check_row_missing.
  - by rewrite foldl_check_row_missing.
Qed.

Lemma scanned self fs p :
  p ∈ _scan_filesystem self fs →
  p ∈ e_path <$> fs ∧ _should_exclude_file self p = false ∧
  name p ≠ "metadata.db" ∧ endswith (name p) ".meta" = false.
Proof.
  unfold _scan_filesystem. intros (i & -> & Hi)%list_elem_of_fmap.
  apply list_elem_of_filter in Hi as [(_ & _ & Hmeta & Hdb & Hex) Hi].
  split; [by apply list_elem_of_fmap_2|]. done.
Qed.

Lemma missing_scanned self flt s fs p :
  p ∈ c_missing_metadata (check_consistency self flt s fs) →
  p ∈ _scan_filesystem self fs ∧ load_metadata s p = None.
Proof.
  rewrite check_consistency_missing. destruct (db_unavailable flt).
  { by intros ?%elem_of_nil. }
  destruct (fs_exists fs "."); [|by intros ?%elem_of_nil].
  intros [[_ ?] ?]%list_elem_of_filter. done.
Qed.

(** X19. What [check_consistency] reports, whichever operations fail:
    [files_checked] is the number of rows of [file_metadata] (0 when the
    database cannot be read); every path under [missing_metadata] is a
    file of the storage root that has no record, matches no exclude
    pattern, and is neither [metadata.db] nor a [.meta] side file; and,
    over a storage root whose entries are keyed by their normal path, no
    path is reported both as orphan metadata and as missing metadata. *)
Theorem check_consistency_report self flt s fs :
  c_files_checked (check_consistency self flt s fs) =
    (if db_unavailable flt then 0 else Z.of_nat (length (file_metadata s))) ∧
  (∀ p, p ∈ c_missing_metadata (check_consistency self flt s fs) →
        load_metadata s p = None ∧ p ∈ e_path <$> fs ∧
        _should_exclude_file self p = false ∧
        name p ≠ "metadata.db" ∧ endswith (name p) ".meta" = false) ∧
  (normal_keys fs →
   ∀ p, p ∈ o_file_path <$> c_orphan_metadata (check_consistency self flt s fs) →
        p ∉ c_missing_metadata (check_consistency self flt s fs)).
Proof.
  split; [apply check_consistency_checked|]. split.
  - intros p Hp. apply missing_scanned in Hp as [Hscan Hnone].
    split; [done|]. by apply scanned in Hscan.
  - intros Hkeys p Horph Hmiss.
    apply missing_scanned in Hmiss as [Hscan _].
    apply scanned in Hscan as [Hin _].
    rewrite check_consistency_orphans in Horph.
    destruct (db_unavailable flt); [by apply elem_of_nil in Horph|].
    apply list_elem_of_fmap in Horph as (o & -> & Ho).
    apply list_elem_of_fmap in Ho as (r & -> & Hr).
    apply list_elem_of_filter in Hr as [(_ & Hgone & _) _]. simpl in Hin.
    apply list_elem_of_fmap in Hin as (i & Hp & Hi).
    unfold fs_exists in Hgone. apply bool_decide_eq_false in Hgone. apply Hgone.
    rewrite Hp, (Hkeys i Hi). by apply list_elem_of_fmap_2.
Qed.

(** [check_consistency_report] over [sample_tree]: the two uploads without
    a record are reported missing, and they are not orphans. *)
Lemma check_consistency_report_witness :
  c_missing_metadata (check_consistency sample_manager no_faults sample_library sample_tree)
    = ["docs/reports/q2.txt"; "inbox/new.txt"] ∧
  ∀ p, p ∈ o_file_path <$> c_orphan_metadata
             (check_consistency sample_manager no_faults sample_library sample_tree) →
       p ∉ c_missing_metadata
             (check_consistency sample_manager no_faults sample_library sample_tree).
Proof.
  split; [reflexivity|].
  apply (check_consistency_report sample_manager no_faults sample_library sample_tree).
  apply normal_keys_sample_tree.
Defined.

(** X20. [quick_check] returns [True] exactly when the database can be
    read and some row of [file_metadata] is an orphan: its file is absent
    from the storage root, its path matches no exclude pattern, and the
    check of its file did not fail. When it returns [False] (also when
    the database cannot be read), a run of [cleanup_orphan_metadata] in
    the same conditions deletes nothing and writes no backup. *)
Theorem quick_check_spec self flt s fs :
  (quick_check self flt s fs = true ↔
   db_unavailable flt = false ∧ ∃ r, r ∈ file_metadata s ∧ is_orphan self flt fs r) ∧
  (quick_check self flt s fs = false →
   ∀ clk dry_run max_orphans,
     let w' := snd (cleanup_orphan_metadata self flt clk dry_run max_orphans (s, fs)) in
     file_metadata (fst w') = file_metadata s ∧
     file_tags (fst w') = file_tags s ∧
     snd w' = fs).
Proof.
  unfold quick_check. split.
  - rewrite bool_decide_eq_true, check_consistency_orphans.
    destruct (db_unavailable flt).
    { simpl. split; [lia|]. by intros [? _]. }
    rewrite length_fmap. split.
    + intros Hlen. split; [done|].
      destruct (filter _ _) as [|r rest] eqn:Hf; [simpl in Hlen; lia|].
      exists r.
      assert (r ∈ filter (is_orphan self flt fs) (file_metadata s)) as Hin
        by (rewrite Hf; left).
      apply list_elem_of_filter in Hin. tauto.
    + intros [_ (r & Hr & Ho)].
      assert (r ∈ filter (is_orphan self flt fs) (file_metadata s)) as Hin
        by (by apply list_elem_of_filter).
      destruct (filter _ _); [by apply elem_of_nil in Hin|]. simpl. lia.
  - intros Hq clk dry_run max_orphans. apply bool_decide_eq_false in Hq.
    assert (c_orphan_metadata (check_consistency self flt s fs) = []) as Hnone.
    { destruct (c_orphan_metadata _); [done|]. simpl in Hq. lia. }
    simpl.
    destruct (cleanup_orphan_metadata_run self flt clk dry_run max_orphans (s, fs))
      as (checked & found & cleaned & errors & det & s1 & fs1 & Hatt & -> & -> & -> & _).
    revert Hatt. unfold cleanup_attempt. simpl. rewrite Hnone, slice_to_nil.
    by intros [= <- <- <- <- <- <- <-].
Qed.

(** [quick_check] is [True] for [sample_store] over [sample_fs], where the
    file of [gone.txt] is missing. *)
Lemma quick_check_spec_witness :
  quick_check sample_manager no_faults sample_store sample_fs = true.
Proof.
  apply (quick_check_spec sample_manager no_faults sample_store sample_fs).
  split; [reflexivity|]. exists (sample_row 2 "gone.txt").
  split; [simpl; right; left|]. compute_done.
Defined.

Lemma scanned_exists self fs p :
  normal_keys fs → p ∈ _scan_filesystem self fs → fs_exists fs p = true.
Proof.
  intros Hkeys Hp. unfold _scan_filesystem in Hp.
  apply list_elem_of_fmap in Hp as (i & -> & Hi).
  apply list_elem_of_filter in Hi as [_ Hi].
  unfold fs_exists. apply bool_decide_eq_true. rewrite (Hkeys i Hi).
  by apply list_elem_of_fmap_2.
Qed.

(** X21. Over a database that satisfies the schema and a storage root
    whose entries are keyed by their normal path: for a path that
    [check_consistency] reports under [missing_metadata], a
    [create_metadata] (with pairwise distinct tags and a size that fits)
    commits; the next [check_consistency], in the same conditions,
    reports the same missing paths except that one, and the same
    orphans. *)
Theorem create_metadata_repairs_missing self flt s fs now_create now_save p
    file_size is_public content_type created_by tags description notes locked :
  wf_store s → normal_keys fs → NoDup (default [] tags) → int64 file_size →
  p ∈ c_missing_metadata (check_consistency self flt s fs) →
  ∃ m s',
    create_metadata now_create now_save s p file_size is_public content_type
      created_by tags description notes locked = (m, Ok s') ∧
    c_missing_metadata (check_consistency self flt s' fs) =
      filter (λ q, q ≠ p) (c_missing_metadata (check_consistency self flt s fs)) ∧
    c_orphan_metadata (check_consistency self flt s' fs) =
      c_orphan_metadata (check_consistency self flt s fs).
Proof.
  intros Hwf Hkeys Hnd Hsize Hmiss.
  pose proof (missing_scanned _ _ _ _ _ Hmiss) as [Hscan Hnone].
  unfold create_metadata.
  set (r := FileMetadata.mk _ _ _ _ _ _ _ _ _ _ _ _).
  destruct (save_succeeds now_save s p r Hwf Hnd Hsize) as [s' Hs'].
  exists (FileMetadata.set_last_modified now_save r), s'.
  split; [|split].
  - rewrite (surjective_pairing (save_metadata _ _ _ _)).
    by rewrite Hs', save_metadata_stamp.
  - rewrite !check_consistency_missing.
    destruct (db_unavailable flt); [done|]. destruct (fs_exists fs "."); [|done].
    rewrite list_filter_filter. apply filter_iff_elem. intros q _.
    destruct (decide (q = p)) as [->|Hq].
    + rewrite (save_load now_save s p r s' Hwf Hs'). split; [by intros [_ ?]|tauto].
    + rewrite (save_metadata_frame now_save s p r s' q Hwf Hs' Hq). tauto.
  - rewrite !check_consistency_orphans. destruct (db_unavailable flt); [done|].
    apply load_metadata_None in Hnone.
    rewrite (save_metadata_new now_save s p r s' Hnone Hs'). simpl.
    rewrite filter_app, filter_cons, decide_False, filter_nil, app_nil_r; [done|].
    intros (_ & Hgone & _). simpl in Hgone.
    by rewrite (scanned_exists self fs p Hkeys Hscan) in Hgone.
Qed.

(** [inbox/new.txt] is reported missing for [sample_library] over
    [sample_tree]; after [create_metadata] only [docs/reports/q2.txt]
    is. *)
Lemma create_metadata_repairs_missing_witness :
  ∃ m s',
    create_metadata "2024-06-01T12:00:00" "2024-06-01T12:00:01" sample_library
      "inbox/new.txt" 512 false None None None "" "" false = (m, Ok s') ∧
    c_missing_metadata (check_consistency sample_manager no_faults s' sample_tree) =
      filter (λ q, q ≠ "inbox/new.txt")
        (c_missing_metadata
           (check_consistency sample_manager no_faults sample_library sample_tree)) ∧
    c_orphan_metadata (check_consistency sample_manager no_faults s' sample_tree) =
      c_orphan_metadata
        (check_consistency sample_manager no_faults sample_library sample_tree).
Proof.
  apply (create_metadata_repairs_missing sample_manager no_faults sample_library
           sample_tree "2024-06-01T12:00:00" "2024-06-01T12:00:01" "inbox/new.txt" 512
           false None None None "" "" false).
  - apply wf_sample_library.
  - apply normal_keys_sample_tree.
  - compute_done.
  - compute_done.
  - compute_done.
Defined.

(** * Listing and searching *)

(** ** Who sees what *)

Lemma file_entry_visible env filter_public user_can_access_private item relative_path m i :
  file_entry env filter_public user_can_access_private item relative_path m = Some i →
  (user_can_access_private = false → fi_is_public i = true) ∧
  (∀ b, filter_public = Some b → fi_is_public i = b) ∧
  fi_display_name i = name (e_path item) ∧
  fi_filename i = relative_path ∧
  fi_is_public i = FileMetadata.is_public m.
Proof.
  unfold file_entry.
  destruct (match filter_public with Some _ => _ | None => _ end) eqn:Hf; [done|].
  destruct (negb (FileMetadata.is_public m) && negb user_can_access_private) eqn:Hp; [done|].
  destruct (env_stat env (e_path item)); [|done]. intros [= <-]. simpl.
  split; [|split; [|done]].
  - intros ->. by destruct (FileMetadata.is_public m).
  - intros b ->. apply negb_false_iff in Hf. by apply bool_decide_eq_true in Hf.
Qed.

Lemma list_dir_visible env directory filter_public user_can_access_private s item i :
  list_dir env directory filter_public user_can_access_private s item = Some i →
  (user_can_access_private = false → fi_is_public i = true) ∧
  (∀ b, filter_public = Some b → fi_is_public i = b) ∧
  fi_display_name i = name (e_path item) ∧
  fi_filename i = relative_path_of directory item ∧
  fi_is_public i =
    default true (get_directory_permission s (relative_path_of directory item)).
Proof.
  unfold list_dir. destruct (env_stat env (e_path item)); [|done].
  set (pub := default true _).
  destruct (match filter_public with Some _ => _ | None => _ end) eqn:Hf; [done|].
  destruct (negb pub && negb user_can_access_private) eqn:Hp; [done|].
  intros [= <-]. simpl. split; [|split; [|done]].
  - intros ->. by destruct pub.
  - intros b ->. apply negb_false_iff in Hf. by apply bool_decide_eq_true in Hf.
Qed.

Lemma list_file_visible env directory filter_public user_can_access_private s item i s' :
  list_file env directory filter_public user_can_access_private s item = (Ok (Some i), s') →
  (user_can_access_private = false → fi_is_public i = true) ∧
  (∀ b, filter_public = Some b → fi_is_public i = b) ∧
  fi_display_name i = name (e_path item) ∧
  fi_filename i = relative_path_of directory item.
Proof.
  unfold list_file. destruct (load_metadata s _) as [m|].
  - intros [= Hi _]. apply file_entry_visible in Hi. tauto.
  - destruct (env_stat env (e_path item)); [|done].
    destruct (create_metadata _ _ _ _ _ _ _ _ _ _ _ _) as [m [s1|e]]; [|done].
    intros [= Hi _]. apply file_entry_visible in Hi. tauto.
Qed.

(** Every entry of the list has a property that the two branches of the
    loop give to the entries they append. *)
Lemma list_step_entries env directory filter_public user_can_access_private
    (P : file_info → Prop) items :
  (∀ s item i s', item ∈ items → skipped_name (name (e_path item)) = false →
     list_file env directory filter_public user_can_access_private s item = (Ok (Some i), s') →
     P i) →
  (∀ s item i, item ∈ items → skipped_name (name (e_path item)) = false →
     list_dir env directory filter_public user_can_access_private s item = Some i → P i) →
  ∀ acc, Forall P acc.1.1 →
  Forall P (foldl (list_step env directory filter_public user_can_access_private)
              acc items).1.1.
Proof.
  intros Hfile Hdir. induction items as [|item items IH]; intros acc Hacc; [done|].
  simpl. apply IH.
  - intros s0 it i s' Hit. apply Hfile. by right.
  - intros s0 it i Hit. apply Hdir. by right.
  - destruct acc as [[infos s] raised]. unfold list_step.
    destruct raised; [done|].
    destruct (skipped_name (name (e_path item))) eqn:Hskip; [done|].
    destruct (e_is_file item).
    + destruct (list_file _ _ _ _ _ _) as [[[i|]|e] s'] eqn:Hl; simpl; try done.
      apply Forall_app. split; [done|]. apply Forall_singleton.
      eapply Hfile; [left|done|exact Hl].
    + destruct (list_dir _ _ _ _ _ _) as [i|] eqn:Hl; simpl; [|done].
      apply Forall_app. split; [done|]. apply Forall_singleton.
      eapply Hdir; [left|done|exact Hl].
Qed.

Lemma list_files_entries env s fs directory filter_public user_can_access_private
    (P : file_info → Prop) infos :
  (∀ s0 item i s', item ∈ iterdir fs directory →
     skipped_name (name (e_path item)) = false →
     list_file env directory filter_public user_can_access_private s0 item = (Ok (Some i), s') →
     P i) →
  (∀ s0 item i, item ∈ iterdir fs directory →
     skipped_name (name (e_path item)) = false →
     list_dir env directory filter_public user_can_access_private s0 item = Some i → P i) →
  fst (list_files_with_metadata env s fs directory filter_public user_can_access_private)
    = Ok infos →
  Forall P infos.
Proof.
  intros Hfile Hdir. unfold list_files_with_metadata.
  destruct (negb _ || negb _).
  { intros [= <-]. constructor. }
  pose proof (list_step_entries env directory filter_public user_can_access_private P
                (iterdir fs directory) Hfile Hdir ([], s, None)) as HP.
  destruct (foldl _ _ _) as [[infos' s'] raised]. simpl in *.
  destruct raised; [done|]. intros [= <-]. apply HP. constructor.
Qed.

(** X22. For every database, storage root and environment: every entry
    that [list_files_with_metadata] returns is public when
    [user_can_access_private] is [False], has [is_public = b] when
    [filter_public] is [b], is named after an item of the directory that
    was listed, and is not [.DS_Store], [metadata.db] or a [.meta] side
    file. *)
Theorem list_files_respects_access env s fs directory filter_public
    user_can_access_private infos :
  fst (list_files_with_metadata env s fs directory filter_public user_can_access_private)
    = Ok infos →
  ∀ i, i ∈ infos →
    (user_can_access_private = false → fi_is_public i = true) ∧
    (∀ b, filter_public = Some b → fi_is_public i = b) ∧
    skipped_name (fi_display_name i) = false ∧
    ∃ item, item ∈ iterdir fs directory ∧
            fi_display_name i = name (e_path item) ∧
            fi_filename i = relative_path_of directory item.
Proof.
  intros Hres. apply Forall_forall. revert Hres. apply list_files_entries.
  - intros s0 item i s' Hitem Hskip Hl. apply list_file_visible in Hl as (H1 & H2 & H3 & H4).
    split; [done|]. split; [done|]. split; [by rewrite H3|]. by exists item.
  - intros s0 item i Hitem Hskip Hl. apply list_dir_visible in Hl as (H1 & H2 & H3 & H4 & _).
    split; [done|]. split; [done|]. split; [by rewrite H3|]. by exists item.
Qed.

(** The listing of [docs] in [sample_library] for a user without access to
    private files: [docs] is private, so nothing below it is shown. *)
Lemma list_files_respects_access_witness :
  ∃ infos,
    fst (list_files_with_metadata sample_env sample_library sample_tree "docs" None false)
      = Ok infos ∧
    ∀ i, i ∈ infos →
      (false = false → fi_is_public i = true) ∧
      (∀ b, None = Some b → fi_is_public i = b) ∧
      skipped_name (fi_display_name i) = false ∧
      ∃ item, item ∈ iterdir sample_tree "docs" ∧
              fi_display_name i = name (e_path item) ∧
              fi_filename i = relative_path_of "docs" item.
Proof.
  eexists. split; [vm_compute; reflexivity|].
  apply (list_files_respects_access sample_env sample_library sample_tree "docs" None false).
  vm_compute. reflexivity.
Defined.

(** ** The records a listing creates *)

Lemma create_metadata_new now_create now_save s p file_size is_public content_type
    created_by tags description notes locked :
  wf_store s → NoDup (default [] tags) → int64 file_size →
  ∃ m s',
    create_metadata now_create now_save s p file_size is_public content_type
      created_by tags description notes locked = (m, Ok s') ∧
    wf_store s' ∧
    directory_metadata s' = directory_metadata s ∧
    (∀ q, q ≠ p → load_metadata s' q = load_metadata s q) ∧
    load_metadata s' p = Some (stored now_save m) ∧
    FileMetadata.is_public m =
      default is_public (get_directory_permission s (dirname p)).
Proof.
  intros Hwf Hnd Hsize. unfold create_metadata.
  set (r := FileMetadata.mk _ _ _ _ _ _ _ _ _ _ _ _).
  destruct (save_succeeds now_save s p r Hwf Hnd Hsize) as [s' Hs'].
  exists (FileMetadata.set_last_modified now_save r), s'.
  split; [|split; [|split; [|split; [|split]]]].
  - rewrite (surjective_pairing (save_metadata _ _ _ _)).
    by rewrite Hs', save_metadata_stamp.
  - by eapply save_metadata_wf.
  - by eapply save_metadata_dirs.
  - intros q Hq. by eapply save_metadata_frame.
  - by rewrite (save_load now_save s p r s' Hwf Hs').
  - simpl. by destruct (get_directory_permission s (dirname p)).
Qed.

(** The branch for a file, for a directory given by a relative path. *)
Lemma list_file_step env directory filter_public user_can_access_private s item :
  root (parse directory) = "" → wf_store s →
  (∀ st, env_stat env (e_path item) = Some st → int64 (st_size st)) →
  ∃ r s',
    list_file env directory filter_public user_can_access_private s item = (Ok r, s') ∧
    wf_store s' ∧
    directory_metadata s' = directory_metadata s ∧
    (∀ q, q ≠ e_path item → load_metadata s' q = load_metadata s q) ∧
    (∀ m, load_metadata s (e_path item) = Some m → s' = s) ∧
    (load_metadata s (e_path item) = None → env_stat env (e_path item) ≠ None →
     is_Some (load_metadata s' (e_path item))) ∧
    (load_metadata s (e_path item) = None →
     ∀ m, load_metadata s' (e_path item) = Some m →
          FileMetadata.is_public m =
            default false (get_directory_permission s (dirname (e_path item)))).
Proof.
  intros Hd Hwf Hstat. unfold list_file, relative_path_of. rewrite decide_True by done.
  destruct (load_metadata s (e_path item)) as [m|] eqn:Hload.
  { exists (file_entry env filter_public user_can_access_private item (e_path item) m), s.
    split_and!; try done. }
  destruct (env_stat env (e_path item)) as [st|] eqn:Hst.
  2:{ exists None, s. split_and!; try done. intros _ m. by rewrite Hload. }
  destruct (create_metadata_new (env_now_create env (e_path item))
              (env_now_save env (e_path item)) s (e_path item) (st_size st)
              false None None None "" "" false Hwf)
    as (m & s' & -> & Hwf' & Hdirs & Hframe & Hl & Hpub); [constructor|by apply Hstat|].
  eexists _, s'. split; [done|]. split; [done|]. split; [done|]. split; [done|].
  split; [done|]. split.
  - intros _ _. by rewrite Hl.
  - intros _ m'. rewrite Hl. intros [= <-]. done.
Qed.

(** One round of the loop. *)
Lemma list_step_round env directory filter_public user_can_access_private infos0 s0 item :
  root (parse directory) = "" → wf_store s0 →
  (∀ st, env_stat env (e_path item) = Some st → int64 (st_size st)) →
  ∃ infos' s',
    list_step env directory filter_public user_can_access_private (infos0, s0, None) item
      = (infos', s', None) ∧
    wf_store s' ∧ directory_metadata s' = directory_metadata s0 ∧
    (∀ q, q ≠ e_path item → load_metadata s' q = load_metadata s0 q) ∧
    (∀ m, load_metadata s0 (e_path item) = Some m → s' = s0) ∧
    (e_is_file item = true → skipped_name (name (e_path item)) = false →
     load_metadata s0 (e_path item) = None → env_stat env (e_path item) ≠ None →
     is_Some (load_metadata s' (e_path item))) ∧
    (load_metadata s0 (e_path item) = None →
     ∀ m, load_metadata s' (e_path item) = Some m →
          FileMetadata.is_public m =
            default false (get_directory_permission s0 (dirname (e_path item)))).
Proof.
  intros Hd Hwf Hstat. unfold list_step.
  assert (load_metadata s0 (e_path item) = None →
          ∀ m, load_metadata s0 (e_path item) = Some m →
               FileMetadata.is_public m =
                 default false (get_directory_permission s0 (dirname (e_path item))))
    as Hsame0 by (intros -> m; done).
  destruct (skipped_name (name (e_path item))) eqn:Hskip.
  { exists infos0, s0. split_and!; try done. }
  destruct (e_is_file item) eqn:Hfile.
  - destruct (list_file_step env directory filter_public user_can_access_private s0 item
                Hd Hwf Hstat) as (r & s' & -> & Hwf' & Hdirs & Hframe & Hsame & Hnew & Hpub).
    destruct r as [i|]; eexists _, s'; (split; [done|]); split_and!; try done;
      intros _ _; apply Hnew.
  - destruct (list_dir _ _ _ _ _ _); eexists _, s0; (split; [done|]);
      split_and!; try done.
Qed.

Lemma list_fold env directory filter_public user_can_access_private items :
  root (parse directory) = "" →
  (∀ item st, item ∈ items → env_stat env (e_path item) = Some st → int64 (st_size st)) →
  ∀ infos0 s0, wf_store s0 →
  ∃ infos1 s1,
    foldl (list_step env directory filter_public user_can_access_private)
      (infos0, s0, None) items = (infos1, s1, None) ∧
    wf_store s1 ∧
    directory_metadata s1 = directory_metadata s0 ∧
    (∀ q m, load_metadata s0 q = Some m → load_metadata s1 q = Some m) ∧
    (∀ q, q ∉ e_path <$> items → load_metadata s1 q = load_metadata s0 q) ∧
    (∀ item, item ∈ items → e_is_file item = true →
       skipped_name (name (e_path item)) = false →
       env_stat env (e_path item) ≠ None →
       is_Some (load_metadata s1 (e_path item))) ∧
    (∀ q m, load_metadata s0 q = None → load_metadata s1 q = Some m →
       FileMetadata.is_public m = default false (get_directory_permission s0 (dirname q))).
Proof.
  intros Hd. induction items as [|item items IH]; intros Hstat infos0 s0 Hwf.
  { exists infos0, s0. simpl. split_and!; try done.
    - intros item Hitem. by apply elem_of_nil in Hitem.
    - intros q m ->. done. }
  assert (∀ it st, it ∈ items → env_stat env (e_path it) = Some st → int64 (st_size st))
    as Hstat' by (intros it st Hit; apply Hstat; by right).
  destruct (list_step_round env directory filter_public user_can_access_private
              infos0 s0 item Hd Hwf)
    as (infos' & s' & Hstep & Hwf' & Hdirs & Hframe & Hsame & Hnew & Hpub).
  { intros st. apply Hstat. left. }
  destruct (IH Hstat' infos' s' Hwf')
    as (infos1 & s1 & Hfold & Hwf1 & Hdirs1 & Hkeep & Hfr & Hrec & Hpub1).
  exists infos1, s1. cbn [foldl]. rewrite Hstep. split; [done|]. split; [done|].
  split; [congruence|].
  assert (∀ q m, load_metadata s0 q = Some m → load_metadata s' q = Some m) as Hkeep0.
  { intros q m Hq. destruct (decide (q = e_path item)) as [->|Hne].
    - by rewrite (Hsame m Hq).
    - by rewrite Hframe. }
  split; [|split; [|split]].
  - intros q m Hq. by apply Hkeep, Hkeep0.
  - intros q Hq. rewrite fmap_cons in Hq. apply not_elem_of_cons in Hq as [Hq1 Hq2].
    rewrite Hfr by done. by apply Hframe.
  - intros it Hit Hfile Hskip Hst.
    apply elem_of_cons in Hit as [->|Hit]; [|by apply Hrec].
    destruct (load_metadata s0 (e_path item)) as [m0|] eqn:Hl0.
    + exists m0. by apply Hkeep, Hkeep0.
    + destruct (Hnew Hfile Hskip eq_refl Hst) as [m Hm].
      exists m. by apply Hkeep.
  - intros q m Hq0 Hq1.
    assert (get_directory_permission s' (dirname q) =
            get_directory_permission s0 (dirname q)) as Hperm
      by (by apply get_directory_permission_dirs).
    destruct (load_metadata s' q) as [m'|] eqn:Hq'.
    + apply Hkeep in Hq' as Hq1'. rewrite Hq1 in Hq1'. injection Hq1' as <-.
      destruct (decide (q = e_path item)) as [->|Hne].
      * by apply Hpub.
      * rewrite Hframe in Hq' by done. congruence.
    + rewrite <- Hperm. by apply Hpub1.
Qed.

(** X23. [list_files_with_metadata], for a directory given by a relative
    path, over a database that keeps the schema and a storage root whose
    files have sizes an INTEGER column holds: the call returns a list and
    raises nothing; it leaves the directory settings as they were, every
    record that existed as it was, and every path that is not an entry of
    the directory without a record if it had none. When the directory
    exists, every file of it that is not skipped and whose [stat] succeeds
    has a record afterwards; a record that the call created is public
    exactly when the nearest setting above the file says so, and private
    when there is none. *)
Theorem list_files_creates_records env s fs directory filter_public
    user_can_access_private :
  wf_store s → root (parse directory) = "" →
  (∀ item st, item ∈ iterdir fs directory →
     env_stat env (e_path item) = Some st → int64 (st_size st)) →
  ∃ infos s',
    list_files_with_metadata env s fs directory filter_public user_can_access_private
      = (Ok infos, s') ∧
    wf_store s' ∧
    directory_metadata s' = directory_metadata s ∧
    (∀ q m, load_metadata s q = Some m → load_metadata s' q = Some m) ∧
    (∀ q, q ∉ e_path <$> iterdir fs directory → load_metadata s' q = load_metadata s q) ∧
    (fs_exists fs directory = true → fs_is_dir fs directory = true →
     ∀ item, item ∈ iterdir fs directory → e_is_file item = true →
       skipped_name (name (e_path item)) = false →
       env_stat env (e_path item) ≠ None →
       is_Some (load_metadata s' (e_path item))) ∧
    (∀ q m, load_metadata s q = None → load_metadata s' q = Some m →
       FileMetadata.is_public m = default false (get_directory_permission s (dirname q))).
Proof.
  intros Hwf Hd Hstat. unfold list_files_with_metadata.
  destruct (negb (fs_exists fs directory) || negb (fs_is_dir fs directory)) eqn:Hex.
  { exists [], s. split_and!; try done.
    - intros He Hdir. rewrite He, Hdir in Hex. done.
    - intros q m ->. done. }
  destruct (list_fold env directory filter_public user_can_access_private
              (iterdir fs directory) Hd Hstat [] s Hwf)
    as (infos1 & s1 & -> & Hwf1 & Hdirs & Hkeep & Hfr & Hrec & Hpub).
  exists infos1, s1. split_and!; done.
Qed.

(** The listing of [docs/reports] in [sample_library]: [q2.txt] has no
    record before the call and a private one after it, as [docs] is
    private. *)
Lemma list_files_creates_records_witness :
  ∃ infos s',
    list_files_with_metadata sample_env sample_library sample_tree "docs/reports"
      None true = (Ok infos, s') ∧
    wf_store s' ∧
    directory_metadata s' = directory_metadata sample_library ∧
    (∀ q m, load_metadata sample_library q = Some m → load_metadata s' q = Some m) ∧
    (∀ q, q ∉ e_path <$> iterdir sample_tree "docs/reports" →
       load_metadata s' q = load_metadata sample_library q) ∧
    (fs_exists sample_tree "docs/reports" = true →
     fs_is_dir sample_tree "docs/reports" = true →
     ∀ item, item ∈ iterdir sample_tree "docs/reports" → e_is_file item = true →
       skipped_name (name (e_path item)) = false →
       env_stat sample_env (e_path item) ≠ None →
       is_Some (load_metadata s' (e_path item))) ∧
    (∀ q m, load_metadata sample_library q = None → load_metadata s' q = Some m →
       FileMetadata.is_public m =
         default false (get_directory_permission sample_library (dirname q))).
Proof.
  apply (list_files_creates_records sample_env sample_library sample_tree
           "docs/reports" None true).
  - exact wf_sample_library.
  - reflexivity.
  - intros item st _ [= <-]. unfold int64. simpl. lia.
Defined.

(** ** Searching *)

Lemma str_in_empty (h : string) : str_in "" h = true.
Proof. rewrite str_in_unfold. by destruct h. Qed.

Lemma search_files_listing lower env s fs query filter_public user_can_access_private :
  search_files lower env s fs query filter_public user_can_access_private =
  (all_files ← fst (list_files_with_metadata env s fs "" filter_public
                      user_can_access_private);
   Ok (filter (λ i, matches lower (lower query) i = true) all_files),
   snd (list_files_with_metadata env s fs "" filter_public user_can_access_private)).
Proof.
  unfold search_files, _simple_search.
  by destruct (list_files_with_metadata _ _ _ _ _ _).
Qed.

(** X24. [search_files] looks at the entries of the storage root only:
    when it returns a list, the listing of the root returned one too, the
    results are its matching entries in the order of the listing, and the
    database is the one the listing left. So every result is an item
    directly in the storage root, never one of a sub-directory, and it is
    public when the user has no access to private files. *)
Theorem search_files_top_level lower env s fs query filter_public
    user_can_access_private results :
  fst (search_files lower env s fs query filter_public user_can_access_private)
    = Ok results →
  ∃ all_files,
    list_files_with_metadata env s fs "" filter_public user_can_access_private =
      (Ok all_files,
       snd (search_files lower env s fs query filter_public user_can_access_private)) ∧
    results = filter (λ i, matches lower (lower query) i = true) all_files ∧
    ∀ i, i ∈ results →
      (user_can_access_private = false → fi_is_public i = true) ∧
      ∃ item, item ∈ fs ∧ fi_filename i = e_path item ∧
              length (tail (parse (e_path item))) = 1%nat.
Proof.
  rewrite search_files_listing. simpl.
  destruct (list_files_with_metadata env s fs "" filter_public user_can_access_private)
    as [[all_files|e] s'] eqn:Hl; simpl; [|done].
  intros [= <-]. exists all_files. split; [done|]. split; [done|].
  intros i Hi. apply list_elem_of_filter in Hi as [_ Hi].
  assert (fst (list_files_with_metadata env s fs "" filter_public
                 user_can_access_private) = Ok all_files) as Hfst by (by rewrite Hl).
  revert i Hi. apply Forall_forall. revert Hfst. apply list_files_entries.
  - intros s0 item i s1 Hitem _ Hf.
    apply list_file_visible in Hf as (Hpub & _ & _ & Hname).
    apply list_elem_of_filter in Hitem as [(_ & _ & Hlen & _) Hin].
    split; [done|]. exists item. by rewrite Hname.
  - intros s0 item i Hitem _ Hf.
    apply list_dir_visible in Hf as (Hpub & _ & _ & Hname & _).
    apply list_elem_of_filter in Hitem as [(_ & _ & Hlen & _) Hin].
    split; [done|]. exists item. by rewrite Hname.
Qed.

(** A search for [DOC] in [sample_library] by a user with access to
    private files finds the directory [docs], and not [docs/readme.md]
    below it. *)
Lemma search_files_top_level_witness :
  ∃ results all_files,
    fst (search_files ascii_lower sample_env sample_library sample_tree "DOC" None true)
      = Ok results ∧
    fi_filename <$> results = ["docs"] ∧
    list_files_with_metadata sample_env sample_library sample_tree "" None true =
      (Ok all_files,
       snd (search_files ascii_lower sample_env sample_library sample_tree "DOC"
              None true)) ∧
    results = filter (λ i, matches ascii_lower (ascii_lower "DOC") i = true) all_files ∧
    ∀ i, i ∈ results →
      (true = false → fi_is_public i = true) ∧
      ∃ item, item ∈ sample_tree ∧ fi_filename i = e_path item ∧
              length (tail (parse (e_path item))) = 1%nat.
Proof.
  eexists.
  destruct (search_files_top_level ascii_lower sample_env sample_library sample_tree
              "DOC" None true _ eq_refl) as (all_files & H1 & H2 & H3).
  exists all_files. split; [reflexivity|]. split; [reflexivity|]. split; [exact H1|].
  split; [exact H2|exact H3].
Defined.

(** X25. The empty query matches everything: when [str.lower] maps the
    empty string to itself, [search_files] with the query [""] returns
    what the listing of the storage root returns, and leaves the database
    as the listing does. *)
Theorem search_files_empty_query lower env s fs filter_public user_can_access_private :
  lower "" = "" →
  search_files lower env s fs "" filter_public user_can_access_private =
  list_files_with_metadata env s fs "" filter_public user_can_access_private.
Proof.
  intros Hlower. rewrite search_files_listing, Hlower.
  destruct (list_files_with_metadata env s fs "" filter_public user_can_access_private)
    as [[all_files|e] s']; simpl; [|done].
  f_equal. f_equal. apply filter_all. intros i _. unfold matches.
  by rewrite str_in_empty.
Qed.

Lemma search_files_empty_query_witness :
  ascii_lower "" = "" ∧
  search_files ascii_lower sample_env sample_library sample_tree "" None true =
  list_files_with_metadata sample_env sample_library sample_tree "" None true.
Proof.
  split; [reflexivity|].
  apply (search_files_empty_query ascii_lower sample_env sample_library sample_tree
           None true).
  reflexivity.
Defined.

(** ** What the entries of a listing show *)

Lemma entry_agrees_mono s0 s1 i :
  (∀ q m, load_metadata s0 q = Some m → load_metadata s1 q = Some m) →
  directory_metadata s1 = directory_metadata s0 →
  entry_agrees s0 i → entry_agrees s1 i.
Proof.
  intros Hkeep Hdirs [(Ht & m & Hm & Hshow)|(Ht & Hpub & Hlock & Hrest)].
  - left. split; [done|]. exists m. split; [by apply Hkeep|done].
  - right. split; [done|].
    by rewrite (get_directory_permission_dirs s0 s1), (get_directory_lock_dirs s0 s1).
Qed.

Lemma file_entry_shows env filter_public user_can_access_private item relative_path m i :
  file_entry env filter_public user_can_access_private item relative_path m = Some i →
  fi_type i = "file" ∧ fi_filename i = relative_path ∧ shows_record i m.
Proof.
  unfold file_entry.
  destruct (match filter_public with Some _ => _ | None => _ end); [done|].
  destruct (negb (FileMetadata.is_public m) && negb user_can_access_private); [done|].
  destruct (env_stat env (e_path item)); [|done]. intros [= <-]. by repeat split.
Qed.

Lemma list_file_agree env directory filter_public user_can_access_private s item i s' :
  root (parse directory) = "" → wf_store s →
  list_file env directory filter_public user_can_access_private s item
    = (Ok (Some i), s') →
  entry_agrees s' i.
Proof.
  intros Hd Hwf. unfold list_file, relative_path_of. rewrite decide_True by done.
  destruct (load_metadata s (e_path item)) as [m|] eqn:Hload.
  { intros [= Hi <-]. apply file_entry_shows in Hi as (Ht & Hn & Hshow).
    left. split; [done|]. exists m. by rewrite Hn. }
  destruct (env_stat env (e_path item)) as [st|]; [|done].
  unfold create_metadata.
  set (r := FileMetadata.mk _ _ _ _ _ _ _ _ _ _ _ _).
  rewrite (surjective_pairing (save_metadata _ _ _ _)), save_metadata_stamp.
  destruct (snd (save_metadata _ s (e_path item) r)) as [s1|e] eqn:Hsave; [|done].
  intros [= Hi <-]. apply file_entry_shows in Hi as (Ht & Hn & Hshow).
  left. split; [done|]. rewrite Hn.
  rewrite (save_load _ s (e_path item) r s1 Hwf Hsave).
  eexists. split; [done|]. exact Hshow.
Qed.

Lemma list_dir_agree env directory filter_public user_can_access_private s item i :
  list_dir env directory filter_public user_can_access_private s item = Some i →
  entry_agrees s i.
Proof.
  unfold list_dir. destruct (env_stat env (e_path item)); [|done].
  set (pub := default true _).
  destruct (match filter_public with Some _ => _ | None => _ end); [done|].
  destruct (negb pub && negb user_can_access_private); [done|].
  intros [= <-]. right. by repeat split.
Qed.

Lemma list_file_ok env directory filter_public user_can_access_private s item r s' :
  root (parse directory) = "" → wf_store s →
  list_file env directory filter_public user_can_access_private s item = (Ok r, s') →
  wf_store s' ∧ directory_metadata s' = directory_metadata s ∧
  ∀ q m, load_metadata s q = Some m → load_metadata s' q = Some m.
Proof.
  intros Hd Hwf. unfold list_file, relative_path_of. rewrite decide_True by done.
  destruct (load_metadata s (e_path item)) as [m|] eqn:Hload; [by intros [= _ <-]|].
  destruct (env_stat env (e_path item)) as [st|]; [|by intros [= _ <-]].
  unfold create_metadata.
  set (r0 := FileMetadata.mk _ _ _ _ _ _ _ _ _ _ _ _).
  rewrite (surjective_pairing (save_metadata _ _ _ _)).
  destruct (snd (save_metadata _ s (e_path item) r0)) as [s1|e] eqn:Hsave; [|done].
  intros [= _ <-]. split; [by eapply save_metadata_wf|].
  split; [by eapply save_metadata_dirs|].
  intros q m Hq. rewrite (save_metadata_frame _ s (e_path item) r0 s1 q Hwf Hsave); [done|].
  intros ->. by rewrite Hload in Hq.
Qed.

Lemma list_step_ok env directory filter_public user_can_access_private
    infos0 s0 item infos' s' :
  root (parse directory) = "" → wf_store s0 →
  list_step env directory filter_public user_can_access_private (infos0, s0, None) item
    = (infos', s', None) →
  wf_store s' ∧ directory_metadata s' = directory_metadata s0 ∧
  ∀ q m, load_metadata s0 q = Some m → load_metadata s' q = Some m.
Proof.
  intros Hd Hwf. unfold list_step.
  destruct (skipped_name (name (e_path item))); [by intros [= _ <-]|].
  destruct (e_is_file item).
  - destruct (list_file _ _ _ _ _ _) as [[r|e] s1] eqn:Hl.
    + apply list_file_ok in Hl; [|done..]. by destruct r; intros [= _ <-].
    + done.
  - by destruct (list_dir _ _ _ _ _ _); intros [= _ <-].
Qed.

(** After an exception the loop appends nothing. *)
Lemma list_step_raised env directory filter_public user_can_access_private
    infos s e items :
  foldl (list_step env directory filter_public user_can_access_private)
    (infos, s, Some e) items = (infos, s, Some e).
Proof. induction items as [|item items IH]; [done|]. exact IH. Qed.

Lemma list_step_agree env directory filter_public user_can_access_private
    infos0 s0 item infos' s' :
  root (parse directory) = "" → wf_store s0 →
  list_step env directory filter_public user_can_access_private (infos0, s0, None) item
    = (infos', s', None) →
  Forall (entry_agrees s0) infos0 → Forall (entry_agrees s') infos'.
Proof.
  intros Hd Hwf Hstep Hall.
  destruct (list_step_ok _ _ _ _ _ _ _ _ _ Hd Hwf Hstep) as (_ & Hdirs & Hkeep).
  assert (Forall (entry_agrees s') infos0) as Hall'.
  { eapply Forall_impl; [exact Hall|]. intros i. by apply entry_agrees_mono. }
  revert Hstep. unfold list_step.
  destruct (skipped_name (name (e_path item))); [by intros [= <- <-]|].
  destruct (e_is_file item).
  - destruct (list_file _ _ _ _ _ _) as [[[i|]|e] s1] eqn:Hl; intros [= <- <-]; [|done].
    apply Forall_app. split; [done|]. apply Forall_singleton.
    by eapply list_file_agree.
  - destruct (list_dir _ _ _ _ _ _) as [i|] eqn:Hl; intros [= <- <-]; [|done].
    apply Forall_app. split; [done|]. apply Forall_singleton.
    by eapply list_dir_agree.
Qed.

Lemma list_fold_agree env directory filter_public user_can_access_private items :
  root (parse directory) = "" →
  ∀ infos0 s0 infos1 s1, wf_store s0 →
  foldl (list_step env directory filter_public user_can_access_private)
    (infos0, s0, None) items = (infos1, s1, None) →
  Forall (entry_agrees s0) infos0 → Forall (entry_agrees s1) infos1.
Proof.
  intros Hd. induction items as [|item items IH]; intros infos0 s0 infos1 s1 Hwf.
  { by intros [= <- <-]. }
  cbn [foldl].
  destruct (list_step env directory filter_public user_can_access_private
              (infos0, s0, None) item) as [[infos' s'] [e|]] eqn:Hstep.
  { by rewrite list_step_raised. }
  intros Hfold Hall.
  destruct (list_step_ok _ _ _ _ _ _ _ _ _ Hd Hwf Hstep) as (Hwf' & _).
  eapply IH; [exact Hwf'|exact Hfold|].
  exact (list_step_agree _ _ _ _ _ _ _ _ _ Hd Hwf Hstep Hall).
Qed.

(** X26. The entries of a listing show the database as the listing left
    it. For a directory given by a relative path, over a database that
    keeps the schema: the entry of a file carries the upload time, the
    visibility, the content type, the tags, the description, the notes,
    the creator and the lock of the record that [load_metadata] returns
    for its path after the call, also when the call created that record;
    the entry of a directory carries the setting it inherits, public when
    there is none, and the lock [get_directory_lock] gives. *)
Theorem list_files_entries_agree env s fs directory filter_public
    user_can_access_private infos s' :
  wf_store s → root (parse directory) = "" →
  list_files_with_metadata env s fs directory filter_public user_can_access_private
    = (Ok infos, s') →
  ∀ i, i ∈ infos → entry_agrees s' i.
Proof.
  intros Hwf Hd. unfold list_files_with_metadata.
  destruct (negb _ || negb _).
  { intros [= <- <-] i Hi. by apply elem_of_nil in Hi. }
  destruct (foldl _ _ _) as [[infos1 s1] raised] eqn:Hfold.
  destruct raised; [done|]. intros [= <- <-]. apply Forall_forall.
  eapply list_fold_agree; [exact Hd|exact Hwf|exact Hfold|constructor].
Qed.

(** The listing of [docs/reports] in [sample_library] by a user with
    access to private files. *)
Lemma list_files_entries_agree_witness :
  ∃ infos s',
    list_files_with_metadata sample_env sample_library sample_tree "docs/reports"
      None true = (Ok infos, s') ∧
    fi_filename <$> infos = ["docs/reports/q1.txt"; "docs/reports/q2.txt"] ∧
    ∀ i, i ∈ infos → entry_agrees s' i.
Proof.
  eexists _, _. split; [vm_compute; reflexivity|]. split; [reflexivity|].
  apply (list_files_entries_agree sample_env sample_library sample_tree
           "docs/reports" None true).
  - exact wf_sample_library.
  - reflexivity.
  - vm_compute. reflexivity.
Defined.

(** * The path check *)

Lemma str_app_assoc (a b c : string) : (a +:+ b) +:+ c = a +:+ (b +:+ c).
Proof.
  induction a as [|x a IH]; [done|].
  change (String x ((a +:+ b) +:+ c) = String x (a +:+ (b +:+ c))). by rewrite IH.
Qed.

Lemma split_app_slash x y : split (x +:+ String sep y) = split x ++ split y.
Proof.
  induction x as [|c x IH]; simpl.
  - done.
  - case_decide; [by rewrite IH|]. rewrite IH.
    pose proof (split_nonempty x). by destruct (split x).
Qed.

Lemma prefix_cons a s1 b s2 :
  String.prefix (String a s1) (String b s2) = bool_decide (a = b) && String.prefix s1 s2.
Proof.
  change (String.prefix (String a s1) (String b s2))
    with (if ascii_dec a b then String.prefix s1 s2 else false).
  destruct (ascii_dec a b); case_bool_decide; done.
Qed.

Lemma prefix_empty s : String.prefix "" s = true.
Proof. by destruct s. Qed.

Lemma split_no_sep s c : c ∈ split s → String.prefix "/" c = false.
Proof.
  revert c. induction s as [|a s IH]; intros c; simpl.
  - by intros ->%list_elem_of_singleton.
  - case_decide as Ha.
    + intros [->|Hc]%elem_of_cons; [done|by apply IH].
    + pose proof (split_nonempty s). destruct (split s) as [|x xs]; [done|].
      intros [->|Hc]%elem_of_cons; [|apply IH; by right].
      rewrite prefix_cons. rewrite bool_decide_eq_false_2; [done|].
      intros Heq. by apply Ha.
Qed.

(** ** The loop of [normpath] *)

Lemma normpath_step_subset n cur c x :
  x ∈ normpath_step n cur c → x ∈ cur ∨ (x = c ∧ c ≠ "" ∧ c ≠ ".").
Proof.
  unfold normpath_step. case_decide as H1; [by left|].
  case_decide as H2.
  - intros [Hx| ->%list_elem_of_singleton]%elem_of_app; [by left|].
    right. split; [done|]. split; intros ->; apply H1; tauto.
  - case_decide; [|by left]. intros Hx. left.
    destruct cur as [|y ys] using rev_ind; [done|].
    rewrite removelast_last in Hx. apply elem_of_app. by left.
Qed.

Lemma normpath_fold_subset n comps : ∀ cur x,
  x ∈ foldl (normpath_step n) cur comps →
  x ∈ cur ∨ (x ∈ comps ∧ x ≠ "" ∧ x ≠ ".").
Proof.
  induction comps as [|c comps IH]; intros cur x; simpl; [by left|].
  intros [Hx|(Hx & Hne)]%IH.
  - apply normpath_step_subset in Hx as [Hx|(-> & Hne)]; [by left|].
    right. split; [left|done].
  - right. split; [by right|done].
Qed.

Lemma normpath_step_head cur c :
  head cur = Some ".." → head (normpath_step 0 cur c) = Some "..".
Proof.
  intros Hh. unfold normpath_step. case_decide; [done|].
  destruct cur as [|x rest]; [done|]. simpl in Hh. injection Hh as ->.
  case_decide as H2; [done|]. rewrite decide_True by done.
  destruct rest as [|y rest]; [|done].
  exfalso. apply H2. right. right. done.
Qed.

Lemma normpath_fold_head comps : ∀ cur,
  head cur = Some ".." → head (foldl (normpath_step 0) cur comps) = Some "..".
Proof.
  induction comps as [|c comps IH]; intros cur Hh; [done|].
  simpl. by apply IH, normpath_step_head.
Qed.

Lemma normpath_step_skip n cur c :
  c = "" ∨ c = "." → normpath_step n cur c = cur.
Proof. intros Hc. unfold normpath_step. by rewrite decide_True. Qed.

Lemma normpath_step_push n cur c :
  c ≠ "" → c ≠ "." → c ≠ ".." → normpath_step n cur c = cur ++ [c].
Proof.
  intros H1 H2 H3. unfold normpath_step.
  rewrite decide_False by tauto. by rewrite decide_True by tauto.
Qed.

Lemma normpath_step_pop n cur y :
  y ≠ ".." → normpath_step n (cur ++ [y]) ".." = cur.
Proof.
  intros Hy. unfold normpath_step. rewrite decide_False by (by intros [?|?]).
  rewrite decide_False.
  - rewrite decide_True by (by destruct cur). apply removelast_last.
  - rewrite last_snoc. intros [?|[[_ ?]|[_ [= ?]]]]; [done| |done].
    by destruct cur.
Qed.

(** A run that leaves no [..] behind never looks below the components it
    started with. *)
Lemma normpath_fold_base n B comps : ∀ cur,
  ".." ∉ cur → ".." ∉ foldl (normpath_step 0) cur comps →
  foldl (normpath_step n) (B ++ cur) comps = B ++ foldl (normpath_step 0) cur comps.
Proof.
  induction comps as [|c comps IH]; intros cur Hcur Hres; [done|].
  cbn [foldl] in *.
  assert (normpath_step n (B ++ cur) c = B ++ normpath_step 0 cur c ∧
          ".." ∉ normpath_step 0 cur c) as [Hstep Hnew].
  { destruct (decide (c = "" ∨ c = ".")) as [Hc|Hc].
    { by rewrite !normpath_step_skip. }
    destruct (decide (c = "..")) as [->|Hdd].
    - destruct cur as [|y ys _] using rev_ind.
      + exfalso. apply Hres. apply (head_Some_elem_of (A := string)).
        by apply normpath_fold_head.
      + assert (y ≠ "..") as Hy.
        { intros ->. apply Hcur. apply elem_of_app. right. left. }
        rewrite app_assoc, !normpath_step_pop by done. split; [done|].
        intros Hin. apply Hcur. apply elem_of_app. by left.
    - rewrite !normpath_step_push by tauto. rewrite app_assoc. split; [done|].
      intros [?|?%list_elem_of_singleton]%elem_of_app; [done|]. by apply Hdd. }
  rewrite Hstep. by apply IH.
Qed.

(** ** Two dots in a joined path *)

Lemma str_in_dotdot_sep x rest :
  str_in ".." (x +:+ String sep rest) = str_in ".." x || str_in ".." rest.
Proof.
  induction x as [|c x IH].
  - change ("" +:+ String sep rest) with (String sep rest).
    rewrite (str_in_unfold ".." (String sep rest)). by rewrite prefix_cons.
  - change (String c x +:+ String sep rest) with (String c (x +:+ String sep rest)).
    rewrite (str_in_unfold ".." (String c _)), (str_in_unfold ".." (String c x)), IH.
    rewrite !prefix_cons, orb_assoc. f_equal. f_equal. f_equal.
    destruct x as [|d x]; [done|].
    change (String d x +:+ String sep rest) with (String d (x +:+ String sep rest)).
    by rewrite !prefix_cons, !prefix_empty.
Qed.

Lemma str_in_dotdot_join comps :
  str_in ".." (join comps) = existsb (str_in "..") comps.
Proof.
  induction comps as [|x [|y ys] IH]; [done|by simpl; rewrite orb_false_r|].
  change (join (x :: y :: ys)) with (x +:+ String sep (join (y :: ys))).
  rewrite str_in_dotdot_sep, IH. done.
Qed.

Lemma join_not_absolute comps :
  (∀ c, c ∈ comps → c ≠ "" ∧ String.prefix "/" c = false) →
  String.prefix "/" (join comps) = false.
Proof.
  destruct comps as [|x [|y ys]]; intros Hc; [done|apply Hc; left|].
  change (join (x :: y :: ys)) with (x +:+ String sep (join (y :: ys))).
  destruct (Hc x ltac:(left)) as [Hx Hp]. destruct x as [|a x]; [done|].
  change (String a x +:+ ?r) with (String a (x +:+ r)).
  rewrite prefix_cons, prefix_empty in *. by rewrite andb_true_r in *.
Qed.

(** ** [initial_slashes] *)

Lemma prefix_seps_relative k a p :
  String.prefix "/" p = false →
  String.prefix (seps k) (a +:+ p) = String.prefix (seps k) a.
Proof.
  intros Hp. revert a. induction k as [|k IH]; intros a.
  { by destruct (a +:+ p), a. }
  destruct a as [|c a].
  - change ("" +:+ p) with p. destruct p as [|d p]; [done|].
    simpl seps. rewrite prefix_cons in *. rewrite prefix_empty, andb_true_r in Hp.
    unfold sep. by rewrite Hp.
  - change (String c a +:+ p) with (String c (a +:+ p)). simpl seps.
    by rewrite !prefix_cons, IH.
Qed.

Lemma prefix_seps_named k a q :
  all_sep a = false →
  String.prefix (seps k) (a +:+ q) = String.prefix (seps k) a.
Proof.
  revert a. induction k as [|k IH]; intros a Ha.
  { by destruct (a +:+ q), a. }
  destruct a as [|c a]; [done|].
  change (String c a +:+ q) with (String c (a +:+ q)). simpl seps.
  rewrite !prefix_cons. simpl in Ha.
  destruct (decide (sep = c)) as [<-|Hc].
  - rewrite bool_decide_eq_true_2 in Ha by done. by rewrite IH.
  - by rewrite bool_decide_eq_false_2.
Qed.

Lemma endswith_sep_inv a :
  endswith a "/" = true → ∃ a', a = a' +:+ "/".
Proof.
  induction a as [|c a IH]; [done|].
  simpl. case_bool_decide as Hc; simpl.
  - intros _. exists "". done.
  - intros [a' ->]%IH. by exists (String c a').
Qed.

Lemma not_endswith_sep a :
  a ≠ "" → endswith a "/" = false → all_sep a = false.
Proof.
  induction a as [|c a IH]; [done|]. intros _.
  simpl. case_bool_decide as Hc; [done|]. simpl. intros He.
  destruct (decide (c = sep)) as [->|Hs]; [|by rewrite bool_decide_eq_false_2].
  rewrite bool_decide_eq_true_2 by done. simpl.
  destruct a as [|d a]; [done|]. by apply IH.
Qed.

Lemma initial_slashes_join a p :
  String.prefix "/" p = false →
  initial_slashes (os_path_join a p) = initial_slashes a.
Proof.
  intros Hp. unfold os_path_join. rewrite Hp.
  assert (∀ x y, (∀ k, String.prefix (seps k) x = String.prefix (seps k) y) →
                 initial_slashes x = initial_slashes y) as Hk.
  { intros x y H. unfold initial_slashes.
    pose proof (H 1%nat) as H1. pose proof (H 2%nat) as H2. pose proof (H 3%nat) as H3.
    change (seps 1) with "/" in H1. change (seps 2) with "//" in H2.
    change (seps 3) with "///" in H3. by rewrite H1, H2, H3. }
  destruct (bool_decide (a = "") || endswith a "/") eqn:E; apply Hk; intros k.
  - by apply prefix_seps_relative.
  - apply orb_false_iff in E as [Ha He]. apply bool_decide_eq_false in Ha.
    apply prefix_seps_named. by apply not_endswith_sep.
Qed.

Lemma normpath_comps_kept p c :
  c ∈ normpath_comps p → c ≠ "" ∧ String.prefix "/" c = false.
Proof.
  intros [Hc|(Hc & Hne & _)]%normpath_fold_subset; [by apply elem_of_nil in Hc|].
  split; [done|]. by eapply split_no_sep.
Qed.

Lemma normpath_relative p :
  String.prefix "/" p = false →
  normpath p = match join (normpath_comps p) with EmptyString => "." | s => s end.
Proof.
  intros Hp. unfold normpath. case_decide as He; [by subst|].
  unfold initial_slashes. by rewrite Hp.
Qed.

Lemma normpath_absolute p :
  String.prefix "/" p = true → String.prefix "/" (normpath p) = true.
Proof.
  intros Hp. unfold normpath. case_decide as He; [by subst|].
  unfold initial_slashes. rewrite Hp.
  destruct (String.prefix "//" p && negb (String.prefix "///" p));
    [change (seps 2 +:+ ?x) with (String sep (String sep x))
    |change (seps 1 +:+ ?x) with (String sep x)];
    cbv beta iota; by rewrite prefix_cons, prefix_empty.
Qed.

(** [is_safe_path] by the components that [normpath] keeps. *)
Lemma is_safe_path_comps p :
  is_safe_path p =
  negb (String.prefix "/" p) && negb (existsb (str_in "..") (normpath_comps p)).
Proof.
  unfold is_safe_path. destruct (String.prefix "/" p) eqn:Hp.
  { by rewrite (normpath_absolute p Hp), orb_true_r. }
  rewrite (normpath_relative p Hp), <- str_in_dotdot_join.
  pose proof (join_not_absolute (normpath_comps p) (normpath_comps_kept p)) as Hj.
  destruct (join (normpath_comps p)) as [|c s]; [done|].
  by rewrite Hj, orb_false_r.
Qed.

(** X27. What [is_safe_path] accepts: exactly the paths that do not start
    with a slash and in which no component that [os.path.normpath] keeps
    contains two dots in a row. So a [..] that normalisation cancels
    against the component before it is accepted, and a plain name such as
    [notes..txt] is refused. *)
Theorem is_safe_path_spec p :
  is_safe_path p = true ↔
  String.prefix "/" p = false ∧ ∀ c, c ∈ normpath_comps p → str_in ".." c = false.
Proof.
  rewrite is_safe_path_comps, andb_true_iff, !negb_true_iff.
  split; intros [Hp Hc]; (split; [done|]).
  - intros c Hin. destruct (str_in ".." c) eqn:E; [|done].
    assert (existsb (str_in "..") (normpath_comps p) = true) as Hex; [|congruence].
    apply existsb_exists. exists c. split; [|done]. by apply list_elem_of_In.
  - destruct (existsb (str_in "..") (normpath_comps p)) eqn:E; [|done].
    apply existsb_exists in E as (c & Hin%list_elem_of_In & Hdd).
    by rewrite (Hc c Hin) in Hdd.
Qed.

(** X28. A path that [is_safe_path] accepts stays below the directory it
    is joined to: for every directory [a], normalising
    [os.path.join(a, p)] gives the components of the normalised [a]
    followed by those of the normalised [p], under the same leading
    slashes, and no component of [p] is [..]. *)
Theorem is_safe_path_stays_inside a p :
  is_safe_path p = true →
  initial_slashes (os_path_join a p) = initial_slashes a ∧
  normpath_comps (os_path_join a p) = normpath_comps a ++ normpath_comps p ∧
  ".." ∉ normpath_comps p.
Proof.
  rewrite is_safe_path_comps, andb_true_iff, !negb_true_iff. intros [Hp Hc].
  assert (".." ∉ normpath_comps p) as Hdd.
  { intros Hin. assert (existsb (str_in "..") (normpath_comps p) = true) as Hex;
      [|congruence].
    apply existsb_exists. exists "..". split; [by apply list_elem_of_In|done]. }
  split; [by apply initial_slashes_join|]. split; [|done].
  unfold normpath_comps at 1. rewrite initial_slashes_join by done.
  assert (initial_slashes p = 0%nat) as Hp0 by (unfold initial_slashes; by rewrite Hp).
  assert (∀ B, foldl (normpath_step (initial_slashes a)) B (split p) =
               B ++ normpath_comps p) as Hrun.
  { intros B. rewrite <- (app_nil_r B) at 1. unfold normpath_comps in *.
    rewrite Hp0 in *. apply normpath_fold_base; [apply not_elem_of_nil|done]. }
  unfold os_path_join. rewrite Hp.
  destruct (bool_decide (a = "") || endswith a "/") eqn:E.
  - apply orb_true_iff in E as [->%bool_decide_eq_true|[a' ->]%endswith_sep_inv].
    + change ("" +:+ p) with p. apply (Hrun []).
    + rewrite str_app_assoc. change ("/" +:+ p) with (String sep p).
      rewrite split_app_slash, foldl_app, Hrun. f_equal.
      unfold normpath_comps. change (a' +:+ "/") with (a' +:+ String sep "").
      rewrite split_app_slash, foldl_app. simpl.
      by rewrite normpath_step_skip by (by left).
  - change (a +:+ "/" +:+ p) with (a +:+ String sep p).
    rewrite split_app_slash, foldl_app. apply Hrun.
Qed.

Lemma is_safe_path_stays_inside_witness :
  is_safe_path "docs/./a/../b.txt" = true ∧
  initial_slashes (os_path_join "/opt/storage/" "docs/./a/../b.txt") =
    initial_slashes "/opt/storage/" ∧
  normpath_comps (os_path_join "/opt/storage/" "docs/./a/../b.txt") =
    normpath_comps "/opt/storage/" ++ normpath_comps "docs/./a/../b.txt" ∧
  ".." ∉ normpath_comps "docs/./a/../b.txt".
Proof.
  split; [reflexivity|].
  apply (is_safe_path_stays_inside "/opt/storage/" "docs/./a/../b.txt"). reflexivity.
Defined.

Example is_safe_path_samples :
  is_safe_path "" = true ∧
  is_safe_path "docs/a/../b.txt" = true ∧
  is_safe_path "notes..txt" = false ∧
  is_safe_path "docs/../../etc" = false ∧
  is_safe_path "/etc/passwd" = false ∧
  normpath "docs//a/./../b.txt" = "docs/b.txt" ∧
  normpath "//srv/../x/" = "//x" ∧
  normpath "///srv" = "/srv" ∧
  normpath "./" = ".".
Proof. repeat split; reflexivity. Qed.

(** * The counts of [get_directory_info] and the listing *)

(** With no filter and access to private files, an item whose [stat]
    succeeds gives one entry. *)
Lemma list_step_shown env directory infos0 s0 item st :
  root (parse directory) = "" → wf_store s0 →
  env_stat env (e_path item) = Some st → int64 (st_size st) →
  ∃ infos' s',
    list_step env directory None true (infos0, s0, None) item
      = (infos0 ++ infos', s', None) ∧
    wf_store s' ∧
    fi_type <$> infos' =
      (if skipped_name (name (e_path item)) then []
       else [if e_is_file item then "file" else "directory"]) ∧
    fi_filename <$> infos' =
      (if skipped_name (name (e_path item)) then [] else [e_path item]).
Proof.
  intros Hd Hwf Hst Hsize. unfold list_step.
  destruct (skipped_name (name (e_path item))).
  { exists [], s0. by rewrite app_nil_r. }
  destruct (e_is_file item).
  - unfold list_file, relative_path_of. rewrite decide_True by done.
    destruct (load_metadata s0 (e_path item)) as [m|] eqn:Hload.
    + unfold file_entry. rewrite Hst, andb_false_r. by eexists [_], s0.
    + rewrite Hst.
      destruct (create_metadata_new (env_now_create env (e_path item))
                  (env_now_save env (e_path item)) s0 (e_path item) (st_size st)
                  false None None None "" "" false Hwf)
        as (m & s' & -> & Hwf' & _); [constructor|done|].
      unfold file_entry. rewrite Hst, andb_false_r. by eexists [_], s'.
  - unfold list_dir, relative_path_of. rewrite decide_True by done.
    rewrite Hst, andb_false_r. by eexists [_], s0.
Qed.

Lemma list_fold_shown env directory items :
  root (parse directory) = "" →
  (∀ item, item ∈ items →
     ∃ st, env_stat env (e_path item) = Some st ∧ int64 (st_size st)) →
  ∀ infos0 s0, wf_store s0 →
  ∃ infos1 s1,
    foldl (list_step env directory None true) (infos0, s0, None) items
      = (infos0 ++ infos1, s1, None) ∧
    fi_type <$> infos1 =
      (λ item, if e_is_file item then "file" else "directory") <$>
        filter (λ item, skipped_name (name (e_path item)) = false) items ∧
    fi_filename <$> infos1 =
      e_path <$> filter (λ item, skipped_name (name (e_path item)) = false) items.
Proof.
  intros Hd. induction items as [|item items IH]; intros Hstat infos0 s0 Hwf.
  { exists [], s0. by rewrite app_nil_r. }
  destruct (Hstat item ltac:(left)) as (st & Hst & Hsize).
  destruct (list_step_shown env directory infos0 s0 item st Hd Hwf Hst Hsize)
    as (infos' & s' & Hstep & Hwf' & Ht & Hn).
  destruct (IH (λ it Hit, Hstat it ltac:(by right)) (infos0 ++ infos') s' Hwf')
    as (infos1 & s1 & Hfold & Ht1 & Hn1).
  exists (infos' ++ infos1), s1. cbn [foldl]. rewrite Hstep, Hfold, app_assoc.
  split; [done|]. rewrite !fmap_app, Ht, Hn, Ht1, Hn1, filter_cons.
  destruct (skipped_name (name (e_path item))).
  - by rewrite decide_False by done.
  - by rewrite decide_True by done.
Qed.

Lemma length_filter_fmap_eq {A B C} `{EqDecision C} (f : A → C) (g : B → C) (t : C) :
  ∀ (l : list A) (k : list B), f <$> l = g <$> k →
  length (filter (λ x, f x = t) l) = length (filter (λ y, g y = t) k).
Proof.
  induction l as [|x l IH]; intros [|y k]; try done.
  rewrite !fmap_cons. intros [= Hxy Hlk]. rewrite !filter_cons, Hxy.
  case_decide; simpl; by rewrite (IH k Hlk).
Qed.

(** X29. The counts of [get_directory_info] against the listing of the
    same directory. For a directory given by a relative path, over a
    database that keeps the schema and a storage root in which every
    [stat] succeeds with a size an INTEGER column holds: when
    [get_directory_info] returns its counts, the listing without filter for
    a user with access to private files returns a list with exactly
    [file_count] entries of files and at most [directory_count] entries of
    directories, so at most [total_items] entries, and exactly that many
    when no sub-directory has a name the listing skips ([.DS_Store],
    [metadata.db], [*.meta]); [total_items] is the sum of the two counts,
    and [is_public] is the permission the directory inherits. *)
Theorem get_directory_info_counts env s fs d path perm has fc dc total :
  wf_store s → root (parse d) = "" →
  (∀ item, item ∈ iterdir fs d →
     ∃ st, env_stat env (e_path item) = Some st ∧ int64 (st_size st)) →
  get_directory_info false s fs d = DirectoryInfo path perm has fc dc total →
  ∃ infos s',
    list_files_with_metadata env s fs d None true = (Ok infos, s') ∧
    Z.of_nat (length (filter (λ i, fi_type i = "file") infos)) = fc ∧
    Z.of_nat (length (filter (λ i, fi_type i = "directory") infos)) ≤ dc ∧
    total = fc + dc ∧
    Z.of_nat (length infos) ≤ total ∧
    ((∀ item, item ∈ iterdir fs d → e_is_file item = false →
        skipped_name (name (e_path item)) = false) →
     Z.of_nat (length infos) = total) ∧
    perm = get_directory_permission s path ∧
    has = is_not_None perm.
Proof.
  intros Hwf Hd Hstat. unfold get_directory_info.
  set (d' := if decide (d = "") then "." else d).
  assert (fs_exists fs d' = fs_exists fs d ∧ fs_is_dir fs d' = fs_is_dir fs d ∧
          iterdir fs d' = iterdir fs d) as (-> & -> & ->).
  { unfold d'. by case_decide as Hd0; [subst d|]. }
  unfold list_files_with_metadata.
  destruct (negb (fs_exists fs d) || negb (fs_is_dir fs d)); [done|].
  intros [= <- <- <- <- <- <-].
  destruct (list_fold_shown env d (iterdir fs d) Hd Hstat [] s Hwf)
    as (infos & s' & -> & Ht & _).
  set (shown := filter (λ item, skipped_name (name (e_path item)) = false)
                  (iterdir fs d)) in *.
  set (g := λ item : fs_entry, if e_is_file item then "file" else "directory") in *.
  exists infos, s'. simpl.
  assert (length (filter (λ i, fi_type i = "file") infos) =
          length (filter (λ item,
            e_is_file item = true ∧
            (name (e_path item) ∉ [".DS_Store"; "metadata.db"]) ∧
            endswith (name (e_path item)) ".meta" = false) (iterdir fs d))) as Hfiles.
  { rewrite (length_filter_fmap_eq fi_type g "file" infos shown Ht).
    unfold shown. rewrite list_filter_filter. f_equal. apply filter_iff_elem.
    intros item _. unfold g, skipped_name. rewrite orb_false_iff, bool_decide_eq_false.
    destruct (e_is_file item); [tauto|]. split; [by intros [? _]|by intros [? _]]. }
  assert (length (filter (λ i, fi_type i = "directory") infos) =
          length (filter (λ item, e_is_file item = false) shown)) as Hdirs.
  { rewrite (length_filter_fmap_eq fi_type g "directory" infos shown Ht).
    f_equal. apply filter_iff_elem. intros item _. unfold g.
    by destruct (e_is_file item). }
  assert (length infos =
          (length (filter (λ i, fi_type i = "file") infos) +
           length (filter (λ i, fi_type i = "directory") infos))%nat) as Hsum.
  { assert (Forall (λ t, t = "file" ∨ t = "directory") (fi_type <$> infos)) as Hty.
    { rewrite Ht. apply Forall_fmap, Forall_forall. intros item _. unfold g. simpl.
      destruct (e_is_file item); tauto. }
    clear -Hty. induction infos as [|i infos IH]; [done|].
    rewrite fmap_cons in Hty. apply Forall_cons in Hty as [Hi Hty].
    rewrite !filter_cons. specialize (IH Hty).
    destruct Hi as [Hi|Hi]; rewrite Hi; simpl; lia. }
  assert (length (filter (λ item, e_is_file item = false) shown)
          ≤ length (filter (λ item, e_is_file item = false) (iterdir fs d)))%nat as Hle.
  { unfold shown.
    rewrite (filter_filter_swap _ (λ item, e_is_file item = false) _ (iterdir fs d))
      by done.
    apply length_filter. }
  split; [done|]. split; [by rewrite Hfiles|]. split; [rewrite Hdirs; lia|].
  split; [done|]. split; [rewrite Hsum, Hfiles, Hdirs; lia|]. split; [|done].
  intros Hnames. rewrite Hsum, Hfiles, Hdirs. unfold shown.
  rewrite (filter_filter_swap _ (λ item, e_is_file item = false) _ (iterdir fs d))
    by done.
  rewrite (filter_all _ (filter _ (iterdir fs d))); [lia|].
  intros item [Hf Hin]%list_elem_of_filter. by apply Hnames.
Qed.

(** [docs] in [sample_library]: one file, one sub-directory. *)
Lemma get_directory_info_counts_witness :
  get_directory_info false sample_library sample_tree "docs" =
    DirectoryInfo "docs" (Some false) true 1 1 2 ∧
  ∃ infos s',
    list_files_with_metadata sample_env sample_library sample_tree "docs" None true
      = (Ok infos, s') ∧
    Z.of_nat (length (filter (λ i, fi_type i = "file") infos)) = 1 ∧
    Z.of_nat (length (filter (λ i, fi_type i = "directory") infos)) ≤ 1 ∧
    2 = 1 + 1 ∧
    Z.of_nat (length infos) ≤ 2 ∧
    ((∀ item, item ∈ iterdir sample_tree "docs" → e_is_file item = false →
        skipped_name (name (e_path item)) = false) →
     Z.of_nat (length infos) = 2) ∧
    Some false = get_directory_permission sample_library "docs" ∧
    true = is_not_None (Some false).
Proof.
  split; [reflexivity|].
  apply (get_directory_info_counts sample_env sample_library sample_tree "docs"
           "docs" (Some false) true 1 1 2).
  - exact wf_sample_library.
  - reflexivity.
  - intros item _. eexists. split; [reflexivity|]. unfold int64. simpl. lia.
  - reflexivity.
Defined.

(** * Shares *)

Lemma get_share_info_elem f k v :
  wf_shares f → (k, v) ∈ _load_shares f → get_share_info f k = Some v.
Proof.
  intros [Hnd _] Hin. unfold get_share_info.
  by rewrite (head_filter_unique fst (_load_shares f) (k, v) Hnd Hin).
Qed.

Lemma get_share_info_Some f k v :
  get_share_info f k = Some v → (k, v) ∈ _load_shares f.
Proof.
  unfold get_share_info.
  destruct (filter _ _) as [|[k' v'] rest] eqn:Hf; [done|].
  simpl. intros [= ->].
  assert ((k', v) ∈ filter (λ kv : string * ShareInfo.t, kv.1 = k) (_load_shares f))
    as [Hk Hin]%list_elem_of_filter by (rewrite Hf; left).
  simpl in Hk. by subst.
Qed.

Lemma find_existing_share_Some f filename is_public e :
  find_existing_share f filename is_public = Some e →
  ShareInfo.filename e = filename ∧ ShareInfo.is_public e = is_public ∧
  ∃ k, (k, e) ∈ _load_shares f.
Proof.
  unfold find_existing_share. intros Hh. apply head_Some_elem_of in Hh.
  apply list_elem_of_filter in Hh as [[H1 H2] Hin].
  apply list_elem_of_fmap in Hin as ([k v] & -> & Hin). split; [done|].
  split; [done|]. by exists k.
Qed.

Lemma delete_share_gone f k :
  get_share_info (snd (delete_share f k)) k = None ∧
  k ∉ (_load_shares (snd (delete_share f k))).*1.
Proof.
  unfold delete_share. case_decide as Hk; simpl.
  - split.
    + unfold get_share_info, _save_shares, _load_shares at 1. simpl.
      rewrite (filter_none (λ kv : string * ShareInfo.t, kv.1 = k)); [done|].
      by intros kv [? _]%list_elem_of_filter ?.
    + intros ([k' v] & -> & [Hne _]%list_elem_of_filter)%list_elem_of_fmap. done.
  - split; [|done]. unfold get_share_info.
    rewrite (filter_none (λ kv : string * ShareInfo.t, kv.1 = k)); [done|].
    intros kv Hin <-. apply Hk.
    by apply list_elem_of_fmap_2.
Qed.

(** X30. Shares, over a file that holds a dictionary in which every
    share is stored under its own id (or no readable file), and for a
    generated id that is not in use: [get_or_create_share(filename,
    is_public)] returns a share for that name and visibility;
    [get_share_info] of its id then gives the share, every share that was
    there is still there, and the file keeps its form; asking again, with
    whatever id and clock reading, returns the same share and writes
    nothing; [delete_share] of its id returns [True], after which
    [get_share_info] gives [None] and deleting again returns [False]. *)
Theorem get_or_create_share_round_trip share_id now f filename is_public :
  wf_shares f → share_id ∉ (_load_shares f).*1 →
  let r := get_or_create_share share_id now f filename is_public in
  ShareInfo.filename (fst r) = filename ∧
  ShareInfo.is_public (fst r) = is_public ∧
  wf_shares (snd r) ∧
  get_share_info (snd r) (ShareInfo.share_id (fst r)) = Some (fst r) ∧
  (∀ k v, get_share_info f k = Some v → get_share_info (snd r) k = Some v) ∧
  (∀ share_id' now',
     get_or_create_share share_id' now' (snd r) filename is_public = r) ∧
  fst (delete_share (snd r) (ShareInfo.share_id (fst r))) = true ∧
  get_share_info (snd (delete_share (snd r) (ShareInfo.share_id (fst r))))
    (ShareInfo.share_id (fst r)) = None ∧
  fst (delete_share (snd (delete_share (snd r) (ShareInfo.share_id (fst r))))
         (ShareInfo.share_id (fst r))) = false.
Proof.
  intros Hwf Hfresh r.
  assert (ShareInfo.filename (fst r) = filename ∧
          ShareInfo.is_public (fst r) = is_public ∧
          wf_shares (snd r) ∧
          (ShareInfo.share_id (fst r), fst r) ∈ _load_shares (snd r) ∧
          (∀ k v, (k, v) ∈ _load_shares f → (k, v) ∈ _load_shares (snd r)) ∧
          find_existing_share (snd r) filename is_public = Some (fst r))
    as (Hname & Hpub & Hwf' & Hin & Hkeep & Hfind).
  { unfold r, get_or_create_share.
    destruct (find_existing_share f filename is_public) as [e|] eqn:He; simpl.
    - destruct (find_existing_share_Some _ _ _ _ He) as (H1 & H2 & k & Hk).
      split; [done|]. split; [done|]. split; [done|].
      destruct Hwf as [_ Hid]. by rewrite (Hid k e Hk).
    - unfold dict_set. rewrite decide_False by done. simpl.
      split; [done|]. split; [done|]. split; [|split; [|split]].
      + destruct Hwf as [Hnd Hid]. split; simpl.
        * rewrite fmap_app. apply NoDup_app. split; [done|].
          split; [|apply NoDup_singleton].
          intros k Hk ->%list_elem_of_singleton. done.
        * intros k v [Hkv|[= -> ->]%list_elem_of_singleton]%elem_of_app;
            [by apply Hid|done].
      + apply elem_of_app. right. left.
      + intros k v Hkv. apply elem_of_app. by left.
      + unfold find_existing_share in *. simpl. rewrite fmap_app, filter_app.
        destruct (filter _ (_load_shares f).*2); [|done].
        simpl. rewrite filter_cons, decide_True by done. done. }
  split; [done|]. split; [done|]. split; [done|].
  split; [by apply get_share_info_elem|].
  split; [|split; [|split; [|split]]].
  - intros k v Hkv%get_share_info_Some. by apply get_share_info_elem, Hkeep.
  - intros share_id' now'. unfold get_or_create_share at 1. rewrite Hfind.
    by destruct r.
  - unfold delete_share. rewrite decide_True; [done|].
    by apply (list_elem_of_fmap_2 fst) in Hin.
  - apply delete_share_gone.
  - destruct (delete_share_gone (snd r) (ShareInfo.share_id (fst r))) as [_ Hgone].
    unfold delete_share at 1. by rewrite decide_False.
Qed.

Lemma get_or_create_share_round_trip_witness :
  let f : shares_file :=
    Some [("7f0c", ShareInfo.mk "7f0c" "docs/readme.md" true "2024-05-01T09:30:00")] in
  wf_shares f ∧ ("a1b2" ∉ (_load_shares f).*1) ∧
  get_or_create_share "a1b2" "2024-06-01T12:00:00" f "docs/readme.md" false =
    (ShareInfo.mk "a1b2" "docs/readme.md" false "2024-06-01T12:00:00",
     Some [("7f0c", ShareInfo.mk "7f0c" "docs/readme.md" true "2024-05-01T09:30:00");
           ("a1b2", ShareInfo.mk "a1b2" "docs/readme.md" false "2024-06-01T12:00:00")]) ∧
  ∀ share_id' now',
    get_or_create_share share_id' now'
      (snd (get_or_create_share "a1b2" "2024-06-01T12:00:00" f "docs/readme.md" false))
      "docs/readme.md" false =
    get_or_create_share "a1b2" "2024-06-01T12:00:00" f "docs/readme.md" false.
Proof.
  intros f.
  assert (wf_shares f) as Hwf.
  { split; [apply NoDup_singleton|].
    by intros k v [= -> ->]%list_elem_of_singleton. }
  assert ("a1b2" ∉ (_load_shares f).*1) as Hfresh.
  { by intros [=]%list_elem_of_singleton. }
  split; [done|]. split; [done|]. split; [reflexivity|].
  apply (get_or_create_share_round_trip "a1b2" "2024-06-01T12:00:00" f
           "docs/readme.md" false Hwf Hfresh).
Defined.
